(** * Deadlock-Detection: resource ledger, order coordinator, deadlock analyzer

    A shallow embedding of [resource_manager.py], [order_manager.py] and
    [deadlock_detector.py], and the properties of the specification stated
    over it.

    Conventions of the embedding.
    - Python [int] is [Z]; order ids and resource names are [string].
    - A Python [dict] is an insertion-ordered association list
      ([PyDict.dict]); [d[k] = v] overwrites in place or appends, iteration
      follows the list.  A dict that Python can build has pairwise distinct
      keys ([PyDict.wf]).
    - A Python [set] is a duplicate-free list in insertion order.
    - An exception ends the call: functions that can raise return
      [result], and the partially updated object is not described.
    - Calls on the persistence handle ([self.db....]) write to an external
      store and are not part of the state; the dictionary look-ups made to
      build their arguments are kept, since they can raise [KeyError]. *)

From Stdlib Require Import ZArith List String Bool Lia Permutation Sorted.
Import ListNotations.
Local Open Scope Z_scope.

(** ** Exceptions *)

Inductive exn : Type :=
| KeyError
| ValueError
| OutOfFuel.

Inductive result (A : Type) : Type :=
| Ok (a : A)
| Raise (e : exn).
Arguments Ok {A} a.
Arguments Raise {A} e.

Definition bind {A B : Type} (m : result A) (k : A -> result B) : result B :=
  match m with
  | Ok a => k a
  | Raise e => Raise e
  end.

Notation "x <- m ;; k" := (bind m (fun x => k))
  (at level 61, m at next level, right associativity).
Notation "' p <- m ;; k" := (bind m (fun x => match x with p => k end))
  (at level 61, p pattern, m at next level, right associativity).

(** [for x in xs: st = body(st, x)], stopping at the first exception. *)
Fixpoint for_each {A S : Type} (body : S -> A -> result S) (xs : list A) (st : S)
  : result S :=
  match xs with
  | [] => Ok st
  | x :: xs' => st' <- body st x ;; for_each body xs' st'
  end.

(** ** Python dictionaries *)

Module PyDict.

Section Dict.
Context {V : Type}.

Definition dict : Type := list (string * V).

Definition keys (d : dict) : list string := map fst d.
Definition values (d : dict) : list V := map snd d.

(** [d.get(k)] *)
Fixpoint get (k : string) (d : dict) : option V :=
  match d with
  | [] => None
  | (k', v) :: d' => if String.eqb k k' then Some v else get k d'
  end.

(** [d.get(k, default)] *)
Definition get_or (k : string) (d : dict) (default : V) : V :=
  match get k d with
  | Some v => v
  | None => default
  end.

(** [d[k]] *)
Definition getitem (k : string) (d : dict) : result V :=
  match get k d with
  | Some v => Ok v
  | None => Raise KeyError
  end.

(** [k in d] *)
Definition contains (k : string) (d : dict) : bool :=
  match get k d with
  | Some _ => true
  | None => false
  end.

(** [d[k] = v] *)
Fixpoint set (k : string) (v : V) (d : dict) : dict :=
  match d with
  | [] => [(k, v)]
  | (k', v') :: d' =>
      if String.eqb k k' then (k', v) :: d' else (k', v') :: set k v d'
  end.

(** [del d[k]], for a key that is present (every call site tests
    [k in d] first): afterwards [k] is not a key of [d]. *)
Definition remove (k : string) (d : dict) : dict :=
  filter (fun entry => negb (String.eqb k (fst entry))) d.

(** Distinct keys: what every Python dict satisfies. *)
Definition wf (d : dict) : Prop := NoDup (keys d).

Fixpoint nodup_keys (d : dict) : bool :=
  match d with
  | [] => true
  | (k, _) :: d' => negb (contains k d') && nodup_keys d'
  end.
End Dict.

Arguments dict V : clear implicits.

End PyDict.

Import PyDict.

(** ** Resource ledger ([resource_manager.py]) *)

Record ResourceManager : Type := mkRM {
  total_resources : dict Z;
  available_resources : dict Z;
  allocated_resources : dict (dict Z)   (* order_id -> {resource: qty} *)
}.

(** [ResourceManager.__init__], the two branches: an explicit resource map,
    or the rows of the resource table ([name -> (total, available)]). *)
Definition ResourceManager_init (resources : option (dict Z))
    (db_resources : dict (Z * Z)) : ResourceManager :=
  match resources with
  | None =>
      {| total_resources := map (fun '(res, row) => (res, fst row)) db_resources;
         available_resources := map (fun '(res, row) => (res, snd row)) db_resources;
         allocated_resources := [] |}
  | Some resources =>
      {| total_resources := resources;
         available_resources := resources;
         allocated_resources := [] |}
  end.

(** The arguments of [db.upsert_resource(res, total[res], available[res])]
    for every [res] of [total_resources]. *)
Definition sync_resources (rm : ResourceManager) : result unit :=
  for_each (fun (_ : unit) res =>
              _ <- getitem res (total_resources rm) ;;
              _ <- getitem res (available_resources rm) ;;
              Ok tt)
           (keys (total_resources rm)) tt.

Definition _can_allocate (request : dict Z) (rm : ResourceManager) : bool :=
  forallb (fun '(res, qty) =>
             negb (get_or res (available_resources rm) 0 <? qty))
          request.

(** [self.available_resources[res] -= qty] *)
Definition take (available : dict Z) (item : string * Z) : result (dict Z) :=
  let '(res, qty) := item in
  cur <- getitem res available ;;
  Ok (set res (cur - qty) available).

(** [self.available_resources[res] += qty] *)
Definition give (available : dict Z) (item : string * Z) : result (dict Z) :=
  let '(res, qty) := item in
  cur <- getitem res available ;;
  Ok (set res (cur + qty) available).

Definition _allocate (order_id : string) (request : dict Z) (rm : ResourceManager)
  : result ResourceManager :=
  available <- for_each take request (available_resources rm) ;;
  let rm' := {| total_resources := total_resources rm;
                available_resources := available;
                allocated_resources := set order_id request (allocated_resources rm) |} in
  _ <- sync_resources rm' ;;
  Ok rm'.

Definition request_resources (order_id : string) (request : dict Z)
    (rm : ResourceManager) : result (bool * ResourceManager) :=
  if _can_allocate request rm then
    rm' <- _allocate order_id request rm ;;
    Ok (true, rm')
  else Ok (false, rm).

Definition release_resources (order_id : string) (rm : ResourceManager)
  : result ResourceManager :=
  if contains order_id (allocated_resources rm) then
    held <- getitem order_id (allocated_resources rm) ;;
    available <- for_each give held (available_resources rm) ;;
    let rm' := {| total_resources := total_resources rm;
                  available_resources := available;
                  allocated_resources := remove order_id (allocated_resources rm) |} in
    _ <- sync_resources rm' ;;
    Ok rm'
  else Ok rm.

(** [total[res] = total.get(res, 0) + qty; available[res] = available.get(res, 0) + qty] *)
Definition add_virtual (rm : ResourceManager) (item : string * Z) : ResourceManager :=
  let '(res, qty) := item in
  let total := set res (get_or res (total_resources rm) 0 + qty) (total_resources rm) in
  let available :=
    set res (get_or res (available_resources rm) 0 + qty) (available_resources rm) in
  {| total_resources := total;
     available_resources := available;
     allocated_resources := allocated_resources rm |}.

Definition add_virtual_resources (additions : dict Z) (rm : ResourceManager)
  : ResourceManager :=
  fold_left add_virtual additions rm.

Definition preempt_resources (order_id : string) (rm : ResourceManager)
  : result ResourceManager :=
  if contains order_id (allocated_resources rm) then
    held <- getitem order_id (allocated_resources rm) ;;
    available <- for_each give held (available_resources rm) ;;
    let rm' := {| total_resources := total_resources rm;
                  available_resources := available;
                  allocated_resources := remove order_id (allocated_resources rm) |} in
    _ <- sync_resources rm' ;;
    Ok rm'
  else Ok rm.

(** [get_status]: the three maps. *)
Definition get_status (rm : ResourceManager)
  : dict Z * dict Z * dict (dict Z) :=
  (total_resources rm, available_resources rm, allocated_resources rm).

(** ** Order coordinator ([order_manager.py]) *)

(** [sorted(xs, key=key)]: Python's sort is stable, so elements with equal
    keys keep their input order. *)
Fixpoint insert_by {A : Type} (key : A -> Z) (x : A) (xs : list A) : list A :=
  match xs with
  | [] => [x]
  | y :: ys => if key x <=? key y then x :: y :: ys else y :: insert_by key x ys
  end.

Fixpoint sorted {A : Type} (key : A -> Z) (xs : list A) : list A :=
  match xs with
  | [] => []
  | x :: xs' => insert_by key x (sorted key xs')
  end.

Record OrderManager : Type := mkOM {
  rm : ResourceManager;
  orders : dict (dict Z);             (* order_id -> current allocated resources *)
  pending_requests : dict (dict Z);   (* order_id -> requested resources *)
  order_priorities : dict Z;          (* order_id -> priority *)
  holding_orders : list string
}.

Inductive status : Type :=
| allocated
| pending
| other_status.

(** [OrderManager.__init__]: [db_orders] maps an order id to its status and
    priority, [db_allocations] an order id to its stored resource map. *)
Definition load_order (db_allocations : dict (dict Z)) (om : OrderManager)
    (row : string * (status * Z)) : OrderManager :=
  let '(order_id, (st, priority)) := row in
  let priorities := set order_id priority (order_priorities om) in
  match st with
  | allocated =>
      {| rm := rm om;
         orders := set order_id (get_or order_id db_allocations []) (orders om);
         pending_requests := pending_requests om;
         order_priorities := priorities;
         holding_orders := holding_orders om |}
  | pending =>
      {| rm := rm om;
         orders := orders om;
         pending_requests :=
           set order_id (get_or order_id db_allocations []) (pending_requests om);
         order_priorities := priorities;
         holding_orders := holding_orders om |}
  | other_status =>
      {| rm := rm om;
         orders := orders om;
         pending_requests := pending_requests om;
         order_priorities := priorities;
         holding_orders := holding_orders om |}
  end.

Definition OrderManager_init (resource_manager : ResourceManager)
    (db_orders : dict (status * Z)) (db_allocations : dict (dict Z)) : OrderManager :=
  fold_left (load_order db_allocations) db_orders
    {| rm := resource_manager;
       orders := [];
       pending_requests := [];
       order_priorities := [];
       holding_orders := [] |}.

Definition create_order (order_id : string) (resource_request : dict Z) (priority : Z)
    (om : OrderManager) : OrderManager :=
  {| rm := rm om;
     orders := orders om;
     pending_requests := set order_id resource_request (pending_requests om);
     order_priorities := set order_id priority (order_priorities om);
     holding_orders := holding_orders om |}.

(** [sorted(self.pending_requests.items(), key=lambda x: self.order_priorities.get(x[0], 5))] *)
Definition sorted_requests (om : OrderManager) : list (string * dict Z) :=
  sorted (fun x => get_or (fst x) (order_priorities om) 5) (pending_requests om).

(** One iteration of the allocation loop; the state is the coordinator and
    the local list [to_remove]. *)
Definition try_order (st : OrderManager * list string) (item : string * dict Z)
  : result (OrderManager * list string) :=
  let '(om, to_remove) := st in
  let '(order_id, request) := item in
  if _can_allocate request (rm om) then
    rm' <- _allocate order_id request (rm om) ;;
    _ <- getitem order_id (order_priorities om) ;;
    Ok ({| rm := rm';
           orders := set order_id request (orders om);
           pending_requests := pending_requests om;
           order_priorities := order_priorities om;
           holding_orders := holding_orders om |},
        to_remove ++ [order_id])
  else Ok (om, to_remove).

(** [if order_id in self.pending_requests: del self.pending_requests[order_id]] *)
Definition drop_pending (om : OrderManager) (order_id : string) : OrderManager :=
  {| rm := rm om;
     orders := orders om;
     pending_requests :=
       if contains order_id (pending_requests om)
       then remove order_id (pending_requests om)
       else pending_requests om;
     order_priorities := order_priorities om;
     holding_orders := holding_orders om |}.

Definition process_orders (om : OrderManager) : result OrderManager :=
  '(om', to_remove) <- for_each try_order (sorted_requests om) (om, []) ;;
  Ok (fold_left drop_pending to_remove om').

Definition release_order (order_id : string) (om : OrderManager) : result OrderManager :=
  rm' <- release_resources order_id (rm om) ;;
  Ok {| rm := rm';
        orders :=
          if contains order_id (orders om)
          then remove order_id (orders om) else orders om;
        pending_requests :=
          if contains order_id (pending_requests om)
          then remove order_id (pending_requests om) else pending_requests om;
        order_priorities :=
          if contains order_id (order_priorities om)
          then remove order_id (order_priorities om) else order_priorities om;
        holding_orders := holding_orders om |}.

Definition reschedule_order (order_id : string) (new_priority : Z) (om : OrderManager)
  : OrderManager :=
  if contains order_id (order_priorities om) then
    {| rm := rm om;
       orders := orders om;
       pending_requests := pending_requests om;
       order_priorities := set order_id new_priority (order_priorities om);
       holding_orders := holding_orders om |}
  else om.

Definition cancel_order (order_id : string) (om : OrderManager) : result OrderManager :=
  release_order order_id om.

Definition get_current_requests (om : OrderManager) : dict (dict Z) :=
  pending_requests om.

Definition get_active_orders (om : OrderManager) : dict (dict Z) :=
  orders om.

(** ** Deadlock analyzer ([deadlock_detector.py]) *)

(** Python sets of order ids. *)
Definition set_mem (x : string) (s : list string) : bool :=
  existsb (String.eqb x) s.

Definition set_add (x : string) (s : list string) : list string :=
  if set_mem x s then s else s ++ [x].

Definition set_of_list (xs : list string) : list string :=
  fold_left (fun s x => set_add x s) xs [].

Definition set_union (a b : list string) : list string :=
  fold_left (fun s x => set_add x s) b a.

Definition set_discard (x : string) (s : list string) : list string :=
  filter (fun y => negb (String.eqb x y)) s.

Definition graph : Type := dict (list string).

(** The innermost loop of [build_wait_for_graph]: the holders of [res]
    other than [order_id] become successors of [order_id]. *)
Definition add_holder (order_id res : string) (wfg : graph)
    (entry : string * dict Z) : result graph :=
  let '(holder_id, alloc) := entry in
  if negb (String.eqb holder_id order_id) && (0 <? get_or res alloc 0) then
    waiting <- getitem order_id wfg ;;
    Ok (set order_id (set_add holder_id waiting) wfg)
  else Ok wfg.

Definition add_resource (allocations : dict (dict Z)) (order_id : string)
    (wfg : graph) (item : string * Z) : result graph :=
  let '(res, _) := item in
  for_each (add_holder order_id res) allocations wfg.

Definition add_request (allocations : dict (dict Z)) (wfg : graph)
    (entry : string * dict Z) : result graph :=
  let '(order_id, req) := entry in
  for_each (add_resource allocations order_id) req wfg.

Definition build_wait_for_graph (rm : ResourceManager) (requests : dict (dict Z))
  : result graph :=
  let allocations := allocated_resources rm in
  let all_orders := set_union (set_of_list (keys allocations))
                              (set_of_list (keys requests)) in
  let wfg := fold_left (fun wfg order_id => set order_id [] wfg) all_orders [] in
  for_each (add_request allocations) requests wfg.

(** The variables shared by the calls of [dfs]: the closure variables
    [visited], [stack], [deadlocks], and the list [path] that every
    recursive call receives by reference. *)
Record dfs_state : Type := mkDfs {
  visited : list string;
  stack : list string;
  path : list string;
  deadlocks : list (list string)
}.

(** [path.index(x)] *)
Fixpoint index (x : string) (l : list string) : result nat :=
  match l with
  | [] => Raise ValueError
  | y :: l' => if String.eqb x y then Ok 0%nat else i <- index x l' ;; Ok (S i)
  end.

(** [dfs(node, path)]; [fuel] bounds the depth of the recursion. *)
Fixpoint dfs (fuel : nat) (wfg : graph) (node : string) (st : dfs_state)
  : result (bool * dfs_state) :=
  match fuel with
  | O => Raise OutOfFuel
  | S fuel' =>
      let entered := {| visited := set_add node (visited st);
                        stack := set_add node (stack st);
                        path := path st ++ [node];
                        deadlocks := deadlocks st |} in
      (fix visit (neighbors : list string) (st : dfs_state)
         : result (bool * dfs_state) :=
         match neighbors with
         | [] =>
             Ok (false, {| visited := visited st;
                           stack := set_discard node (stack st);
                           path := removelast (path st);
                           deadlocks := deadlocks st |})
         | neighbor :: rest =>
             if negb (set_mem neighbor (visited st)) then
               '(found, st') <- dfs fuel' wfg neighbor st ;;
               if found then Ok (true, st') else visit rest st'
             else if set_mem neighbor (stack st) then
               cycle_start <- index neighbor (path st) ;;
               Ok (true, {| visited := visited st;
                            stack := stack st;
                            path := path st;
                            deadlocks :=
                              deadlocks st
                              ++ [set_of_list (skipn cycle_start (path st))] |})
             else visit rest st
         end) (get_or node wfg []) entered
  end.

(** The recursion enters a node at most once, so its depth is at most the
    number of nodes named in the graph ([detect_deadlocks_returns]). *)
Definition dfs_fuel (wfg : graph) : nat :=
  S (List.length wfg + fold_right (fun adj n => (List.length adj + n)%nat) 0%nat (values wfg)).

(** One iteration of [for node in wfg: if node not in visited: dfs(node, [])]. *)
Definition dfs_root (wfg : graph) (st : dfs_state) (node : string) : result dfs_state :=
  if negb (set_mem node (visited st)) then
    '(_, st') <- dfs (dfs_fuel wfg) wfg node
                   {| visited := visited st;
                      stack := stack st;
                      path := [];
                      deadlocks := deadlocks st |} ;;
    Ok st'
  else Ok st.

Definition detect_deadlocks (wfg : graph) : result (list (list string)) :=
  st <- for_each (dfs_root wfg) (keys wfg)
          {| visited := []; stack := []; path := []; deadlocks := [] |} ;;
  Ok (deadlocks st).

Definition detect (rm : ResourceManager) (requests : dict (dict Z))
  : result (list (list string)) :=
  wfg <- build_wait_for_graph rm requests ;;
  detect_deadlocks wfg.

(** [{res: need.get(res, 0) - allocation.get(order, {}).get(res, 0) for res in need}] *)
Definition need_res (need held : dict Z) : dict Z :=
  map (fun '(res, _) => (res, get_or res need 0 - get_or res held 0)) need.

(** [all(need_res[res] <= work.get(res, 0) for res in need_res)] *)
Definition can_finish (need held work : dict Z) : bool :=
  forallb (fun '(res, n) => n <=? get_or res work 0) (need_res need held).

(** [for res in allocation.get(order, {}):
       work[res] = work.get(res, 0) + allocation[order].get(res, 0)] *)
Definition release_into (held work : dict Z) : dict Z :=
  fold_left (fun work res => set res (get_or res work 0 + get_or res held 0) work)
            (keys held) work.

(** The loop variables of [bankers_algorithm]. *)
Record bankers_state : Type := mkBankers {
  work : dict Z;
  finish : dict bool;
  progress : bool
}.

(** The body of [for order, need in max_demand.items()]. *)
Definition scan_order (allocation : dict (dict Z)) (st : bankers_state)
    (item : string * dict Z) : result bankers_state :=
  let '(order, need) := item in
  finished <- getitem order (finish st) ;;
  if negb finished then
    let held := get_or order allocation [] in
    if can_finish need held (work st) then
      Ok {| work := release_into held (work st);
            finish := set order true (finish st);
            progress := true |}
    else Ok st
  else Ok st.

(** [while True: ...], with [fuel] bounding the number of rounds. *)
Fixpoint bankers_rounds (fuel : nat) (max_demand allocation : dict (dict Z))
    (work0 : dict Z) (finish0 : dict bool) : result (dict Z * dict bool) :=
  match fuel with
  | O => Raise OutOfFuel
  | S fuel' =>
      st <- for_each (scan_order allocation) max_demand
              {| work := work0; finish := finish0; progress := false |} ;;
      if negb (progress st) then Ok (work st, finish st)
      else bankers_rounds fuel' max_demand allocation (work st) (finish st)
  end.

Definition bankers_algorithm (max_demand allocation : dict (dict Z))
    (available : dict Z) : result bool :=
  let finish0 := map (fun '(order, _) => (order, false)) max_demand in
  '(_, finish') <- bankers_rounds (S (List.length max_demand)) max_demand allocation
                     available finish0 ;;
  Ok (forallb (fun b => b) (values finish')).

(** ** Vocabulary of the specification *)

(** The quantity of resource [r] granted over all orders:
    [sum(alloc.get(r, 0) for alloc in allocated.values())]. *)
Definition held (r : string) (allocated : dict (dict Z)) : Z :=
  fold_right (fun entry acc => get_or r (snd entry) 0 + acc) 0 allocated.

(** [available[r] + sum of allocated[order][r] == total[r]], for every [r]. *)
Definition conserved (l : ResourceManager) : Prop :=
  forall r, get_or r (available_resources l) 0 + held r (allocated_resources l)
            = get_or r (total_resources l) 0.

(** The quantity of [r] over the items of a request. *)
Definition listed (r : string) (request : dict Z) : Z :=
  fold_right (fun item acc => if String.eqb r (fst item) then snd item + acc else acc)
             0 request.

(** Every allocation record is a dict. *)
Definition records_wf (d : dict (dict Z)) : Prop :=
  Forall (fun entry => wf (snd entry)) d.

(** Every resource of [total_resources] has an [available_resources] entry. *)
Definition synced (l : ResourceManager) : Prop :=
  forall r, In r (keys (total_resources l)) -> In r (keys (available_resources l)).

(** The request names only resources the ledger knows, or positive quantities. *)
Definition known_or_positive (request : dict Z) (l : ResourceManager) : Prop :=
  forall res qty, In (res, qty) request ->
    In res (keys (available_resources l)) \/ 0 < qty.

(** The contract of [request_resources]: granted exactly when every
    requested quantity is available, and then the request is subtracted
    from [available] and recorded; refused without any change otherwise. *)
Definition satisfiable (request : dict Z) (l : ResourceManager) : Prop :=
  forall res qty, In (res, qty) request ->
    get_or res (available_resources l) 0 >= qty.

Definition granted (order_id : string) (request : dict Z)
    (l l' : ResourceManager) : Prop :=
  total_resources l' = total_resources l /\
  (forall r, get_or r (available_resources l') 0
             = get_or r (available_resources l) 0 - get_or r request 0) /\
  allocated_resources l' = set order_id request (allocated_resources l).

Definition request_contract (order_id : string) (request : dict Z)
    (l : ResourceManager) : Prop :=
  (satisfiable request l ->
     exists l', request_resources order_id request l = Ok (true, l')
                /\ granted order_id request l l')
  /\ (~ satisfiable request l ->
        request_resources order_id request l = Ok (false, l)).

(** The wait-for graph has an edge from [a] to [b]. *)
Definition edge (wfg : graph) (a b : string) : Prop :=
  exists waiting, get a wfg = Some waiting /\ In b waiting.

(** Order [a] has a pending request for some resource of which another
    order [b] holds a positive quantity. *)
Definition blocked_on (allocations requests : dict (dict Z)) (a b : string) : Prop :=
  a <> b /\
  exists req res qty alloc,
    In (a, req) requests /\ In (res, qty) req /\
    In (b, alloc) allocations /\ 0 < get_or res alloc 0.

(** The nodes named in a graph, keys and successors, and how many of
    them a search has not entered yet. *)
Definition nodes_of (wfg : graph) : list string :=
  keys wfg ++ List.concat (values wfg).

Definition unseen (nodes seen : list string) : nat :=
  List.length (filter (fun n => negb (set_mem n seen)) nodes).

(** The number of orders not yet marked finished. *)
Definition unfinished (finish : dict bool) : nat :=
  List.length (filter (fun entry => negb (snd entry)) finish).

(** A full scan from [work] and [finish] finishes no order: every order of
    [max_demand] is marked, and each unfinished one needs more of some
    resource than [work] has. *)
Definition stuck (max_demand allocation : dict (dict Z)) (work : dict Z)
    (finish : dict bool) : Prop :=
  forall order need, In (order, need) max_demand ->
    exists finished, get order finish = Some finished /\
      (finished = false -> can_finish need (get_or order allocation []) work = false).

(** The priority under which [process_orders] sorts a pending entry. *)
Definition priority_of (om : OrderManager) (entry : string * dict Z) : Z :=
  get_or (fst entry) (order_priorities om) 5.

(** The allocation pass in the words of the specification: the pending
    orders are taken in the given order, the ledger is asked once for each
    request, and the orders it grants are collected. *)
Fixpoint greedy_pass (queue : list (string * dict Z)) (l : ResourceManager)
  : result (list (string * dict Z) * ResourceManager) :=
  match queue with
  | [] => Ok ([], l)
  | (order_id, request) :: queue' =>
      '(ok, l1) <- request_resources order_id request l ;;
      '(granted_orders, l2) <- greedy_pass queue' l1 ;;
      Ok (if ok then (order_id, request) :: granted_orders else granted_orders, l2)
  end.

(** Moving the granted orders: into the allocated map, out of the pending map. *)
Definition move_in (granted_orders : list (string * dict Z)) (d : dict (dict Z))
  : dict (dict Z) :=
  fold_left (fun d entry => set (fst entry) (snd entry) d) granted_orders d.

Definition move_out (granted_orders : list (string * dict Z)) (d : dict (dict Z))
  : dict (dict Z) :=
  fold_left (fun d entry => remove (fst entry) d) granted_orders d.

(** The end-to-end scenario of the specification: one oven, [Order1]
    (priority 1) and [Order2] (priority 2) each asking for it. *)
Definition one_oven : OrderManager :=
  OrderManager_init (ResourceManager_init (Some [("Oven"%string, 1)]) []) [] [].

Definition two_orders : OrderManager :=
  create_order "Order2"%string [("Oven"%string, 1)] 2
    (create_order "Order1"%string [("Oven"%string, 1)] 1 one_oven).

Definition first_served : OrderManager :=
  {| rm := {| total_resources := [("Oven"%string, 1)];
              available_resources := [("Oven"%string, 0)];
              allocated_resources := [("Order1"%string, [("Oven"%string, 1)])] |};
     orders := [("Order1"%string, [("Oven"%string, 1)])];
     pending_requests := [("Order2"%string, [("Oven"%string, 1)])];
     order_priorities := [("Order1"%string, 1); ("Order2"%string, 2)];
     holding_orders := [] |}.

(** ** Runs of the system *)

(** The mutations of the ledger and of the coordinator.  The coordinator
    holds a reference to the ledger, so a ledger mutation is seen through
    [rm]. *)
Inductive operation : Type :=
| RequestResources (order_id : string) (request : dict Z)
| ReleaseResources (order_id : string)
| PreemptResources (order_id : string)
| AddVirtualResources (additions : dict Z)
| CreateOrder (order_id : string) (resource_request : dict Z) (priority : Z)
| ProcessOrders
| ReleaseOrder (order_id : string)
| CancelOrder (order_id : string)
| RescheduleOrder (order_id : string) (new_priority : Z).

Definition with_rm (om : OrderManager) (l : ResourceManager) : OrderManager :=
  {| rm := l;
     orders := orders om;
     pending_requests := pending_requests om;
     order_priorities := order_priorities om;
     holding_orders := holding_orders om |}.

Definition run (op : operation) (om : OrderManager) : result OrderManager :=
  match op with
  | RequestResources order_id request =>
      '(_, l) <- request_resources order_id request (rm om) ;; Ok (with_rm om l)
  | ReleaseResources order_id =>
      l <- release_resources order_id (rm om) ;; Ok (with_rm om l)
  | PreemptResources order_id =>
      l <- preempt_resources order_id (rm om) ;; Ok (with_rm om l)
  | AddVirtualResources additions =>
      Ok (with_rm om (add_virtual_resources additions (rm om)))
  | CreateOrder order_id resource_request priority =>
      Ok (create_order order_id resource_request priority om)
  | ProcessOrders => process_orders om
  | ReleaseOrder order_id => release_order order_id om
  | CancelOrder order_id => cancel_order order_id om
  | RescheduleOrder order_id new_priority =>
      Ok (reschedule_order order_id new_priority om)
  end.

Definition coordinator_operation (op : operation) : Prop :=
  match op with
  | CreateOrder _ _ _ | ProcessOrders | ReleaseOrder _ | CancelOrder _
  | RescheduleOrder _ _ => True
  | _ => False
  end.

(** The states reached from [init] by operations that return, each allowed
    in the state it is applied to. *)
Inductive reachable (allowed : operation -> OrderManager -> Prop)
    (init : OrderManager) : OrderManager -> Prop :=
| reachable_init : reachable allowed init init
| reachable_step (op : operation) (om om' : OrderManager) :
    reachable allowed init om -> allowed op om -> run op om = Ok om' ->
    reachable allowed init om'.

(** The map arguments of an operation are dicts. *)
Definition dict_arguments (op : operation) : Prop :=
  match op with
  | RequestResources _ request => wf request
  | CreateOrder _ resource_request _ => wf resource_request
  | _ => True
  end.

(** No order id is both allocated and pending. *)
Definition exclusive (om : OrderManager) : Prop :=
  forall order_id,
    ~ (contains order_id (orders om) = true
       /\ contains order_id (pending_requests om) = true).

(** [create_order] is applied to an id that is not in the allocated map. *)
Definition fresh_create (op : operation) (om : OrderManager) : Prop :=
  match op with
  | CreateOrder order_id _ _ => contains order_id (orders om) = false
  | _ => True
  end.

(** No request is made for an order id that holds an allocation: neither
    directly, nor by a pass over the pending orders. *)
Definition no_regrant (op : operation) (om : OrderManager) : Prop :=
  match op with
  | RequestResources order_id _ =>
      contains order_id (allocated_resources (rm om)) = false
  | ProcessOrders =>
      forall order_id, In order_id (keys (pending_requests om)) ->
                       contains order_id (allocated_resources (rm om)) = false
  | _ => True
  end.

(** The ledger balances and its allocation map is a dict of dicts. *)
Definition ledger_sound (l : ResourceManager) : Prop :=
  conserved l /\ wf (allocated_resources l) /\ records_wf (allocated_resources l).

Definition system_sound (om : OrderManager) : Prop :=
  ledger_sound (rm om) /\ wf (pending_requests om) /\ records_wf (pending_requests om).

(** The scenarios that break the two invariants. *)
Definition two_ovens : OrderManager :=
  OrderManager_init (ResourceManager_init (Some [("Oven"%string, 2)]) []) [] [].

Definition granted_twice : OrderManager :=
  with_rm two_ovens
    {| total_resources := [("Oven"%string, 2)];
       available_resources := [("Oven"%string, 0)];
       allocated_resources := [("A"%string, [("Oven"%string, 1)])] |}.

Definition created_again : OrderManager :=
  {| rm := {| total_resources := [("Oven"%string, 1)];
              available_resources := [("Oven"%string, 0)];
              allocated_resources := [("Order1"%string, [("Oven"%string, 1)])] |};
     orders := [("Order1"%string, [("Oven"%string, 1)])];
     pending_requests := [("Order1"%string, [("Oven"%string, 1)])];
     order_priorities := [("Order1"%string, 1)];
     holding_orders := [] |}.

(** ** Vocabulary of the further properties *)

(** Every listed quantity is at least 0. *)
Definition nonnegative (request : dict Z) : Prop :=
  forall res qty, In (res, qty) request -> 0 <= qty.

Definition records_nonnegative (d : dict (dict Z)) : Prop :=
  Forall (fun entry => nonnegative (snd entry)) d.

(** No resource is available in negative quantity or beyond its total. *)
Definition within_capacity (l : ResourceManager) : Prop :=
  forall r, 0 <= get_or r (available_resources l) 0 <= get_or r (total_resources l) 0.

(** The quantities an operation passes are at least 0. *)
Definition nonnegative_arguments (op : operation) : Prop :=
  match op with
  | RequestResources _ request => nonnegative request
  | AddVirtualResources additions => nonnegative additions
  | CreateOrder _ resource_request _ => nonnegative resource_request
  | _ => True
  end.

(** The invariant behind [within_capacity]: the ledger balances, nothing is
    available in negative quantity, and no recorded or pending quantity is
    negative. *)
Definition capacity_sound (om : OrderManager) : Prop :=
  system_sound om
  /\ (forall r, 0 <= get_or r (available_resources (rm om)) 0)
  /\ records_nonnegative (allocated_resources (rm om))
  /\ records_nonnegative (pending_requests om).

(** [MainWindow.preempt_resources] ([gui_pyqt.py]), for one selected order:
    [self.resource_manager.preempt_resources(order_id)] and then
    [self.order_manager.release_order(order_id)]. *)
Definition preempt_selected (order_id : string) (om : OrderManager)
  : result OrderManager :=
  l <- preempt_resources order_id (rm om) ;;
  release_order order_id (with_rm om l).

(** Consecutive nodes of a path are joined by edges of the graph. *)
Fixpoint chain (wfg : graph) (p : list string) : Prop :=
  match p with
  | a :: (b :: _) as rest => edge wfg a b /\ chain wfg rest
  | _ => True
  end.

(** A group of orders in which every member waits for a member. *)
Definition knot (wfg : graph) (group : list string) : Prop :=
  group <> [] /\ forall a, In a group -> exists b, In b group /\ edge wfg a b.

(** The work left once the orders of a sequence have finished one after
    the other, and the sequence being feasible: each order can finish with
    the work left by those before it. *)
Definition work_after (allocation : dict (dict Z)) (work0 : dict Z)
    (sequence : list (string * dict Z)) : dict Z :=
  fold_left (fun w entry => release_into (get_or (fst entry) allocation []) w)
            sequence work0.

Fixpoint completes (allocation : dict (dict Z)) (work0 : dict Z)
    (sequence : list (string * dict Z)) : Prop :=
  match sequence with
  | [] => True
  | (order, need) :: rest =>
      can_finish need (get_or order allocation []) work0 = true
      /\ completes allocation (release_into (get_or order allocation []) work0) rest
  end.

(** The loop invariant of [bankers_algorithm]: the orders finished so far,
    in the order in which they were finished. *)
Definition finished_in_order (max_demand allocation : dict (dict Z))
    (available work0 : dict Z) (finish0 : dict bool)
    (done : list (string * dict Z)) : Prop :=
  completes allocation available done
  /\ work0 = work_after allocation available done
  /\ (forall order, In order (keys done) <-> get order finish0 = Some true)
  /\ (forall entry, In entry done -> In entry max_demand)
  /\ NoDup (keys done)
  /\ keys finish0 = keys max_demand.

(** Every listed quantity is positive. *)
Definition positive (request : dict Z) : Prop :=
  forall res qty, In (res, qty) request -> 0 < qty.

Definition records_positive (d : dict (dict Z)) : Prop :=
  Forall (fun entry => positive (snd entry)) d.

(** Orders are created with positive quantities. *)
Definition positive_orders (op : operation) : Prop :=
  match op with
  | CreateOrder _ resource_request _ => positive resource_request
  | _ => True
  end.

(** The names kept consistent by every operation: [total] and [available]
    list the same resources, every allocation record names listed resources,
    and every pending order has a priority. *)
Definition names_sound (om : OrderManager) : Prop :=
  keys (total_resources (rm om)) = keys (available_resources (rm om))
  /\ (forall order_id record res,
        In (order_id, record) (allocated_resources (rm om)) ->
        In res (keys record) -> In res (keys (available_resources (rm om))))
  /\ (forall order_id, In order_id (keys (pending_requests om)) ->
                       In order_id (keys (order_priorities om))).

(** The quantity of [r] released by the orders of a list. *)
Definition released (r : string) (allocation : dict (dict Z)) (orders_done : list string)
  : Z :=
  fold_right (fun order acc => get_or r (get_or order allocation []) 0 + acc)
             0 orders_done.

(** Nodes in the order in which a search left them, latest first: every
    successor of a node was left before it. *)
Fixpoint finished_order (wfg : graph) (fin : list string) : Prop :=
  match fin with
  | [] => True
  | n :: earlier =>
      (forall m, edge wfg n m -> In m earlier) /\ finished_order wfg earlier
  end.

(** The state of a search that has reported nothing: the stack holds
    visited nodes, and the visited nodes off the stack can be listed in
    finishing order. *)
Definition search_sound (wfg : graph) (st : dfs_state) : Prop :=
  incl (stack st) (visited st)
  /\ exists fin,
       finished_order wfg fin
       /\ forall n, In n fin <-> In n (visited st) /\ ~ In n (stack st).

(** [MainWindow.check_safe_state] ([gui_pyqt.py]): the maximum demand of an
    order for a resource is the larger of what it holds and what it requests,
    over the orders and resources named in either map; the state is then
    submitted to [bankers_algorithm]. *)
Definition demand_of (alloc req : dict Z) : dict Z :=
  fold_left (fun d res => set res (Z.max (get_or res alloc 0) (get_or res req 0)) d)
            (set_of_list (keys alloc ++ keys req)) [].

Definition max_demand_of (allocation requests : dict (dict Z)) : dict (dict Z) :=
  fold_left (fun d order_id =>
               set order_id (demand_of (get_or order_id allocation [])
                                       (get_or order_id requests [])) d)
            (set_of_list (keys allocation ++ keys requests)) [].

Definition check_safe_state (om : OrderManager) : result bool :=
  bankers_algorithm
    (max_demand_of (allocated_resources (rm om)) (get_current_requests om))
    (allocated_resources (rm om)) (available_resources (rm om)).

(** The rounds of [bankers_algorithm]: full scans of [max_demand], each
    starting with [progress = False] from the [work] and [finish] left by the
    scan before it, up to the first scan that makes no progress. *)
Inductive scans (max_demand allocation : dict (dict Z))
  : dict Z -> dict bool -> dict Z -> dict bool -> Prop :=
| scans_stop (work0 : dict Z) (finish0 : dict bool) (st : bankers_state) :
    for_each (scan_order allocation) max_demand
      {| work := work0; finish := finish0; progress := false |} = Ok st ->
    progress st = false ->
    scans max_demand allocation work0 finish0 (work st) (finish st)
| scans_again (work0 : dict Z) (finish0 : dict bool) (st : bankers_state)
    (work' : dict Z) (finish' : dict bool) :
    for_each (scan_order allocation) max_demand
      {| work := work0; finish := finish0; progress := false |} = Ok st ->
    progress st = true ->
    scans max_demand allocation (work st) (finish st) work' finish' ->
    scans max_demand allocation work0 finish0 work' finish'.

(** * Properties *)

(** ** Dictionaries *)

Section DictFacts.
Context {V : Type}.
Implicit Types (d : dict V) (k : string) (v : V).

Lemma get_In k d v : get k d = Some v -> In (k, v) d.
Proof.
  induction d as [|[k' v'] d IH]; simpl; [discriminate|].
  destruct (String.eqb_spec k k') as [->|Hne]; intros H.
  - injection H as ->. now left.
  - right. now apply IH.
Qed.

Lemma get_None_iff k d : get k d = None <-> ~ In k (keys d).
Proof.
  induction d as [|[k' v'] d IH]; simpl.
  - tauto.
  - destruct (String.eqb_spec k k') as [->|Hne].
    + split; [discriminate | intros H; exfalso; apply H; now left].
    + rewrite IH. split; intros H.
      * intros [E|HI]; [congruence | tauto].
      * intros HI. apply H. now right.
Qed.

Lemma contains_true_iff k d : contains k d = true <-> In k (keys d).
Proof.
  unfold contains. generalize (get_None_iff k d).
  destruct (get k d); intros [H1 H2]; split; intros H; try discriminate; auto.
  - destruct (in_dec string_dec k (keys d)) as [HI|HN]; auto.
    specialize (H2 HN). discriminate.
  - exfalso. now apply H1.
Qed.

Lemma contains_false_iff k d : contains k d = false <-> ~ In k (keys d).
Proof.
  rewrite <- contains_true_iff. destruct (contains k d); split; intros H;
    try discriminate; try congruence; try reflexivity.
Qed.

Lemma In_get_wf k v d : wf d -> In (k, v) d -> get k d = Some v.
Proof.
  unfold wf. induction d as [|[k' v'] d IH]; simpl; [tauto|].
  intros Hnd [E|HI].
  - injection E as -> ->. now rewrite String.eqb_refl.
  - inversion Hnd as [|? ? Hnot Hnd']; subst.
    destruct (String.eqb_spec k k') as [->|Hne].
    + exfalso. apply Hnot. now apply (in_map fst) in HI.
    + now apply IH.
Qed.

Lemma get_set_eq k v d : get k (set k v d) = Some v.
Proof.
  induction d as [|[k' v'] d IH]; simpl.
  - now rewrite String.eqb_refl.
  - destruct (String.eqb_spec k k') as [->|Hne]; simpl.
    + now rewrite String.eqb_refl.
    + destruct (String.eqb_spec k k'); [contradiction | exact IH].
Qed.

Lemma get_set_neq k k' v d : k <> k' -> get k' (set k v d) = get k' d.
Proof.
  intros Hne. induction d as [|[k0 v0] d IH]; simpl.
  - destruct (String.eqb_spec k' k); [congruence | reflexivity].
  - destruct (String.eqb_spec k k0) as [->|Hne0]; simpl.
    + destruct (String.eqb_spec k' k0); [congruence | reflexivity].
    + now rewrite IH.
Qed.

Lemma get_or_set_eq k v d default : get_or k (set k v d) default = v.
Proof. unfold get_or. now rewrite get_set_eq. Qed.

Lemma get_or_set_neq k k' v d default :
  k <> k' -> get_or k' (set k v d) default = get_or k' d default.
Proof. intros H. unfold get_or. now rewrite get_set_neq. Qed.

Lemma keys_set_known k v d : In k (keys d) -> keys (set k v d) = keys d.
Proof.
  induction d as [|[k' v'] d IH]; simpl; [tauto|].
  intros H. destruct (String.eqb_spec k k') as [->|Hne]; simpl; [reflexivity|].
  f_equal. apply IH. destruct H; congruence.
Qed.

Lemma keys_set_new k v d : ~ In k (keys d) -> keys (set k v d) = keys d ++ [k].
Proof.
  induction d as [|[k' v'] d IH]; simpl; [reflexivity|].
  intros H. destruct (String.eqb_spec k k') as [->|Hne]; simpl.
  - exfalso. apply H. now left.
  - f_equal. apply IH. tauto.
Qed.

Lemma In_keys_set k k' v d : In k' (keys (set k v d)) <-> k' = k \/ In k' (keys d).
Proof.
  destruct (in_dec string_dec k (keys d)) as [HI|HN].
  - rewrite keys_set_known by assumption. split; [tauto|].
    intros [->|H]; assumption.
  - rewrite keys_set_new by assumption. rewrite in_app_iff. simpl.
    split; [intros [H|[H|[]]] | intros [H|H]]; auto.
Qed.

Lemma wf_set k v d : wf d -> wf (set k v d).
Proof.
  unfold wf. intros H. destruct (in_dec string_dec k (keys d)) as [HI|HN].
  - now rewrite keys_set_known.
  - rewrite keys_set_new by assumption.
    apply NoDup_app; auto.
    + constructor; [intros [] | constructor].
    + intros x Hx [<-|[]]. contradiction.
Qed.

Lemma In_set_inv k v d e : In e (set k v d) -> e = (k, v) \/ In e d.
Proof.
  induction d as [|[k' v'] d IH]; simpl.
  - intros [<-|[]]. now left.
  - destruct (String.eqb_spec k k') as [->|Hne]; simpl.
    + intros [<-|H]; auto.
    + intros [<-|H]; auto. destruct (IH H); auto.
Qed.

Lemma Forall_set (P : string * V -> Prop) k v d :
  P (k, v) -> Forall P d -> Forall P (set k v d).
Proof.
  intros Hk Hd. apply Forall_forall. intros e He.
  destruct (In_set_inv _ _ _ _ He) as [->|H]; [assumption|].
  rewrite Forall_forall in Hd. now apply Hd.
Qed.

Lemma get_remove_eq k d : get k (remove k d) = None.
Proof.
  apply get_None_iff. unfold remove, keys. rewrite in_map_iff.
  intros [[k' v'] [E HI]]. simpl in E. subst k'.
  apply filter_In in HI. destruct HI as [_ HI]. simpl in HI.
  now rewrite String.eqb_refl in HI.
Qed.

Lemma get_remove_neq k k' d : k <> k' -> get k' (remove k d) = get k' d.
Proof.
  intros Hne. induction d as [|[k0 v0] d IH]; simpl; [reflexivity|].
  destruct (String.eqb_spec k k0) as [->|Hne0]; simpl.
  - destruct (String.eqb_spec k' k0); [congruence | exact IH].
  - now rewrite IH.
Qed.

Lemma contains_remove_eq k d : contains k (remove k d) = false.
Proof. unfold contains. now rewrite get_remove_eq. Qed.

Lemma contains_remove_neq k k' d :
  k <> k' -> contains k' (remove k d) = contains k' d.
Proof. intros H. unfold contains. now rewrite get_remove_neq. Qed.

Lemma remove_absent k d : contains k d = false -> remove k d = d.
Proof.
  rewrite contains_false_iff. induction d as [|[k0 v0] d IH]; simpl; [reflexivity|].
  intros H. destruct (String.eqb_spec k k0) as [->|Hne]; simpl.
  - exfalso. apply H. now left.
  - f_equal. apply IH. tauto.
Qed.

Lemma wf_remove k d : wf d -> wf (remove k d).
Proof.
  unfold wf, remove, keys. induction d as [|[k0 v0] d IH]; simpl; [auto|].
  intros H. inversion H as [|? ? Hnot Hnd]; subst.
  destruct (negb (String.eqb k k0)); simpl; [|auto].
  constructor; [|auto]. intros HI. apply Hnot.
  rewrite in_map_iff in *. destruct HI as [e [E HI]].
  exists e. split; [assumption|]. now apply filter_In in HI.
Qed.

Lemma Forall_remove (P : string * V -> Prop) k d :
  Forall P d -> Forall P (remove k d).
Proof.
  rewrite !Forall_forall. intros H e He. apply H.
  unfold remove in He. now apply filter_In in He.
Qed.

Lemma nodup_keys_wf d : nodup_keys d = true <-> wf d.
Proof.
  unfold wf. induction d as [|[k v] d IH]; simpl.
  - split; [constructor | reflexivity].
  - rewrite andb_true_iff, negb_true_iff, contains_false_iff, IH.
    split.
    + intros [H1 H2]. now constructor.
    + intros H. inversion H; subst. tauto.
Qed.
End DictFacts.

(** ** The ledger's loops *)

Lemma bind_Ok {A B : Type} (m : result A) (k : A -> result B) (b : B) :
  bind m k = Ok b -> exists a, m = Ok a /\ k a = Ok b.
Proof. destruct m as [a|e]; simpl; [eauto | discriminate]. Qed.

Lemma getitem_known {V : Type} (k : string) (d : dict V) :
  In k (keys d) -> exists v, get k d = Some v /\ getitem k d = Ok v.
Proof.
  intros H. unfold getitem. destruct (get k d) as [v|] eqn:E; [eauto|].
  apply get_None_iff in E. contradiction.
Qed.

Lemma getitem_Ok {V : Type} (k : string) (d : dict V) (v : V) :
  getitem k d = Ok v -> get k d = Some v.
Proof. unfold getitem. destruct (get k d); congruence. Qed.

Lemma listed_wf (r : string) (request : dict Z) :
  wf request -> listed r request = get_or r request 0.
Proof.
  unfold wf, get_or. induction request as [|[res qty] request IH]; simpl; [reflexivity|].
  intros H. inversion H as [|? ? Hnot Hnd]; subst.
  destruct (String.eqb_spec r res) as [->|Hne].
  - rewrite IH by assumption.
    apply get_None_iff in Hnot. rewrite Hnot. lia.
  - now apply IH.
Qed.

(** The loops [available[res] -= qty] and [available[res] += qty] move
    every entry by the listed quantity, and keep the key set. *)
Lemma take_spec (available : dict Z) (res : string) (qty : Z) (available' : dict Z) :
  take available (res, qty) = Ok available' ->
  keys available' = keys available /\
  forall r, get_or r available' 0
            = get_or r available 0 - (if String.eqb r res then qty else 0).
Proof.
  unfold take. intros H. apply bind_Ok in H. destruct H as [cur [Hg H]].
  injection H as <-. apply getitem_Ok in Hg. split.
  - apply keys_set_known. apply contains_true_iff. unfold contains. now rewrite Hg.
  - intros r. destruct (String.eqb_spec r res) as [->|Hne].
    + rewrite get_or_set_eq. unfold get_or. now rewrite Hg.
    + rewrite get_or_set_neq by congruence. lia.
Qed.

Lemma give_spec (available : dict Z) (res : string) (qty : Z) (available' : dict Z) :
  give available (res, qty) = Ok available' ->
  keys available' = keys available /\
  forall r, get_or r available' 0
            = get_or r available 0 + (if String.eqb r res then qty else 0).
Proof.
  unfold give. intros H. apply bind_Ok in H. destruct H as [cur [Hg H]].
  injection H as <-. apply getitem_Ok in Hg. split.
  - apply keys_set_known. apply contains_true_iff. unfold contains. now rewrite Hg.
  - intros r. destruct (String.eqb_spec r res) as [->|Hne].
    + rewrite get_or_set_eq. unfold get_or. now rewrite Hg.
    + rewrite get_or_set_neq by congruence. lia.
Qed.

Lemma for_each_take_spec (request available available' : dict Z) :
  for_each take request available = Ok available' ->
  keys available' = keys available /\
  forall r, get_or r available' 0 = get_or r available 0 - listed r request.
Proof.
  revert available. induction request as [|[res qty] request IH]; simpl; intros available H.
  - injection H as <-. split; [reflexivity | intros; lia].
  - apply bind_Ok in H. destruct H as [mid [Hm H]].
    apply take_spec in Hm. destruct Hm as [Hk Hv].
    apply IH in H. destruct H as [Hk' Hv']. split; [congruence|].
    intros r. rewrite Hv', Hv. destruct (String.eqb r res); lia.
Qed.

Lemma for_each_give_spec (held_by available available' : dict Z) :
  for_each give held_by available = Ok available' ->
  keys available' = keys available /\
  forall r, get_or r available' 0 = get_or r available 0 + listed r held_by.
Proof.
  revert available. induction held_by as [|[res qty] held_by IH]; simpl; intros available H.
  - injection H as <-. split; [reflexivity | intros; lia].
  - apply bind_Ok in H. destruct H as [mid [Hm H]].
    apply give_spec in Hm. destruct Hm as [Hk Hv].
    apply IH in H. destruct H as [Hk' Hv']. split; [congruence|].
    intros r. rewrite Hv', Hv. destruct (String.eqb r res); lia.
Qed.

Lemma for_each_take_returns (request available : dict Z) :
  (forall res, In res (keys request) -> In res (keys available)) ->
  exists available', for_each take request available = Ok available'.
Proof.
  revert available. induction request as [|[res qty] request IH]; simpl; intros available H.
  - eauto.
  - destruct (getitem_known res available) as [cur [Hg Hi]]; [apply H; now left|].
    unfold take at 1. rewrite Hi. simpl.
    apply IH. intros r Hr. rewrite keys_set_known.
    + apply H. now right.
    + apply H. now left.
Qed.

Lemma for_each_give_returns (held_by available : dict Z) :
  (forall res, In res (keys held_by) -> In res (keys available)) ->
  exists available', for_each give held_by available = Ok available'.
Proof.
  revert available. induction held_by as [|[res qty] held_by IH]; simpl; intros available H.
  - eauto.
  - destruct (getitem_known res available) as [cur [Hg Hi]]; [apply H; now left|].
    unfold give at 1. rewrite Hi. simpl.
    apply IH. intros r Hr. rewrite keys_set_known.
    + apply H. now right.
    + apply H. now left.
Qed.

Lemma sync_resources_returns (l : ResourceManager) :
  synced l -> sync_resources l = Ok tt.
Proof.
  unfold synced, sync_resources. intros H.
  assert (G : forall ks, (forall r, In r ks -> In r (keys (total_resources l))) ->
              for_each (fun (_ : unit) res =>
                          _ <- getitem res (total_resources l) ;;
                          _ <- getitem res (available_resources l) ;;
                          Ok tt) ks tt = Ok tt).
  { induction ks as [|k ks IH]; simpl; intros Hks; [reflexivity|].
    destruct (getitem_known k (total_resources l)) as [t [_ Ht]]; [apply Hks; now left|].
    destruct (getitem_known k (available_resources l)) as [a [_ Ha]];
      [apply H, Hks; now left|].
    rewrite Ht, Ha. simpl. apply IH. intros r Hr. apply Hks. now right. }
  apply G. auto.
Qed.

Lemma sync_resources_Ok (l : ResourceManager) (u : unit) :
  sync_resources l = Ok u -> synced l.
Proof.
  unfold synced, sync_resources.
  generalize (keys (total_resources l)) as ks.
  induction ks as [|k ks IH]; simpl; intros H r Hr; [contradiction|].
  apply bind_Ok in H. destruct H as [[] [Hk H]].
  destruct Hr as [<-|Hr]; [|now apply IH].
  apply bind_Ok in Hk. destruct Hk as [t [_ Hk]].
  apply bind_Ok in Hk. destruct Hk as [a [Ha _]].
  apply getitem_Ok in Ha. apply contains_true_iff. unfold contains. now rewrite Ha.
Qed.

Lemma can_allocate_iff (request : dict Z) (l : ResourceManager) :
  _can_allocate request l = true <-> satisfiable request l.
Proof.
  unfold _can_allocate, satisfiable. rewrite forallb_forall. split.
  - intros H res qty HI. specialize (H _ HI). simpl in H.
    apply negb_true_iff, Z.ltb_ge in H. lia.
  - intros H [res qty] HI. apply negb_true_iff, Z.ltb_ge.
    specialize (H _ _ HI). lia.
Qed.

(** What [_allocate] does when it returns. *)
Lemma allocate_Ok (order_id : string) (request : dict Z) (l l' : ResourceManager) :
  _allocate order_id request l = Ok l' ->
  total_resources l' = total_resources l /\
  keys (available_resources l') = keys (available_resources l) /\
  (forall r, get_or r (available_resources l') 0
             = get_or r (available_resources l) 0 - listed r request) /\
  allocated_resources l' = set order_id request (allocated_resources l) /\
  synced l'.
Proof.
  unfold _allocate. intros H.
  apply bind_Ok in H. destruct H as [available [Ha H]].
  apply bind_Ok in H. destruct H as [u [Hs H]].
  injection H as <-. apply for_each_take_spec in Ha. destruct Ha as [Hk Hv].
  apply sync_resources_Ok in Hs. simpl. auto.
Qed.

Lemma allocate_returns (order_id : string) (request : dict Z) (l : ResourceManager) :
  synced l ->
  (forall res, In res (keys request) -> In res (keys (available_resources l))) ->
  exists l', _allocate order_id request l = Ok l'.
Proof.
  intros Hs Hk. unfold _allocate.
  destruct (for_each_take_returns request (available_resources l) Hk) as [available Ha].
  rewrite Ha. simpl. rewrite sync_resources_returns; simpl; [eauto|].
  apply for_each_take_spec in Ha. destruct Ha as [Hkeys _].
  intros r Hr. simpl in *. rewrite Hkeys. now apply Hs.
Qed.

(** What [release_resources] does for an order that holds an allocation. *)
Lemma release_Ok (order_id : string) (held_by : dict Z) (l l' : ResourceManager) :
  get order_id (allocated_resources l) = Some held_by ->
  release_resources order_id l = Ok l' ->
  total_resources l' = total_resources l /\
  keys (available_resources l') = keys (available_resources l) /\
  (forall r, get_or r (available_resources l') 0
             = get_or r (available_resources l) 0 + listed r held_by) /\
  allocated_resources l' = remove order_id (allocated_resources l) /\
  synced l'.
Proof.
  intros Hg. unfold release_resources, contains, getitem. rewrite Hg. simpl. intros H.
  apply bind_Ok in H. destruct H as [available [Ha H]].
  apply bind_Ok in H. destruct H as [u [Hs H]].
  injection H as <-. apply for_each_give_spec in Ha. destruct Ha as [Hk Hv].
  apply sync_resources_Ok in Hs. simpl. auto.
Qed.

Lemma release_absent (order_id : string) (l : ResourceManager) :
  contains order_id (allocated_resources l) = false ->
  release_resources order_id l = Ok l.
Proof. intros H. unfold release_resources. now rewrite H. Qed.

Lemma get_or_nil {V : Type} (k : string) (default : V) : get_or k [] default = default.
Proof. reflexivity. Qed.

Lemma get_or_cons {V : Type} (k k' : string) (v default : V) (d : dict V) :
  get_or k ((k', v) :: d) default = if String.eqb k k' then v else get_or k d default.
Proof. unfold get_or. simpl. now destruct (String.eqb k k'). Qed.

Lemma held_set (r order_id : string) (request : dict Z) (allocated : dict (dict Z)) :
  held r (set order_id request allocated)
  = held r allocated - get_or r (get_or order_id allocated []) 0 + get_or r request 0.
Proof.
  induction allocated as [|[o a] allocated IH].
  - simpl. lia.
  - rewrite get_or_cons. simpl.
    destruct (String.eqb_spec order_id o) as [->|Hne]; simpl.
    + lia.
    + rewrite IH. lia.
Qed.

Lemma held_remove (r order_id : string) (allocated : dict (dict Z)) :
  wf allocated ->
  held r (remove order_id allocated)
  = held r allocated - get_or r (get_or order_id allocated []) 0.
Proof.
  unfold wf. induction allocated as [|[o a] allocated IH]; intros Hnd.
  - simpl. lia.
  - inversion Hnd as [|? ? Hnot Hnd']; subst.
    rewrite get_or_cons. simpl.
    destruct (String.eqb_spec order_id o) as [->|Hne]; simpl.
    + fold (remove o allocated). rewrite remove_absent; [lia|].
      now apply contains_false_iff.
    + fold (remove order_id allocated). rewrite IH by assumption. lia.
Qed.

(** ** The contract of [request_resources] *)

(** X27: on a ledger in which every resource of [total] has an [available]
    entry, for a request that names only resources [available] lists or
    positive quantities, [request_resources] returns [True], subtracts each
    requested quantity from [available] and records the request as the order's
    allocation exactly when every requested quantity is at most
    [available.get(r, 0)]; otherwise it returns [False] and leaves the ledger
    unchanged. *)
Theorem request_resources_contract (order_id : string) (request : dict Z)
    (l : ResourceManager) :
  wf request -> synced l -> known_or_positive request l ->
  request_contract order_id request l.
Proof.
  intros Hwf Hs Hk. unfold request_contract, request_resources. split.
  - intros Hsat. rewrite (proj2 (can_allocate_iff request l) Hsat).
    assert (Hall : forall res, In res (keys request) ->
                               In res (keys (available_resources l))).
    { intros res Hres. unfold keys in Hres. rewrite in_map_iff in Hres.
      destruct Hres as [[res' qty] [E HI]]. simpl in E. subst res'.
      destruct (Hk _ _ HI) as [Hin|Hpos]; [assumption|].
      specialize (Hsat _ _ HI). unfold get_or in Hsat.
      destruct (get res (available_resources l)) as [a|] eqn:E.
      - apply contains_true_iff. unfold contains. now rewrite E.
      - lia. }
    destruct (allocate_returns order_id request l Hs Hall) as [l' Hl'].
    rewrite Hl'. simpl. exists l'. split; [reflexivity|].
    apply allocate_Ok in Hl'. destruct Hl' as (Ht & _ & Hv & Ha & _).
    repeat split; auto. intros r. rewrite Hv. now rewrite listed_wf.
  - intros Hn. destruct (_can_allocate request l) eqn:E; [|reflexivity].
    exfalso. apply Hn. now apply can_allocate_iff.
Qed.

Lemma request_resources_contract_witness :
  request_contract "A"%string [("Oven"%string, 1)]
    (ResourceManager_init (Some [("Oven"%string, 1); ("Chef"%string, 2)]) []).
Proof.
  apply request_resources_contract.
  - apply nodup_keys_wf. reflexivity.
  - intros r H. exact H.
  - intros res qty [E|[]]. injection E as <- <-. right. lia.
Defined.

(** C5: the contract is broken at a request of quantity 0 for a resource
    the ledger does not know. [_can_allocate] reads [available.get(res, 0)]
    and accepts the request, [_allocate] then indexes [available[res]] and
    raises [KeyError]: the call returns neither [True] nor [False]. When
    the request also names a known resource, as in [{Oven: 1, Ghost: 0}], the
    loop of [_allocate] has already taken the oven from [available] when it
    raises, and no allocation is recorded for it. *)
Theorem request_resources_unknown_zero :
  _can_allocate [("Ghost"%string, 0)]
    (ResourceManager_init (Some [("Oven"%string, 1)]) []) = true
  /\ request_resources "A"%string [("Ghost"%string, 0)]
       (ResourceManager_init (Some [("Oven"%string, 1)]) [])
     = Raise KeyError
  /\ ~ request_contract "A"%string [("Ghost"%string, 0)]
        (ResourceManager_init (Some [("Oven"%string, 1)]) [])
  /\ _can_allocate [("Oven"%string, 1); ("Ghost"%string, 0)]
       (ResourceManager_init (Some [("Oven"%string, 1)]) []) = true
  /\ take (available_resources (ResourceManager_init (Some [("Oven"%string, 1)]) []))
          ("Oven"%string, 1)
     = Ok [("Oven"%string, 0)]
  /\ take [("Oven"%string, 0)] ("Ghost"%string, 0) = Raise KeyError
  /\ request_resources "A"%string [("Oven"%string, 1); ("Ghost"%string, 0)]
       (ResourceManager_init (Some [("Oven"%string, 1)]) [])
     = Raise KeyError.
Proof.
  repeat split; try reflexivity.
  intros [H _]. destruct H as [l' [H _]].
  - intros res qty [E|[]]. injection E as <- <-. vm_compute. discriminate.
  - vm_compute in H. discriminate.
Qed.

(** ** Preemption *)

(** C9: for every order id and ledger state, [preempt_resources] gives the
    same result (available counts, allocation records, or the same exception)
    as [release_resources]. *)
Theorem preempt_is_release (order_id : string) (l : ResourceManager) :
  preempt_resources order_id l = release_resources order_id l.
Proof.
  unfold preempt_resources, release_resources.
  destruct (contains order_id (allocated_resources l)); reflexivity.
Qed.

Lemma preempt_Ok (order_id : string) (l l' : ResourceManager) :
  preempt_resources order_id l = Ok l' -> release_resources order_id l = Ok l'.
Proof. intros H. exact H. Qed.

(** ** Granting to an order that already holds an allocation *)

(** C10: when [request_resources] succeeds for an order id that already
    holds an allocation [old], the record of that order becomes the new
    request, [available] is decremented by the new request only, and the
    quantities of [old] are not returned: the sum of [available] and all
    recorded allocations drops by [old]. *)
Theorem regrant_loses_old_holdings (order_id : string) (request old : dict Z)
    (l l' : ResourceManager) :
  wf request ->
  get order_id (allocated_resources l) = Some old ->
  request_resources order_id request l = Ok (true, l') ->
  get order_id (allocated_resources l') = Some request /\
  total_resources l' = total_resources l /\
  (forall r, get_or r (available_resources l') 0
             = get_or r (available_resources l) 0 - get_or r request 0) /\
  (forall r, get_or r (available_resources l') 0 + held r (allocated_resources l')
             = get_or r (available_resources l) 0 + held r (allocated_resources l)
               - get_or r old 0).
Proof.
  intros Hwf Hold H. unfold request_resources in H.
  destruct (_can_allocate request l); [|discriminate].
  apply bind_Ok in H. destruct H as [l1 [Ha H]]. injection H as <-.
  apply allocate_Ok in Ha. destruct Ha as (Ht & _ & Hv & Hal & _).
  assert (Hv' : forall r, get_or r (available_resources l1) 0
                          = get_or r (available_resources l) 0 - get_or r request 0).
  { intros r. rewrite Hv. now rewrite listed_wf. }
  repeat split; auto.
  - rewrite Hal. apply get_set_eq.
  - intros r. rewrite Hv', Hal, held_set.
    replace (get_or order_id (allocated_resources l) []) with old
      by (unfold get_or; now rewrite Hold).
    lia.
Qed.

Lemma regrant_loses_old_holdings_witness :
  exists l',
    request_resources "A"%string [("Oven"%string, 1)]
      (mkRM [("Oven"%string, 2)] [("Oven"%string, 1)]
            [("A"%string, [("Oven"%string, 1)])]) = Ok (true, l')
    /\ get_or "Oven"%string (available_resources l') 0
       + held "Oven"%string (allocated_resources l') = 1.
Proof.
  eexists. split; [vm_compute; reflexivity|].
  pose proof (regrant_loses_old_holdings "A"%string [("Oven"%string, 1)]
                [("Oven"%string, 1)]
                (mkRM [("Oven"%string, 2)] [("Oven"%string, 1)]
                      [("A"%string, [("Oven"%string, 1)])])
                _
                ltac:(apply nodup_keys_wf; reflexivity)
                ltac:(reflexivity)
                ltac:(vm_compute; reflexivity)) as (_ & _ & _ & H).
  rewrite (H "Oven"%string). vm_compute. reflexivity.
Defined.

(** ** Releasing twice *)

Lemma release_order_Ok (order_id : string) (om om1 : OrderManager) :
  release_order order_id om = Ok om1 ->
  contains order_id (allocated_resources (rm om1)) = false /\
  contains order_id (orders om1) = false /\
  contains order_id (pending_requests om1) = false /\
  contains order_id (order_priorities om1) = false.
Proof.
  unfold release_order. intros H. apply bind_Ok in H. destruct H as [l' [Hr H]].
  injection H as <-. simpl. repeat split.
  - destruct (get order_id (allocated_resources (rm om))) as [held_by|] eqn:E.
    + apply (release_Ok _ _ _ _ E) in Hr. destruct Hr as (_ & _ & _ & Ha & _).
      rewrite Ha. apply contains_remove_eq.
    + assert (Hc : contains order_id (allocated_resources (rm om)) = false)
        by (unfold contains; now rewrite E).
      rewrite (release_absent _ _ Hc) in Hr. injection Hr as <-. exact Hc.
  - destruct (contains order_id (orders om)) eqn:E;
      [apply contains_remove_eq | exact E].
  - destruct (contains order_id (pending_requests om)) eqn:E;
      [apply contains_remove_eq | exact E].
  - destruct (contains order_id (order_priorities om)) eqn:E;
      [apply contains_remove_eq | exact E].
Qed.

(** X14: In a ledger whose allocation records name known resources,
    [release_order] returns. *)
Lemma release_order_returns (order_id : string) (om : OrderManager) :
  synced (rm om) ->
  (forall held_by res,
     get order_id (allocated_resources (rm om)) = Some held_by ->
     In res (keys held_by) -> In res (keys (available_resources (rm om)))) ->
  exists om1, release_order order_id om = Ok om1.
Proof.
  intros Hs Hk. unfold release_order, release_resources, contains, getitem.
  destruct (get order_id (allocated_resources (rm om))) as [held_by|] eqn:E;
    cbn [bind]; [|eauto].
  destruct (for_each_give_returns held_by (available_resources (rm om)))
    as [available Ha]; [intros res Hres; now apply (Hk held_by)|].
  rewrite Ha. cbn [bind]. rewrite sync_resources_returns; cbn [bind]; [eauto|].
  apply for_each_give_spec in Ha. destruct Ha as [Hkeys _].
  intros r Hr. simpl in *. rewrite Hkeys. now apply Hs.
Qed.

(** C8: once [release_order] has returned for an order id, calling it again
    on the same id returns and leaves the whole state unchanged; and
    [release_resources] on an order that holds no allocation returns the
    ledger unchanged. *)
Theorem release_order_twice (order_id : string) (om om1 : OrderManager)
    (l : ResourceManager) :
  release_order order_id om = Ok om1 ->
  contains order_id (allocated_resources l) = false ->
  release_order order_id om1 = Ok om1 /\ release_resources order_id l = Ok l.
Proof.
  intros H Hl. split; [|now apply release_absent].
  apply release_order_Ok in H. destruct H as (Ha & Ho & Hp & Hq).
  unfold release_order. rewrite (release_absent _ _ Ha). simpl.
  rewrite Ho, Hp, Hq. now destruct om1.
Qed.

Lemma release_order_twice_witness :
  let om := mkOM (mkRM [("Oven"%string, 1)] [("Oven"%string, 0)]
                       [("Order1"%string, [("Oven"%string, 1)])])
                 [("Order1"%string, [("Oven"%string, 1)])] []
                 [("Order1"%string, 1)] [] in
  let om1 := mkOM (mkRM [("Oven"%string, 1)] [("Oven"%string, 1)] []) [] [] [] [] in
  release_order "Order1"%string om1 = Ok om1
  /\ release_resources "Order1"%string (rm om1) = Ok (rm om1).
Proof.
  intros om om1.
  apply (release_order_twice "Order1"%string om om1 (rm om1)); reflexivity.
Defined.

(** ** Wait-for graph construction *)

Lemma set_mem_iff (x : string) (s : list string) : set_mem x s = true <-> In x s.
Proof.
  unfold set_mem. rewrite existsb_exists. split.
  - intros [y [Hy E]]. apply String.eqb_eq in E. now subst.
  - intros H. exists x. split; [assumption | apply String.eqb_refl].
Qed.

Lemma In_set_add (x y : string) (s : list string) :
  In y (set_add x s) <-> y = x \/ In y s.
Proof.
  unfold set_add. destruct (set_mem x s) eqn:E.
  - apply set_mem_iff in E. split; [tauto | intros [->|H]; assumption].
  - rewrite in_app_iff. simpl. split; [intros [H|[H|[]]] | intros [H|H]]; auto.
Qed.

Lemma In_set_union (x : string) (a b : list string) :
  In x (set_union a b) <-> In x a \/ In x b.
Proof.
  unfold set_union. revert a. induction b as [|y b IH]; simpl; intros a.
  - tauto.
  - rewrite IH, In_set_add. split; [intros [[->|H]|H] | intros [H|[->|H]]]; auto.
Qed.

Lemma In_set_of_list (x : string) (xs : list string) :
  In x (set_of_list xs) <-> In x xs.
Proof.
  unfold set_of_list. change (In x (set_union [] xs) <-> In x xs).
  rewrite In_set_union. simpl. tauto.
Qed.

(** The graph before the edges are added: one node per order, no edge. *)
Lemma empty_graph_spec (nodes : list string) (wfg : graph) :
  (forall a, ~ (exists b, edge wfg a b)) ->
  let wfg' := fold_left (fun wfg order_id => set order_id [] wfg) nodes wfg in
  (forall n, In n (keys wfg') <-> In n (keys wfg) \/ In n nodes) /\
  (forall a b, ~ edge wfg' a b).
Proof.
  revert wfg. induction nodes as [|n nodes IH]; simpl; intros wfg Hno.
  - split; [intros m; simpl; tauto | intros a b H; apply (Hno a); eauto].
  - destruct (IH (set n [] wfg)) as [Hk He].
    + intros a [b [waiting [Hg Hb]]].
      destruct (string_dec n a) as [->|Hne].
      * rewrite get_set_eq in Hg. injection Hg as <-. contradiction.
      * rewrite get_set_neq in Hg by assumption. apply (Hno a). exists b, waiting. auto.
    + split; [|exact He]. intros m. rewrite Hk, In_keys_set.
      intuition (subst; auto).
Qed.

(** A loop whose body adds edges, and keeps the nodes, adds the edges of
    all its iterations. *)
Lemma for_each_edges {A : Type} (body : graph -> A -> result graph)
    (new : A -> string -> string -> Prop) (nodes : list string) (xs : list A) :
  (forall x g, In x xs -> keys g = nodes ->
     exists g', body g x = Ok g' /\ keys g' = nodes /\
                forall a b, edge g' a b <-> edge g a b \/ new x a b) ->
  forall g, keys g = nodes ->
    exists g', for_each body xs g = Ok g' /\ keys g' = nodes /\
               forall a b, edge g' a b <-> edge g a b \/ exists x, In x xs /\ new x a b.
Proof.
  induction xs as [|x xs IH]; simpl; intros Hbody g Hg.
  - exists g. repeat split; auto. intros [H|[x [[] _]]]. exact H.
  - destruct (Hbody x g (or_introl eq_refl) Hg) as [g1 [H1 [Hk1 He1]]].
    rewrite H1. simpl.
    destruct (IH (fun y g Hy => Hbody y g (or_intror Hy)) g1 Hk1) as [g2 [H2 [Hk2 He2]]].
    exists g2. repeat split; auto.
    + intros H. apply He2 in H. destruct H as [H|[y [Hy Hn]]].
      * apply He1 in H. destruct H as [H|H]; [now left | right; exists x; auto].
      * right. exists y. auto.
    + intros [H|[y [[<-|Hy] Hn]]]; apply He2.
      * left. apply He1. now left.
      * left. apply He1. now right.
      * right. exists y. auto.
Qed.

Lemma add_holder_spec (order_id res holder_id : string) (alloc : dict Z) (g : graph) :
  In order_id (keys g) ->
  exists g', add_holder order_id res g (holder_id, alloc) = Ok g' /\
             keys g' = keys g /\
             forall a b, edge g' a b <->
               edge g a b \/
               (a = order_id /\ b = holder_id /\ a <> b /\ 0 < get_or res alloc 0).
Proof.
  intros Hin. unfold add_holder.
  destruct (negb (String.eqb holder_id order_id) && (0 <? get_or res alloc 0)) eqn:E.
  - apply andb_true_iff in E. destruct E as [E1 E2].
    apply negb_true_iff, String.eqb_neq in E1. apply Z.ltb_lt in E2.
    destruct (getitem_known order_id g Hin) as [waiting [Hg Hi]].
    rewrite Hi. simpl. eexists. split; [reflexivity|]. split.
    + now apply keys_set_known.
    + intros a b. unfold edge. destruct (string_dec order_id a) as [<-|Hne].
      * rewrite get_set_eq, Hg. split.
        -- intros [w [Hw Hb]]. injection Hw as <-. apply In_set_add in Hb.
           destruct Hb as [->|Hb]; [right; auto | left; eauto].
        -- intros [[w [Hw Hb]]|(_ & -> & _)]; eexists; split; try reflexivity;
             apply In_set_add; [right; congruence | now left].
      * rewrite get_set_neq by assumption. split; [tauto|].
        intros [H|(-> & _)]; [assumption | contradiction].
  - exists g. repeat split; auto. intros [H|(-> & -> & Hne & Hpos)]; [assumption|].
    apply andb_false_iff in E. destruct E as [E|E].
    + apply negb_false_iff, String.eqb_eq in E. congruence.
    + apply Z.ltb_ge in E. lia.
Qed.

Lemma add_resource_spec (allocations : dict (dict Z)) (order_id res : string)
    (qty : Z) (g : graph) :
  In order_id (keys g) ->
  exists g', add_resource allocations order_id g (res, qty) = Ok g' /\
             keys g' = keys g /\
             forall a b, edge g' a b <->
               edge g a b \/
               (a = order_id /\ a <> b /\
                exists alloc, In (b, alloc) allocations /\ 0 < get_or res alloc 0).
Proof.
  intros Hin. unfold add_resource.
  destruct (for_each_edges (add_holder order_id res)
              (fun entry a b => a = order_id /\ b = fst entry /\ a <> b
                                /\ 0 < get_or res (snd entry) 0)
              (keys g) allocations) with (g := g) as [g' [H [Hk He]]]; auto.
  - intros [holder_id alloc] g1 _ Hk1.
    destruct (add_holder_spec order_id res holder_id alloc g1) as [g2 [H2 [Hk2 He2]]].
    + now rewrite Hk1.
    + exists g2. repeat split; try congruence; apply He2.
  - exists g'. repeat split; auto.
    + intros Hab. apply He in Hab.
      destruct Hab as [Hab|[[h alloc] [HI (-> & -> & Hne & Hpos)]]]; [now left|].
      right. repeat split; auto. exists alloc. auto.
    + intros [Hab|(-> & Hne & alloc & HI & Hpos)]; apply He; [now left|].
      right. exists (b, alloc). auto.
Qed.

Lemma add_request_spec (allocations : dict (dict Z)) (order_id : string)
    (req : dict Z) (g : graph) :
  In order_id (keys g) ->
  exists g', add_request allocations g (order_id, req) = Ok g' /\
             keys g' = keys g /\
             forall a b, edge g' a b <->
               edge g a b \/
               (a = order_id /\ a <> b /\
                exists res qty alloc,
                  In (res, qty) req /\ In (b, alloc) allocations
                  /\ 0 < get_or res alloc 0).
Proof.
  intros Hin. unfold add_request.
  destruct (for_each_edges (add_resource allocations order_id)
              (fun item a b =>
                 a = order_id /\ a <> b /\
                 exists alloc, In (b, alloc) allocations
                               /\ 0 < get_or (fst item) alloc 0)
              (keys g) req) with (g := g) as [g' [H [Hk He]]]; auto.
  - intros [res qty] g1 _ Hk1.
    destruct (add_resource_spec allocations order_id res qty g1) as [g2 [H2 [Hk2 He2]]].
    + now rewrite Hk1.
    + exists g2. repeat split; try congruence; apply He2.
  - exists g'. repeat split; auto.
    + intros Hab. apply He in Hab.
      destruct Hab as [Hab|[[res qty] [HI (-> & Hne & alloc & Ha & Hpos)]]]; [now left|].
      right. repeat split; auto. exists res, qty, alloc. auto.
    + intros [Hab|(-> & Hne & res & qty & alloc & HI & Ha & Hpos)]; apply He; [now left|].
      right. exists (res, qty). repeat split; auto. exists alloc. auto.
Qed.

(** C2: for every allocation map and request map, [build_wait_for_graph]
    returns a graph whose nodes are exactly the holder ids and the requester
    ids, with an edge from [a] to [b] exactly when [a] requests some resource
    of which [b] holds a positive quantity and [a] is not [b]. *)
Theorem build_wait_for_graph_spec (l : ResourceManager) (requests : dict (dict Z)) :
  exists wfg,
    build_wait_for_graph l requests = Ok wfg /\
    (forall n, In n (keys wfg)
               <-> In n (keys (allocated_resources l)) \/ In n (keys requests)) /\
    (forall a b, edge wfg a b <-> blocked_on (allocated_resources l) requests a b).
Proof.
  unfold build_wait_for_graph.
  set (allocations := allocated_resources l).
  set (all_orders := set_union (set_of_list (keys allocations))
                               (set_of_list (keys requests))).
  destruct (empty_graph_spec all_orders []) as [Hnodes Hnone].
  { intros a [b [waiting [Hg _]]]. discriminate. }
  set (g0 := fold_left (fun wfg order_id => set order_id [] wfg) all_orders []) in *.
  assert (Hall : forall n, In n (keys g0)
                           <-> In n (keys allocations) \/ In n (keys requests)).
  { intros n. rewrite Hnodes. unfold all_orders.
    rewrite In_set_union, !In_set_of_list. simpl. tauto. }
  destruct (for_each_edges (add_request allocations)
              (fun entry a b =>
                 a = fst entry /\ a <> b /\
                 exists res qty alloc,
                   In (res, qty) (snd entry) /\ In (b, alloc) allocations
                   /\ 0 < get_or res alloc 0)
              (keys g0) requests) with (g := g0) as [g' [H [Hk He]]]; auto.
  - intros [order_id req] g1 HI Hk1.
    destruct (add_request_spec allocations order_id req g1) as [g2 [H2 [Hk2 He2]]].
    + rewrite Hk1. apply Hall. right. now apply (in_map fst) in HI.
    + exists g2. repeat split; try congruence; apply He2.
  - exists g'. split; [exact H|]. split.
    + intros n. rewrite Hk. apply Hall.
    + intros a b. rewrite He. unfold blocked_on. split.
      * intros [Hab|[[order_id req] [HI (-> & Hne & res & qty & alloc & Hr & Ha & Hpos)]]].
        -- now apply Hnone in Hab.
        -- split; [assumption|]. exists req, res, qty, alloc. auto.
      * intros (Hne & req & res & qty & alloc & HI & Hr & Ha & Hpos).
        right. exists (a, req). repeat split; auto. exists res, qty, alloc. auto.
Qed.

(** ** The depth of the search *)

Lemma unseen_incl (nodes seen seen' : list string) :
  incl seen seen' -> (unseen nodes seen' <= unseen nodes seen)%nat.
Proof.
  intros Hincl. unfold unseen. induction nodes as [|n nodes IH]; simpl; [lia|].
  destruct (set_mem n seen') eqn:E'; destruct (set_mem n seen) eqn:E; simpl; try lia.
  apply set_mem_iff in E. apply Hincl in E. apply set_mem_iff in E. congruence.
Qed.

Lemma unseen_enter (nodes seen : list string) (n : string) :
  In n nodes -> set_mem n seen = false ->
  (unseen nodes (set_add n seen) < unseen nodes seen)%nat.
Proof.
  intros Hin Hn. unfold unseen. induction nodes as [|m nodes IH]; [contradiction|].
  assert (Hle : (List.length (filter (fun x => negb (set_mem x (set_add n seen))) nodes)
                 <= List.length (filter (fun x => negb (set_mem x seen)) nodes))%nat).
  { apply (unseen_incl nodes seen (set_add n seen)).
    intros x Hx. apply In_set_add. now right. }
  simpl. destruct Hin as [->|Hin].
  - rewrite Hn. simpl.
    replace (set_mem n (set_add n seen)) with true; [simpl; lia|].
    symmetry. apply set_mem_iff, In_set_add. now left.
  - specialize (IH Hin).
    destruct (set_mem m (set_add n seen)) eqn:E'; destruct (set_mem m seen) eqn:E;
      simpl; try lia.
    apply set_mem_iff in E. assert (In m (set_add n seen)) by (apply In_set_add; auto).
    apply set_mem_iff in H. congruence.
Qed.

Lemma unseen_length (nodes seen : list string) :
  (unseen nodes seen <= List.length nodes)%nat.
Proof. unfold unseen. apply filter_length_le. Qed.

Lemma successors_named (wfg : graph) (node n : string) :
  In n (get_or node wfg []) -> In n (nodes_of wfg).
Proof.
  unfold get_or, nodes_of. destruct (get node wfg) as [adj|] eqn:E; [|intros []].
  intros Hn. apply in_or_app. right. apply in_concat. exists adj. split; [|exact Hn].
  apply get_In in E. unfold values. apply in_map_iff. exists (node, adj). auto.
Qed.

(** With as much fuel as nodes not yet entered, [dfs] returns or raises
    [ValueError]; it only adds to [visited]. *)
Lemma dfs_returns (wfg : graph) (fuel : nat) :
  forall (node : string) (st : dfs_state),
    In node (nodes_of wfg) ->
    set_mem node (visited st) = false ->
    (unseen (nodes_of wfg) (visited st) <= fuel)%nat ->
    (exists found st', dfs fuel wfg node st = Ok (found, st')
                       /\ incl (visited st) (visited st'))
    \/ dfs fuel wfg node st = Raise ValueError.
Proof.
  induction fuel as [|fuel IH]; intros node st Hnode Hnew Hfuel.
  - pose proof (unseen_enter _ _ _ Hnode Hnew). lia.
  - cbn [dfs].
    set (entered := {| visited := set_add node (visited st);
                       stack := set_add node (stack st);
                       path := path st ++ [node];
                       deadlocks := deadlocks st |}).
    assert (Hent : incl (visited st) (visited entered)).
    { intros x Hx. simpl. apply In_set_add. now right. }
    assert (Hfuel' : (unseen (nodes_of wfg) (visited entered) <= fuel)%nat).
    { pose proof (unseen_enter _ _ _ Hnode Hnew). simpl. lia. }
    pose proof (successors_named wfg node) as Hsucc.
    revert Hsucc Hent Hfuel'.
    generalize entered as cur. generalize (get_or node wfg []) as neighbors.
    induction neighbors as [|neighbor rest IHn]; intros cur Hsucc Hent Hfuel'.
    + left. eexists _, _. split; [reflexivity | exact Hent].
    + destruct (set_mem neighbor (visited cur)) eqn:Hv; cbn [negb].
      * destruct (set_mem neighbor (stack cur)).
        -- destruct (index neighbor (path cur)) as [i|e] eqn:Hi; cbn [bind].
           ++ left. eexists _, _. split; [reflexivity | exact Hent].
           ++ right. clear - Hi. revert e Hi.
              induction (path cur) as [|y p IHp]; simpl; intros e Hi; [congruence|].
              destruct (String.eqb neighbor y); [discriminate|].
              destruct (index neighbor p) as [j|e'] eqn:Hj; simpl in Hi; [discriminate|].
              injection Hi as <-. now apply IHp.
        -- apply IHn; auto. intros n Hn. apply Hsucc. now right.
      * destruct (IH neighbor cur) as [[found [st1 [H1 Hinc]]]|H1]; auto.
        -- apply Hsucc. now left.
        -- rewrite H1. cbn [bind]. destruct found.
           ++ left. eexists _, _. split; [reflexivity|].
              intros x Hx. apply Hinc, Hent, Hx.
           ++ apply IHn.
              ** intros n Hn. apply Hsucc. now right.
              ** intros x Hx. apply Hinc, Hent, Hx.
              ** pose proof (unseen_incl (nodes_of wfg) _ _ Hinc). lia.
        -- rewrite H1. now right.
Qed.

Lemma dfs_fuel_nodes (wfg : graph) : S (List.length (nodes_of wfg)) = dfs_fuel wfg.
Proof.
  unfold nodes_of, dfs_fuel, keys. rewrite length_app, length_map. do 2 f_equal.
  generalize (values wfg) as vs.
  induction vs as [|a vs IHv]; simpl; [reflexivity|].
  rewrite length_app. now rewrite IHv.
Qed.

(** [detect_deadlocks] never runs out of fuel. *)
Lemma detect_deadlocks_returns (wfg : graph) :
  (exists cycles, detect_deadlocks wfg = Ok cycles)
  \/ detect_deadlocks wfg = Raise ValueError.
Proof.
  unfold detect_deadlocks.
  assert (G : forall (roots : list string) (st : dfs_state),
             (forall n, In n roots -> In n (nodes_of wfg)) ->
             (exists st', for_each (dfs_root wfg) roots st = Ok st')
             \/ for_each (dfs_root wfg) roots st = Raise ValueError).
  { induction roots as [|root roots IHr]; cbn [for_each]; intros st Hroots; [eauto|].
    unfold dfs_root at 1 3. destruct (set_mem root (visited st)) eqn:Hv; cbn [negb bind].
    - apply IHr. intros n Hn. apply Hroots. now right.
    - destruct (dfs_returns wfg (dfs_fuel wfg) root
                  {| visited := visited st; stack := stack st; path := [];
                     deadlocks := deadlocks st |})
        as [[found [st1 [H1 _]]]|H1].
      + apply Hroots. now left.
      + exact Hv.
      + simpl. pose proof (unseen_length (nodes_of wfg) (visited st)) as Hlen.
        rewrite <- dfs_fuel_nodes. lia.
      + rewrite H1. cbn [bind]. apply IHr. intros n Hn. apply Hroots. now right.
      + rewrite H1. now right. }
  destruct (G (keys wfg) {| visited := []; stack := []; path := []; deadlocks := [] |})
    as [[st' H]|H].
  - intros n Hn. unfold nodes_of. apply in_or_app. now left.
  - left. rewrite H. simpl. eauto.
  - right. rewrite H. reflexivity.
Qed.

(** The search can raise: [stack] is shared by all roots and is not unwound
    when a cycle is reported, so a later root that reaches a node left on it
    looks that node up in its own, fresh [path]. *)
Example detect_deadlocks_stale_stack :
  detect_deadlocks [("A"%string, ["B"%string]); ("B"%string, ["A"%string]);
                    ("C"%string, ["A"%string])]
  = Raise ValueError.
Proof. reflexivity. Qed.

(** ** Cycle detection on the two reference scenarios *)

(** C3: with allocations [{A: {Oven: 1}, B: {Chef: 1}}] and pending requests
    [{A: {Chef: 1}, B: {Oven: 1}}], in whichever order the two dicts were
    filled, [detect] returns one cycle, the set [{A, B}]; with allocation
    [{A: {Oven: 1}}] and pending request [{B: {Chef: 1}}] it returns the
    empty list. *)
Theorem detect_scenarios (total available : dict Z)
    (allocations requests : dict (dict Z)) :
  Permutation [("A"%string, [("Oven"%string, 1)]); ("B"%string, [("Chef"%string, 1)])]
              allocations ->
  Permutation [("A"%string, [("Chef"%string, 1)]); ("B"%string, [("Oven"%string, 1)])]
              requests ->
  (exists cycle,
     detect (mkRM total available allocations) requests = Ok [cycle]
     /\ Permutation cycle ["A"%string; "B"%string])
  /\ detect (mkRM total available [("A"%string, [("Oven"%string, 1)])])
            [("B"%string, [("Chef"%string, 1)])] = Ok [].
Proof.
  intros Ha Hr. split; [|reflexivity].
  apply Permutation_length_2_inv in Ha. apply Permutation_length_2_inv in Hr.
  destruct Ha as [-> | ->], Hr as [-> | ->];
    (eexists; split; [vm_compute; reflexivity|]);
    first [apply Permutation_refl | apply perm_swap].
Qed.

Lemma detect_scenarios_witness :
  (exists cycle,
     detect (mkRM [("Oven"%string, 1); ("Chef"%string, 1)]
                  [("Oven"%string, 0); ("Chef"%string, 0)]
                  [("A"%string, [("Oven"%string, 1)]); ("B"%string, [("Chef"%string, 1)])])
            [("A"%string, [("Chef"%string, 1)]); ("B"%string, [("Oven"%string, 1)])]
     = Ok [cycle]
     /\ Permutation cycle ["A"%string; "B"%string])
  /\ detect (mkRM [("Oven"%string, 1); ("Chef"%string, 1)]
                  [("Oven"%string, 0); ("Chef"%string, 0)]
                  [("A"%string, [("Oven"%string, 1)])])
            [("B"%string, [("Chef"%string, 1)])] = Ok [].
Proof.
  apply detect_scenarios; apply Permutation_refl.
Defined.

(** ** Banker's safe-state check *)

Lemma unfinished_set_true (order : string) (finish : dict bool) :
  get order finish = Some false ->
  S (unfinished (set order true finish)) = unfinished finish.
Proof.
  unfold unfinished. induction finish as [|[o b] finish IH]; simpl; [discriminate|].
  destruct (String.eqb_spec order o) as [->|Hne]; simpl.
  - intros H. injection H as ->. reflexivity.
  - intros H. destruct b; simpl; rewrite <- (IH H); reflexivity.
Qed.

(** One order of the scan: it returns, keeps the keys of [finish], never
    clears [progress], and either changes nothing or finishes one more order
    and sets [progress]. *)
Lemma scan_order_step (allocation : dict (dict Z)) (st : bankers_state)
    (order : string) (need : dict Z) :
  In order (keys (finish st)) ->
  exists st',
    scan_order allocation st (order, need) = Ok st' /\
    keys (finish st') = keys (finish st) /\
    (st' = st \/
     (progress st' = true /\ S (unfinished (finish st')) = unfinished (finish st))).
Proof.
  intros Hin. unfold scan_order.
  destruct (getitem_known order (finish st) Hin) as [finished [Hg Hi]].
  rewrite Hi. simpl. destruct finished; simpl.
  - exists st. auto.
  - destruct (can_finish need (get_or order allocation []) (work st)).
    + eexists. split; [reflexivity|]. simpl. split.
      * now apply keys_set_known.
      * right. split; [reflexivity | now apply unfinished_set_true].
    + exists st. auto.
Qed.

Lemma scan_order_progress (allocation : dict (dict Z)) (st st' : bankers_state)
    (item : string * dict Z) :
  scan_order allocation st item = Ok st' ->
  progress st = true -> progress st' = true.
Proof.
  destruct item as [order need]. unfold scan_order. intros H Hp.
  apply bind_Ok in H. destruct H as [finished [_ H]].
  destruct (negb finished); [|congruence].
  destruct (can_finish need (get_or order allocation []) (work st)).
  - injection H as <-. reflexivity.
  - congruence.
Qed.

(** A full scan returns; it cannot raise the number of unfinished orders,
    and lowers it when it reports progress. *)
Lemma scan_returns (allocation : dict (dict Z)) (items : dict (dict Z))
    (st : bankers_state) :
  (forall order, In order (keys items) -> In order (keys (finish st))) ->
  exists st',
    for_each (scan_order allocation) items st = Ok st' /\
    keys (finish st') = keys (finish st) /\
    (st' = st \/
     (progress st' = true /\ (unfinished (finish st') < unfinished (finish st))%nat)).
Proof.
  revert st. induction items as [|[order need] items IH]; cbn [for_each]; intros st Hk.
  - exists st. auto.
  - destruct (scan_order_step allocation st order need) as [st1 [H1 [Hk1 Hd1]]];
      [apply Hk; now left|].
    rewrite H1. cbn [bind].
    destruct (IH st1) as [st2 [H2 [Hk2 Hd2]]].
    { intros o Ho. rewrite Hk1. apply Hk. now right. }
    exists st2. split; [exact H2|]. split; [congruence|].
    destruct Hd1 as [->|[Hp1 Hu1]], Hd2 as [->|[Hp2 Hu2]]; auto; right.
    + split; [assumption | lia].
    + split; [assumption | lia].
Qed.

(** A scan that reports no progress has changed nothing, and every order
    it looked at was finished already or could not finish. *)
Lemma scan_without_progress (allocation : dict (dict Z)) (items : dict (dict Z))
    (st st' : bankers_state) :
  for_each (scan_order allocation) items st = Ok st' ->
  progress st' = false ->
  st' = st /\ stuck items allocation (work st) (finish st).
Proof.
  revert st. induction items as [|[order need] items IH]; cbn [for_each];
    intros st H Hp.
  - injection H as <-. split; [reflexivity | intros o n []].
  - apply bind_Ok in H. destruct H as [st1 [H1 H]].
    destruct (IH st1 H Hp) as [-> Hstuck].
    assert (Hp1 : progress st = false).
    { destruct (progress st) eqn:E; [|reflexivity].
      rewrite (scan_order_progress _ _ _ _ H1 E) in Hp. discriminate. }
    unfold scan_order in H1. apply bind_Ok in H1. destruct H1 as [finished [Hg H1]].
    apply getitem_Ok in Hg.
    assert (Hsame : st1 = st /\
                    (finished = false ->
                     can_finish need (get_or order allocation []) (work st) = false)).
    { destruct finished; simpl in H1.
      - injection H1 as <-. split; [reflexivity | discriminate].
      - destruct (can_finish need (get_or order allocation []) (work st)).
        + injection H1 as <-. simpl in Hp. discriminate.
        + injection H1 as <-. auto. }
    destruct Hsame as [-> Hcan]. split; [reflexivity|].
    intros o n [E|HI].
    + injection E as <- <-. exists finished. auto.
    + now apply Hstuck.
Qed.

(** The rounds end before the fuel does: each round but the last finishes
    at least one more order. *)
Lemma bankers_rounds_returns (max_demand allocation : dict (dict Z)) (fuel : nat) :
  forall (work0 : dict Z) (finish0 : dict bool),
    keys finish0 = keys max_demand ->
    (unfinished finish0 < fuel)%nat ->
    exists work' finish',
      bankers_rounds fuel max_demand allocation work0 finish0 = Ok (work', finish')
      /\ stuck max_demand allocation work' finish'.
Proof.
  induction fuel as [|fuel IH]; intros work0 finish0 Hk Hfuel; [lia|].
  simpl.
  destruct (scan_returns allocation max_demand (mkBankers work0 finish0 false))
    as [st [Hscan [Hkeys Hd]]].
  { simpl. intros o Ho. now rewrite Hk. }
  rewrite Hscan. simpl. destruct (progress st) eqn:Hp; simpl.
  - destruct Hd as [->|[_ Hlt]]; [discriminate|]. simpl in *.
    apply IH; [congruence | lia].
  - destruct (scan_without_progress _ _ _ _ Hscan Hp) as [-> Hstuck].
    simpl in *. eauto.
Qed.

Lemma unfinished_initial (max_demand : dict (dict Z)) :
  keys (map (fun '(order, _) => (order, false)) max_demand) = keys max_demand /\
  unfinished (map (fun '(order, _) => (order, false)) max_demand)
  = List.length max_demand.
Proof.
  unfold unfinished, keys.
  induction max_demand as [|[o n] max_demand [IH1 IH2]]; simpl; [auto|].
  split; congruence.
Qed.

Lemma can_finish_iff (need held_by work0 : dict Z) :
  can_finish need held_by work0 = true <->
  forall res, In res (keys need) ->
    get_or res need 0 - get_or res held_by 0 <= get_or res work0 0.
Proof.
  unfold can_finish, need_res. rewrite forallb_forall. split.
  - intros H res Hres. unfold keys in Hres. rewrite in_map_iff in Hres.
    destruct Hres as [[res' qty] [E HI]]. simpl in E. subst res'.
    specialize (H (res, get_or res need 0 - get_or res held_by 0)).
    apply Z.leb_le. apply H. rewrite in_map_iff. exists (res, qty). auto.
  - intros H [res n] HI. rewrite in_map_iff in HI.
    destruct HI as [[res' qty] [E HI]]. injection E as -> <-.
    apply Z.leb_le. apply H. now apply (in_map fst) in HI.
Qed.

Lemma release_into_spec (held_by work0 : dict Z) :
  wf held_by ->
  forall r, get_or r (release_into held_by work0) 0
            = get_or r work0 0 + get_or r held_by 0.
Proof.
  unfold release_into, wf. intros Hwf r.
  assert (G : forall (ks : list string) (w : dict Z),
             NoDup ks ->
             get_or r (fold_left (fun work res =>
                                    set res (get_or res work 0 + get_or res held_by 0) work)
                                 ks w) 0
             = get_or r w 0 + (if in_dec string_dec r ks then get_or r held_by 0 else 0)).
  { induction ks as [|k ks IH]; intros w Hnd; simpl; [lia|].
    inversion Hnd as [|? ? Hnot Hnd']; subst. rewrite IH by assumption.
    destruct (string_dec k r) as [->|Hne].
    - rewrite get_or_set_eq. destruct (in_dec string_dec r ks); [contradiction | lia].
    - rewrite get_or_set_neq by assumption.
      destruct (in_dec string_dec r ks); lia. }
  rewrite G by assumption.
  destruct (in_dec string_dec r (keys held_by)) as [HI|HN]; [reflexivity|].
  apply get_None_iff in HN. unfold get_or at 3. now rewrite HN.
Qed.

Lemma completes_snoc (allocation : dict (dict Z)) (sequence : list (string * dict Z))
    (order : string) (need : dict Z) :
  forall work0,
    completes allocation work0 sequence ->
    can_finish need (get_or order allocation [])
               (work_after allocation work0 sequence) = true ->
    completes allocation work0 (sequence ++ [(order, need)]).
Proof.
  induction sequence as [|[o n] sequence IH]; simpl; intros work0 Hc Hf; [auto|].
  destruct Hc as [H1 H2]. split; [assumption|]. now apply IH.
Qed.

Lemma work_after_snoc (allocation : dict (dict Z)) (work0 : dict Z)
    (sequence : list (string * dict Z)) (entry : string * dict Z) :
  work_after allocation work0 (sequence ++ [entry])
  = release_into (get_or (fst entry) allocation [])
                 (work_after allocation work0 sequence).
Proof. unfold work_after. now rewrite fold_left_app. Qed.

Lemma scan_order_in_order (max_demand allocation : dict (dict Z)) (available : dict Z)
    (st st' : bankers_state) (done : list (string * dict Z))
    (order : string) (need : dict Z) :
  In (order, need) max_demand ->
  finished_in_order max_demand allocation available (work st) (finish st) done ->
  scan_order allocation st (order, need) = Ok st' ->
  exists done',
    finished_in_order max_demand allocation available (work st') (finish st') done'.
Proof.
  intros Hin (Hc & Hw & Hf & Hsub & Hnd & Hk) H.
  unfold scan_order in H. apply bind_Ok in H. destruct H as [finished [Hg H]].
  apply getitem_Ok in Hg. destruct finished; cbn [negb] in H.
  - injection H as <-. exists done. repeat split; auto; apply Hf.
  - destruct (can_finish need (get_or order allocation []) (work st)) eqn:Hcan.
    + injection H as <-. simpl. exists (done ++ [(order, need)]).
      assert (Hout : ~ In order (keys done)).
      { intros HI. apply Hf in HI. congruence. }
      split; [|split; [|split; [|split; [|split]]]].
      * apply completes_snoc; [assumption | now rewrite <- Hw].
      * rewrite work_after_snoc. simpl. now rewrite <- Hw.
      * intros o. unfold keys. rewrite map_app, in_app_iff. simpl.
        destruct (string_dec order o) as [<-|Hne].
        -- rewrite get_set_eq. split; auto.
        -- rewrite get_set_neq by assumption. rewrite <- Hf. unfold keys.
           split; [intros [H|[H|[]]]; [assumption | contradiction] | auto].
      * intros e He. apply in_app_or in He. destruct He as [He|[<-|[]]]; auto.
      * unfold keys. rewrite map_app. simpl. apply NoDup_app; auto.
        -- constructor; [intros [] | constructor].
        -- intros x Hx [<-|[]]. contradiction.
      * rewrite <- Hk. apply keys_set_known. apply contains_true_iff.
        unfold contains. now rewrite Hg.
    + injection H as <-. exists done. repeat split; auto; apply Hf.
Qed.

Lemma scan_in_order (max_demand allocation : dict (dict Z)) (available : dict Z)
    (items : dict (dict Z)) :
  (forall entry, In entry items -> In entry max_demand) ->
  forall (st st' : bankers_state) (done : list (string * dict Z)),
    finished_in_order max_demand allocation available (work st) (finish st) done ->
    for_each (scan_order allocation) items st = Ok st' ->
    exists done',
      finished_in_order max_demand allocation available (work st') (finish st') done'.
Proof.
  induction items as [|[order need] items IH]; cbn [for_each]; intros Hsub st st' done Hinv H.
  - injection H as <-. eauto.
  - apply bind_Ok in H. destruct H as [st1 [H1 H]].
    destruct (scan_order_in_order _ _ _ _ _ _ _ _ (Hsub _ (or_introl eq_refl)) Hinv H1)
      as [done1 Hinv1].
    apply (IH (fun e He => Hsub e (or_intror He)) st1 st' done1 Hinv1 H).
Qed.

Lemma bankers_rounds_in_order (max_demand allocation : dict (dict Z))
    (available : dict Z) (fuel : nat) :
  forall (work0 : dict Z) (finish0 : dict bool) (done : list (string * dict Z))
         (work' : dict Z) (finish' : dict bool),
    finished_in_order max_demand allocation available work0 finish0 done ->
    bankers_rounds fuel max_demand allocation work0 finish0 = Ok (work', finish') ->
    exists done',
      finished_in_order max_demand allocation available work' finish' done'.
Proof.
  induction fuel as [|fuel IH]; intros work0 finish0 done work' finish' Hinv H;
    [discriminate|].
  cbn [bankers_rounds] in H. apply bind_Ok in H. destruct H as [st [Hscan H]].
  destruct (scan_in_order max_demand allocation available max_demand (fun e He => He)
              (mkBankers work0 finish0 false) st done Hinv Hscan) as [done1 Hinv1].
  destruct (progress st); cbn [negb] in H.
  - apply (IH _ _ _ _ _ Hinv1 H).
  - injection H as <- <-. eauto.
Qed.

(** What [bankers_rounds] returns is reached by full scans, the last of
    which makes no progress. *)
Lemma bankers_rounds_scans (max_demand allocation : dict (dict Z)) (fuel : nat) :
  forall (work0 : dict Z) (finish0 : dict bool) (work' : dict Z) (finish' : dict bool),
    bankers_rounds fuel max_demand allocation work0 finish0 = Ok (work', finish') ->
    scans max_demand allocation work0 finish0 work' finish'.
Proof.
  induction fuel as [|fuel IH]; intros work0 finish0 work' finish' H; [discriminate|].
  cbn [bankers_rounds] in H. apply bind_Ok in H. destruct H as [st [Hscan H]].
  destruct (progress st) eqn:Hp; cbn [negb] in H.
  - apply (scans_again _ _ _ _ st); auto.
  - injection H as <- <-. now apply scans_stop.
Qed.

(** Before the first scan no order is finished and [work] is [available]. *)
Lemma finished_in_order_initial (max_demand allocation : dict (dict Z))
    (available : dict Z) :
  finished_in_order max_demand allocation available available
    (map (fun '(order, _) => (order, false)) max_demand) [].
Proof.
  destruct (unfinished_initial max_demand) as [Hk _].
  split; [exact I|]. split; [reflexivity|]. split; [|split; [|split]].
  - intros order. split; [intros []|]. intros Hg. apply get_In in Hg.
    apply in_map_iff in Hg. destruct Hg as [[o n] [E _]]. discriminate.
  - intros entry [].
  - constructor.
  - exact Hk.
Qed.

(** C4: for every [max_demand], [allocation] and [available],
    - a scan skips a finished order, and finishes an unfinished one exactly
      when every resource of its need ([max_demand] minus allocation) is at
      most [work.get(res, 0)], adding its whole allocation to [work];
    - [bankers_algorithm] returns, and the [work] and [finish] it ends with
      are reached by full scans of [max_demand], each continuing from the
      [work] and [finish] of the scan before, the last one making no progress;
    - the orders marked finished at the end can be listed in the order in
      which they finished: each could finish with [available] plus the
      allocations released by the orders before it, and the final [work] is
      [available] plus the allocations of all of them;
    - at the end no unfinished order can finish with the final [work];
    - the result is [True] exactly when every order is marked finished;
    - [available = {R: 2}], [X] with allocation [{R: 1}] and maximum [{R: 2}],
      [Y] with allocation [{R: 1}] and maximum [{R: 1}] gives [True]. *)
Theorem bankers_algorithm_spec (max_demand allocation : dict (dict Z))
    (available : dict Z) :
  (forall st order need finished,
     get order (finish st) = Some finished ->
     scan_order allocation st (order, need)
     = Ok (if finished then st
           else if can_finish need (get_or order allocation []) (work st)
                then {| work := release_into (get_or order allocation []) (work st);
                        finish := set order true (finish st);
                        progress := true |}
                else st))
  /\ (forall need held_by work0,
        can_finish need held_by work0 = true <->
        forall res, In res (keys need) ->
          get_or res need 0 - get_or res held_by 0 <= get_or res work0 0)
  /\ (forall held_by work0 r,
        wf held_by ->
        get_or r (release_into held_by work0) 0
        = get_or r work0 0 + get_or r held_by 0)
  /\ (exists done work' finish',
        bankers_rounds (S (List.length max_demand)) max_demand allocation available
          (map (fun '(order, _) => (order, false)) max_demand)
        = Ok (work', finish')
        /\ scans max_demand allocation available
             (map (fun '(order, _) => (order, false)) max_demand) work' finish'
        /\ finished_in_order max_demand allocation available work' finish' done
        /\ stuck max_demand allocation work' finish'
        /\ bankers_algorithm max_demand allocation available
           = Ok (forallb (fun b => b) (values finish'))
        /\ (forallb (fun b => b) (values finish') = true <->
            forall order finished, In (order, finished) finish' -> finished = true))
  /\ bankers_algorithm
       [("X"%string, [("R"%string, 2)]); ("Y"%string, [("R"%string, 1)])]
       [("X"%string, [("R"%string, 1)]); ("Y"%string, [("R"%string, 1)])]
       [("R"%string, 2)]
     = Ok true.
Proof.
  split; [|split; [|split; [|split]]].
  - intros st order need finished Hg. unfold scan_order, getitem. rewrite Hg. simpl.
    destruct finished; simpl; [reflexivity|].
    now destruct (can_finish need (get_or order allocation []) (work st)).
  - apply can_finish_iff.
  - intros held_by work0 r Hwf. now apply release_into_spec.
  - destruct (unfinished_initial max_demand) as [Hk Hu].
    destruct (bankers_rounds_returns max_demand allocation (S (List.length max_demand))
                available (map (fun '(order, _) => (order, false)) max_demand))
      as [work' [finish' [Hr Hstuck]]]; [assumption | lia |].
    destruct (bankers_rounds_in_order max_demand allocation available
                (S (List.length max_demand)) available
                (map (fun '(order, _) => (order, false)) max_demand) [] work' finish'
                (finished_in_order_initial max_demand allocation available) Hr)
      as [done Hdone].
    exists done, work', finish'. split; [exact Hr|].
    split; [exact (bankers_rounds_scans _ _ _ _ _ _ _ Hr)|].
    split; [exact Hdone|]. split; [exact Hstuck|]. split.
    + unfold bankers_algorithm. rewrite Hr. reflexivity.
    + rewrite forallb_forall. unfold values. split.
      * intros H order finished HI. apply (H finished).
        rewrite in_map_iff. exists (order, finished). auto.
      * intros H b Hb. rewrite in_map_iff in Hb.
        destruct Hb as [[order finished] [E HI]]. simpl in E. subst b.
        now apply (H order).
  - reflexivity.
Qed.

Lemma bankers_algorithm_spec_witness :
  bankers_algorithm
    [("X"%string, [("R"%string, 2)]); ("Y"%string, [("R"%string, 1)])]
    [("X"%string, [("R"%string, 1)]); ("Y"%string, [("R"%string, 1)])]
    [("R"%string, 0)]
  = Ok true.
Proof.
  destruct (bankers_algorithm_spec
              [("X"%string, [("R"%string, 2)]); ("Y"%string, [("R"%string, 1)])]
              [("X"%string, [("R"%string, 1)]); ("Y"%string, [("R"%string, 1)])]
              [("R"%string, 0)])
    as (_ & _ & _ & (done & work' & finish' & Hr & _ & _ & _ & Hb & _) & _).
  vm_compute in Hr. injection Hr as _ <-. exact Hb.
Defined.

(** ** The allocation pass *)

Lemma insert_by_perm {A : Type} (key : A -> Z) (x : A) (xs : list A) :
  Permutation (insert_by key x xs) (x :: xs).
Proof.
  induction xs as [|y ys IH]; simpl; [apply Permutation_refl|].
  destruct (key x <=? key y); [apply Permutation_refl|].
  apply perm_trans with (y :: x :: ys); [now apply perm_skip | apply perm_swap].
Qed.

Lemma sorted_perm {A : Type} (key : A -> Z) (xs : list A) :
  Permutation (sorted key xs) xs.
Proof.
  induction xs as [|x xs IH]; simpl; [apply Permutation_refl|].
  apply perm_trans with (x :: sorted key xs);
    [apply insert_by_perm | now apply perm_skip].
Qed.

Lemma insert_by_sorted {A : Type} (key : A -> Z) (x : A) (xs : list A) :
  StronglySorted (fun a b => key a <= key b) xs ->
  StronglySorted (fun a b => key a <= key b) (insert_by key x xs).
Proof.
  induction xs as [|y ys IH]; simpl; intros H.
  - constructor; [constructor | constructor].
  - inversion H as [|? ? Hs Hall]; subst.
    destruct (Z.leb_spec (key x) (key y)) as [Hle|Hgt].
    + constructor; [assumption|]. constructor; [assumption|].
      apply Forall_impl with (2 := Hall). intros a Ha. lia.
    + constructor; [now apply IH|].
      apply Forall_forall. intros a Ha.
      apply (Permutation_in _ (insert_by_perm key x ys)) in Ha.
      destruct Ha as [<-|Ha]; [lia|].
      rewrite Forall_forall in Hall. now apply Hall.
Qed.

Lemma sorted_sorted {A : Type} (key : A -> Z) (xs : list A) :
  StronglySorted (fun a b => key a <= key b) (sorted key xs).
Proof.
  induction xs as [|x xs IH]; simpl; [constructor | now apply insert_by_sorted].
Qed.

(** The loop of [process_orders] asks the ledger as [greedy_pass] does, and
    touches only the allocated map and the local list [to_remove]. *)
Lemma try_orders_greedy (queue : list (string * dict Z)) :
  forall (om : OrderManager) (to_remove : list string)
         (om' : OrderManager) (to_remove' : list string),
    for_each try_order queue (om, to_remove) = Ok (om', to_remove') ->
    exists granted_orders,
      greedy_pass queue (rm om) = Ok (granted_orders, rm om') /\
      to_remove' = to_remove ++ keys granted_orders /\
      orders om' = move_in granted_orders (orders om) /\
      pending_requests om' = pending_requests om /\
      order_priorities om' = order_priorities om /\
      holding_orders om' = holding_orders om.
Proof.
  induction queue as [|[order_id request] queue IH]; cbn [for_each greedy_pass];
    intros om to_remove om' to_remove' H.
  - injection H as <- <-. exists []. simpl. now rewrite app_nil_r.
  - apply bind_Ok in H. destruct H as [[om1 tr1] [H1 H]].
    apply IH in H. destruct H as [granted_orders (Hg & Htr & Ho & Hp & Hq & Hh)].
    unfold try_order in H1. unfold request_resources.
    destruct (_can_allocate request (rm om)).
    + apply bind_Ok in H1. destruct H1 as [l1 [Ha H1]].
      apply bind_Ok in H1. destruct H1 as [prio [_ H1]].
      injection H1 as <- <-. simpl in *.
      rewrite Ha. simpl. rewrite Hg. simpl.
      exists ((order_id, request) :: granted_orders). repeat split; auto.
      rewrite Htr. simpl. now rewrite <- app_assoc.
    + injection H1 as <- <-. simpl. rewrite Hg. simpl.
      exists granted_orders. repeat split; auto.
Qed.

Lemma drop_pending_all (to_remove : list string) (om : OrderManager) :
  let om' := fold_left drop_pending to_remove om in
  rm om' = rm om /\ orders om' = orders om /\
  pending_requests om'
  = fold_left (fun d order_id => remove order_id d) to_remove (pending_requests om) /\
  order_priorities om' = order_priorities om /\
  holding_orders om' = holding_orders om.
Proof.
  revert om. induction to_remove as [|o to_remove IH]; simpl; intros om; [auto|].
  destruct (IH (drop_pending om o)) as (H1 & H2 & H3 & H4 & H5).
  rewrite H1, H2, H3, H4, H5. simpl. repeat split.
  destruct (contains o (pending_requests om)) eqn:E; [reflexivity|].
  now rewrite remove_absent.
Qed.

Lemma move_out_keys (granted_orders : list (string * dict Z)) (d : dict (dict Z)) :
  move_out granted_orders d
  = fold_left (fun d order_id => remove order_id d) (keys granted_orders) d.
Proof.
  unfold move_out. revert d.
  induction granted_orders as [|[o r] g IH]; simpl; intros d; [reflexivity | apply IH].
Qed.

Lemma get_move_out (granted_orders : list (string * dict Z)) (d : dict (dict Z))
    (order_id : string) :
  get order_id (move_out granted_orders d)
  = if in_dec string_dec order_id (keys granted_orders) then None else get order_id d.
Proof.
  unfold move_out. revert d.
  induction granted_orders as [|[o r] g IH]; simpl; intros d; [reflexivity|].
  rewrite IH. destruct (string_dec o order_id) as [->|Hne].
  - destruct (in_dec string_dec order_id (keys g)); [reflexivity | apply get_remove_eq].
  - destruct (in_dec string_dec order_id (keys g)); [reflexivity|].
    now apply get_remove_neq.
Qed.

Lemma get_move_in_other (granted_orders : list (string * dict Z)) (d : dict (dict Z))
    (order_id : string) :
  ~ In order_id (keys granted_orders) ->
  get order_id (move_in granted_orders d) = get order_id d.
Proof.
  unfold move_in. revert d.
  induction granted_orders as [|[o r] g IH]; simpl; intros d Hn; [reflexivity|].
  rewrite IH by tauto. apply get_set_neq. tauto.
Qed.

Lemma get_move_in (granted_orders : list (string * dict Z)) (d : dict (dict Z))
    (order_id : string) (request : dict Z) :
  wf granted_orders -> In (order_id, request) granted_orders ->
  get order_id (move_in granted_orders d) = Some request.
Proof.
  unfold wf, move_in. revert d.
  induction granted_orders as [|[o r] g IH]; simpl; intros d Hnd HI; [contradiction|].
  inversion Hnd as [|? ? Hnot Hnd']; subst. destruct HI as [E|HI].
  - injection E as -> ->.
    change (get order_id (move_in g (set order_id request d)) = Some request).
    rewrite get_move_in_other by assumption. apply get_set_eq.
  - now apply IH.
Qed.

(** The granted orders are a sub-list of the queue. *)
Lemma greedy_pass_granted (queue : list (string * dict Z)) :
  forall (l l' : ResourceManager) (granted_orders : list (string * dict Z)),
    greedy_pass queue l = Ok (granted_orders, l') ->
    (forall entry, In entry granted_orders -> In entry queue) /\
    (wf queue -> wf granted_orders).
Proof.
  unfold wf.
  induction queue as [|[o r] queue IH]; cbn [greedy_pass]; intros l l' g H.
  - injection H as <- <-. split; [auto | intros; constructor].
  - apply bind_Ok in H. destruct H as [[ok l1] [_ H]].
    apply bind_Ok in H. destruct H as [[g1 l2] [Hg H]].
    injection H as <- <-. destruct (IH _ _ _ Hg) as [Hsub Hwf]. split.
    + intros e He. destruct ok; [destruct He as [<-|He]|]; simpl; auto.
    + intros Hnd. simpl in Hnd. inversion Hnd as [|? ? Hnot Hnd']; subst.
      destruct ok; [|auto]. simpl. constructor; [|auto].
      intros HI. apply Hnot. unfold keys in *. rewrite in_map_iff in *.
      destruct HI as [e [E He]]. exists e. auto.
Qed.

(** C6: [process_orders] takes the pending orders in ascending priority order
    and asks the ledger once for each, on the ledger as the orders before it
    left it; an order that is granted is recorded in the allocated map with
    its request and leaves the pending map; an order that is refused stays
    pending with its request, and is not asked for again in the pass. *)
Theorem process_orders_single_pass (om om' : OrderManager) :
  wf (pending_requests om) ->
  process_orders om = Ok om' ->
  Permutation (sorted_requests om) (pending_requests om) /\
  StronglySorted (fun a b => priority_of om a <= priority_of om b)
                 (sorted_requests om) /\
  exists granted_orders,
    greedy_pass (sorted_requests om) (rm om) = Ok (granted_orders, rm om') /\
    orders om' = move_in granted_orders (orders om) /\
    pending_requests om' = move_out granted_orders (pending_requests om) /\
    order_priorities om' = order_priorities om /\
    (forall order_id request,
       get order_id (pending_requests om) = Some request ->
       (In (order_id, request) granted_orders ->
        get order_id (orders om') = Some request /\
        get order_id (pending_requests om') = None) /\
       (~ In (order_id, request) granted_orders ->
        get order_id (pending_requests om') = Some request /\
        get order_id (orders om') = get order_id (orders om))).
Proof.
  intros Hwf H.
  assert (Hperm : Permutation (sorted_requests om) (pending_requests om))
    by apply sorted_perm.
  split; [exact Hperm|]. split; [apply sorted_sorted|].
  unfold process_orders in H. apply bind_Ok in H.
  destruct H as [[om1 to_remove] [Hloop H]]. injection H as <-.
  apply try_orders_greedy in Hloop.
  destruct Hloop as [granted_orders (Hg & Htr & Ho & Hp & Hq & _)].
  simpl in Htr. subst to_remove.
  destruct (drop_pending_all (keys granted_orders) om1) as (D1 & D2 & D3 & D4 & _).
  assert (Hwfg : wf granted_orders).
  { apply (greedy_pass_granted _ _ _ _ Hg). unfold wf, keys.
    apply Permutation_NoDup with (l := map fst (pending_requests om)); [|exact Hwf].
    apply Permutation_map, Permutation_sym, Hperm. }
  exists granted_orders. rewrite D1, D2, D3, D4, Hp, Ho, <- move_out_keys.
  repeat split; auto.
  - now apply get_move_in.
  - rewrite get_move_out.
    destruct (in_dec string_dec order_id (keys granted_orders)) as [_|Hn];
      [reflexivity|].
    exfalso. apply Hn. now apply (in_map fst) in H0.
  - rewrite get_move_out.
    destruct (in_dec string_dec order_id (keys granted_orders)) as [Hin|_];
      [|assumption].
    exfalso. apply H0. unfold keys in Hin. rewrite in_map_iff in Hin.
    destruct Hin as [[o r] [E HI]]. simpl in E. subst o.
    destruct (greedy_pass_granted _ _ _ _ Hg) as [Hsub _].
    pose proof (Permutation_in _ Hperm (Hsub _ HI)) as HI'.
    apply (In_get_wf _ _ _ Hwf) in HI'. rewrite H in HI'.
    injection HI' as <-. exact HI.
  - apply get_move_in_other. intros Hin. apply H0.
    unfold keys in Hin. rewrite in_map_iff in Hin.
    destruct Hin as [[o r] [E HI]]. simpl in E. subst o.
    destruct (greedy_pass_granted _ _ _ _ Hg) as [Hsub _].
    pose proof (Permutation_in _ Hperm (Hsub _ HI)) as HI'.
    apply (In_get_wf _ _ _ Hwf) in HI'. rewrite H in HI'.
    injection HI' as <-. exact HI.
Qed.

Lemma process_orders_single_pass_witness :
  Permutation (sorted_requests two_orders) (pending_requests two_orders) /\
  StronglySorted (fun a b => priority_of two_orders a <= priority_of two_orders b)
                 (sorted_requests two_orders) /\
  exists granted_orders,
    greedy_pass (sorted_requests two_orders) (rm two_orders)
    = Ok (granted_orders, rm first_served) /\
    orders first_served = move_in granted_orders (orders two_orders) /\
    pending_requests first_served
    = move_out granted_orders (pending_requests two_orders) /\
    order_priorities first_served = order_priorities two_orders /\
    (forall order_id request,
       get order_id (pending_requests two_orders) = Some request ->
       (In (order_id, request) granted_orders ->
        get order_id (orders first_served) = Some request /\
        get order_id (pending_requests first_served) = None) /\
       (~ In (order_id, request) granted_orders ->
        get order_id (pending_requests first_served) = Some request /\
        get order_id (orders first_served) = get order_id (orders two_orders))).
Proof.
  apply (process_orders_single_pass two_orders first_served).
  - apply nodup_keys_wf. reflexivity.
  - vm_compute. reflexivity.
Defined.

(** The pass returns when every pending order has a priority and asks only
    for resources the ledger knows. *)
Lemma try_orders_return (queue : list (string * dict Z)) :
  forall (om : OrderManager) (to_remove : list string),
    synced (rm om) ->
    (forall order_id request, In (order_id, request) queue ->
       In order_id (keys (order_priorities om)) /\
       forall res, In res (keys request) ->
                   In res (keys (available_resources (rm om)))) ->
    exists st, for_each try_order queue (om, to_remove) = Ok st.
Proof.
  induction queue as [|[order_id request] queue IH]; cbn [for_each];
    intros om to_remove Hs Hq; [eauto|].
  destruct (Hq order_id request (or_introl eq_refl)) as [Hprio Hres].
  unfold try_order at 1. destruct (_can_allocate request (rm om)).
  - destruct (allocate_returns order_id request (rm om) Hs Hres) as [l' Hl'].
    rewrite Hl'. cbn [bind].
    destruct (getitem_known order_id (order_priorities om) Hprio) as [p [_ Hp]].
    rewrite Hp. cbn [bind].
    apply allocate_Ok in Hl'. destruct Hl' as (_ & Hk & _ & _ & Hs').
    apply IH; simpl; [assumption|].
    intros o r HI. rewrite Hk. apply Hq. now right.
  - cbn [bind]. apply IH; [assumption|].
    intros o r HI. apply Hq. now right.
Qed.

(** X13: [process_orders] returns when every resource of [total] has an
    [available] entry, every pending order has a priority and every pending
    request names resources that [available] lists. *)
Lemma process_orders_returns (om : OrderManager) :
  synced (rm om) ->
  (forall order_id request, In (order_id, request) (pending_requests om) ->
     In order_id (keys (order_priorities om)) /\
     forall res, In res (keys request) ->
                 In res (keys (available_resources (rm om)))) ->
  exists om', process_orders om = Ok om'.
Proof.
  intros Hs Hq. unfold process_orders.
  destruct (try_orders_return (sorted_requests om) om [] Hs) as [[om1 tr] H].
  - intros o r HI. apply Hq. apply (Permutation_in _ (sorted_perm _ _) HI).
  - rewrite H. simpl. eauto.
Qed.

(** ** Allocated and pending orders *)

Lemma contains_set (k k' : string) {V : Type} (v : V) (d : dict V) :
  contains k' (set k v d) = if String.eqb k' k then true else contains k' d.
Proof.
  unfold contains. destruct (String.eqb_spec k' k) as [->|Hne].
  - now rewrite get_set_eq.
  - rewrite get_set_neq by congruence. reflexivity.
Qed.

Lemma discard_absent {V : Type} (k : string) (d : dict V) :
  (if contains k d then remove k d else d) = remove k d.
Proof.
  destruct (contains k d) eqn:E; [reflexivity | now rewrite remove_absent].
Qed.

Lemma exclusive_load (db_allocations : dict (dict Z)) (rows : dict (status * Z)) :
  forall om,
    wf rows ->
    (forall order_id, In order_id (keys rows) ->
       contains order_id (orders om) = false
       /\ contains order_id (pending_requests om) = false) ->
    exclusive om ->
    exclusive (fold_left (load_order db_allocations) rows om).
Proof.
  unfold wf.
  induction rows as [|[o [st p]] rows IH]; simpl; intros om Hnd Hnew Hex; [exact Hex|].
  inversion Hnd as [|? ? Hnot Hnd']; subst.
  destruct (Hnew o (or_introl eq_refl)) as [Ho Hp].
  apply IH; [assumption| |].
  - intros x Hx. destruct (Hnew x (or_intror Hx)) as [Hxo Hxp].
    assert (Hne : String.eqb x o = false).
    { apply String.eqb_neq. intros ->. contradiction. }
    destruct st; simpl; rewrite ?contains_set, ?Hne; auto.
  - intros x [Hxo Hxp]. destruct st; simpl in *; rewrite ?contains_set in *.
    + destruct (String.eqb_spec x o) as [E|E]; [congruence | apply (Hex x); auto].
    + destruct (String.eqb_spec x o) as [E|E]; [congruence | apply (Hex x); auto].
    + apply (Hex x); auto.
Qed.

Lemma exclusive_init (l : ResourceManager) (db_orders : dict (status * Z))
    (db_allocations : dict (dict Z)) :
  wf db_orders -> exclusive (OrderManager_init l db_orders db_allocations).
Proof.
  intros Hwf. unfold OrderManager_init. apply exclusive_load; [assumption| |].
  - intros o _. split; reflexivity.
  - intros o [H _]. discriminate.
Qed.

Lemma contains_move_in (granted_orders : list (string * dict Z)) (d : dict (dict Z))
    (order_id : string) :
  contains order_id (move_in granted_orders d) = true ->
  In order_id (keys granted_orders) \/ contains order_id d = true.
Proof.
  intros H. destruct (in_dec string_dec order_id (keys granted_orders)) as [HI|HN];
    [now left | right].
  unfold contains in *. now rewrite get_move_in_other in H.
Qed.

Lemma contains_move_out (granted_orders : list (string * dict Z)) (d : dict (dict Z))
    (order_id : string) :
  contains order_id (move_out granted_orders d) = true ->
  ~ In order_id (keys granted_orders) /\ contains order_id d = true.
Proof.
  unfold contains. rewrite get_move_out.
  destruct (in_dec string_dec order_id (keys granted_orders)); [discriminate | auto].
Qed.

Lemma process_orders_moves (om om' : OrderManager) :
  process_orders om = Ok om' ->
  exists granted_orders,
    greedy_pass (sorted_requests om) (rm om) = Ok (granted_orders, rm om') /\
    orders om' = move_in granted_orders (orders om) /\
    pending_requests om' = move_out granted_orders (pending_requests om).
Proof.
  intros H. unfold process_orders in H. apply bind_Ok in H.
  destruct H as [[om1 to_remove] [Hloop H]]. injection H as <-.
  apply try_orders_greedy in Hloop.
  destruct Hloop as [granted_orders (Hg & Htr & Ho & Hp & _)].
  simpl in Htr. subst to_remove.
  destruct (drop_pending_all (keys granted_orders) om1) as (D1 & D2 & D3 & _).
  exists granted_orders. now rewrite D1, D2, D3, Hp, Ho, <- move_out_keys.
Qed.

Lemma exclusive_step (op : operation) (om om' : OrderManager) :
  coordinator_operation op -> fresh_create op om ->
  run op om = Ok om' -> exclusive om -> exclusive om'.
Proof.
  intros Hc Hf Hrun Hex x [Hxo Hxp].
  destruct op; simpl in Hc, Hf, Hrun; try contradiction.
  - injection Hrun as <-. simpl in *. rewrite contains_set in Hxp.
    destruct (String.eqb_spec x order_id) as [E|E]; [congruence | apply (Hex x); auto].
  - apply process_orders_moves in Hrun.
    destruct Hrun as [granted_orders (_ & Ho & Hp)]. rewrite Ho in Hxo. rewrite Hp in Hxp.
    apply contains_move_out in Hxp. destruct Hxp as [Hn Hxp].
    apply contains_move_in in Hxo. destruct Hxo as [Hin|Hxo]; [contradiction|].
    apply (Hex x); auto.
  - unfold release_order in Hrun. apply bind_Ok in Hrun.
    destruct Hrun as [l' [_ Hrun]]. injection Hrun as <-. simpl in *.
    rewrite discard_absent in Hxo, Hxp.
    destruct (string_dec order_id x) as [->|Hne].
    + rewrite contains_remove_eq in Hxo. discriminate.
    + rewrite contains_remove_neq in Hxo, Hxp by assumption. apply (Hex x); auto.
  - unfold cancel_order, release_order in Hrun. apply bind_Ok in Hrun.
    destruct Hrun as [l' [_ Hrun]]. injection Hrun as <-. simpl in *.
    rewrite discard_absent in Hxo, Hxp.
    destruct (string_dec order_id x) as [->|Hne].
    + rewrite contains_remove_eq in Hxo. discriminate.
    + rewrite contains_remove_neq in Hxo, Hxp by assumption. apply (Hex x); auto.
  - injection Hrun as <-. unfold reschedule_order in *.
    destruct (contains order_id (order_priorities om)); apply (Hex x); auto.
Qed.

(** C7, as amended: in every state reached from an initial coordinator by
    coordinator operations that return, where [create_order] is applied only
    to ids that are not in the allocated map, no order id is both in the
    allocated map and in the pending map. *)
Theorem exclusive_when_created_fresh (l : ResourceManager)
    (db_orders : dict (status * Z)) (db_allocations : dict (dict Z))
    (om : OrderManager) :
  wf db_orders ->
  reachable (fun op om => coordinator_operation op /\ fresh_create op om)
            (OrderManager_init l db_orders db_allocations) om ->
  exclusive om.
Proof.
  intros Hwf Hreach. induction Hreach as [|op om om' _ IH [Hc Hf] Hrun].
  - now apply exclusive_init.
  - now apply (exclusive_step op om om').
Qed.

Lemma exclusive_when_created_fresh_witness : exclusive first_served.
Proof.
  apply (exclusive_when_created_fresh
           (ResourceManager_init (Some [("Oven"%string, 1)]) []) [] []).
  - constructor.
  - apply reachable_step with (op := ProcessOrders) (om := two_orders);
      [|split; exact I | reflexivity].
    apply reachable_step
      with (op := CreateOrder "Order2"%string [("Oven"%string, 1)] 2)
           (om := create_order "Order1"%string [("Oven"%string, 1)] 1 one_oven);
      [|split; [exact I | reflexivity] | reflexivity].
    apply reachable_step
      with (op := CreateOrder "Order1"%string [("Oven"%string, 1)] 1) (om := one_oven);
      [|split; [exact I | reflexivity] | reflexivity].
    apply reachable_init.
Defined.

(** C7, as stated, fails: [create_order] on the id of an allocated order
    leaves that id in both maps. *)
Lemma exclusive_fails_on_duplicate_create :
  reachable (fun op _ => coordinator_operation op) one_oven created_again
  /\ ~ exclusive created_again.
Proof.
  split.
  - apply reachable_step
      with (op := CreateOrder "Order1"%string [("Oven"%string, 1)] 1)
           (om := {| rm := rm created_again;
                     orders := orders created_again;
                     pending_requests := [];
                     order_priorities := order_priorities created_again;
                     holding_orders := [] |});
      [|exact I | reflexivity].
    apply reachable_step with (op := ProcessOrders)
      (om := create_order "Order1"%string [("Oven"%string, 1)] 1 one_oven);
      [|exact I | reflexivity].
    apply reachable_step
      with (op := CreateOrder "Order1"%string [("Oven"%string, 1)] 1) (om := one_oven);
      [|exact I | reflexivity].
    apply reachable_init.
  - intros H. apply (H "Order1"%string). split; reflexivity.
Qed.

(** ** Conservation of resources *)

Lemma get_or_absent {V : Type} (k : string) (d : dict V) (default : V) :
  contains k d = false -> get_or k d default = default.
Proof. unfold contains, get_or. now destruct (get k d). Qed.

Lemma get_or_wf (order_id : string) (d : dict (dict Z)) :
  records_wf d -> wf (get_or order_id d []).
Proof.
  intros H. unfold get_or. destruct (get order_id d) as [a|] eqn:E; [|constructor].
  apply get_In in E. unfold records_wf in H. rewrite Forall_forall in H.
  exact (H _ E).
Qed.

Lemma add_virtual_conserved (l : ResourceManager) (item : string * Z) :
  conserved l ->
  conserved (add_virtual l item)
  /\ allocated_resources (add_virtual l item) = allocated_resources l.
Proof.
  destruct item as [res qty]. intros H. split; [|reflexivity].
  intros r. simpl. destruct (string_dec res r) as [->|Hne].
  - rewrite !get_or_set_eq. specialize (H r). lia.
  - rewrite !get_or_set_neq by assumption. apply H.
Qed.

Lemma add_virtual_resources_sound (additions : dict Z) (l : ResourceManager) :
  ledger_sound l -> ledger_sound (add_virtual_resources additions l).
Proof.
  unfold add_virtual_resources. revert l.
  induction additions as [|item additions IH]; simpl; intros l H; [exact H|].
  apply IH. destruct H as (Hc & Hw & Hr).
  destruct (add_virtual_conserved l item Hc) as [Hc' Ha].
  unfold ledger_sound. rewrite Ha. auto.
Qed.

Lemma request_fresh_sound (order_id : string) (request : dict Z)
    (l l' : ResourceManager) (ok : bool) :
  wf request ->
  contains order_id (allocated_resources l) = false ->
  ledger_sound l ->
  request_resources order_id request l = Ok (ok, l') ->
  ledger_sound l' /\
  forall other, other <> order_id ->
    contains other (allocated_resources l') = contains other (allocated_resources l).
Proof.
  intros Hwf Hfresh (Hc & Hw & Hr) H. unfold request_resources in H.
  destruct (_can_allocate request l).
  - apply bind_Ok in H. destruct H as [l1 [Ha H]]. injection H as <- <-.
    apply allocate_Ok in Ha. destruct Ha as (Ht & _ & Hv & Hal & _).
    split; [split; [|split]|].
    + intros r. rewrite Hv, Hal, held_set, Ht, listed_wf by assumption.
      rewrite (@get_or_absent (dict Z) order_id _ [] Hfresh). specialize (Hc r).
      rewrite get_or_nil. lia.
    + rewrite Hal. now apply wf_set.
    + rewrite Hal. now apply Forall_set.
    + intros other Hne. rewrite Hal, contains_set.
      destruct (String.eqb_spec other order_id); [contradiction | reflexivity].
  - injection H as <- <-. split; [split; auto | reflexivity].
Qed.

Lemma release_sound (order_id : string) (l l' : ResourceManager) :
  ledger_sound l -> release_resources order_id l = Ok l' -> ledger_sound l'.
Proof.
  intros (Hc & Hw & Hr) H.
  destruct (get order_id (allocated_resources l)) as [held_by|] eqn:E.
  - pose proof (get_or_wf order_id _ Hr) as Hwf.
    assert (Eh : get_or order_id (allocated_resources l) [] = held_by)
      by (unfold get_or; now rewrite E).
    rewrite Eh in Hwf.
    apply (release_Ok _ _ _ _ E) in H. destruct H as (Ht & _ & Hv & Hal & _).
    split; [|split].
    + intros r. rewrite Hv, Hal, held_remove, Ht, Eh, listed_wf by assumption.
      specialize (Hc r). lia.
    + rewrite Hal. now apply wf_remove.
    + rewrite Hal. now apply Forall_remove.
  - rewrite release_absent in H by (unfold contains; now rewrite E).
    injection H as <-. split; auto.
Qed.

Lemma greedy_pass_sound (queue : list (string * dict Z)) :
  forall (l l' : ResourceManager) (granted_orders : list (string * dict Z)),
    greedy_pass queue l = Ok (granted_orders, l') ->
    wf queue -> records_wf queue ->
    (forall order_id, In order_id (keys queue) ->
       contains order_id (allocated_resources l) = false) ->
    ledger_sound l -> ledger_sound l'.
Proof.
  unfold wf, records_wf.
  induction queue as [|[o r] queue IH]; cbn [greedy_pass]; intros l l' g H Hnd Hrec Hfresh Hs.
  - now injection H as _ <-.
  - apply bind_Ok in H. destruct H as [[ok l1] [H1 H]].
    apply bind_Ok in H. destruct H as [[g1 l2] [Hg H]]. injection H as _ <-.
    simpl in Hnd. inversion Hnd as [|? ? Hnot Hnd']; subst.
    inversion Hrec as [|? ? Hr Hrec']; subst. simpl in Hr.
    destruct (request_fresh_sound o r l l1 ok Hr (Hfresh o (or_introl eq_refl)) Hs H1)
      as [Hs1 Hother].
    apply (IH l1 l2 g1 Hg Hnd' Hrec'); [|exact Hs1].
    intros x Hx. rewrite Hother; [apply Hfresh; now right|].
    intros ->. contradiction.
Qed.

Lemma move_out_sound (granted_orders : list (string * dict Z)) (d : dict (dict Z)) :
  wf d -> records_wf d ->
  wf (move_out granted_orders d) /\ records_wf (move_out granted_orders d).
Proof.
  unfold move_out. revert d.
  induction granted_orders as [|e g IH]; simpl; intros d Hw Hr; [auto|].
  apply IH; [now apply wf_remove | now apply Forall_remove].
Qed.

Lemma sound_load (db_allocations : dict (dict Z)) (rows : dict (status * Z)) :
  records_wf db_allocations ->
  forall om, system_sound om ->
             system_sound (fold_left (load_order db_allocations) rows om).
Proof.
  intros Hdb. induction rows as [|[o [st p]] rows IH]; simpl; intros om Hs; [exact Hs|].
  apply IH. destruct Hs as (Hl & Hw & Hr).
  destruct st; simpl; split; auto.
  split; [now apply wf_set|]. apply Forall_set; [|assumption].
  simpl. now apply get_or_wf.
Qed.

Lemma sound_init (resources : dict Z) (db_orders : dict (status * Z))
    (db_allocations : dict (dict Z)) :
  records_wf db_allocations ->
  system_sound
    (OrderManager_init (ResourceManager_init (Some resources) []) db_orders
                       db_allocations).
Proof.
  intros Hdb. unfold OrderManager_init. apply sound_load; [assumption|].
  split; [|split; constructor]. simpl.
  split; [|split; constructor]. intros r. simpl. lia.
Qed.

Lemma sound_step (op : operation) (om om' : OrderManager) :
  dict_arguments op -> no_regrant op om ->
  run op om = Ok om' -> system_sound om -> system_sound om'.
Proof.
  intros Hd Hn Hrun (Hl & Hw & Hr).
  destruct op; simpl in Hd, Hn, Hrun.
  - apply bind_Ok in Hrun. destruct Hrun as [[ok l] [H Hrun]]. injection Hrun as <-.
    split; [|split; assumption]. simpl.
    now apply (request_fresh_sound order_id request (rm om) l ok).
  - apply bind_Ok in Hrun. destruct Hrun as [l [H Hrun]]. injection Hrun as <-.
    split; [|split; assumption]. simpl. now apply (release_sound order_id (rm om)).
  - apply bind_Ok in Hrun. destruct Hrun as [l [H Hrun]]. injection Hrun as <-.
    apply preempt_Ok in H.
    split; [|split; assumption]. simpl. now apply (release_sound order_id (rm om)).
  - injection Hrun as <-. split; [|split; assumption]. simpl.
    now apply add_virtual_resources_sound.
  - injection Hrun as <-. split; [assumption|]. simpl.
    split; [now apply wf_set | now apply Forall_set].
  - apply process_orders_moves in Hrun.
    destruct Hrun as [granted_orders (Hg & _ & Hp)].
    pose proof (sorted_perm (fun x => get_or (fst x) (order_priorities om) 5)
                            (pending_requests om)) as Hperm.
    fold (sorted_requests om) in Hperm.
    split; [|rewrite Hp; now apply move_out_sound].
    apply (greedy_pass_sound _ _ _ _ Hg); [| | |assumption].
    + unfold wf, keys.
      apply Permutation_NoDup with (l := map fst (pending_requests om)); [|exact Hw].
      apply Permutation_map, Permutation_sym, Hperm.
    + unfold records_wf. apply Forall_forall. intros e He.
      unfold records_wf in Hr. rewrite Forall_forall in Hr.
      apply Hr. apply (Permutation_in _ Hperm He).
    + intros x Hx. apply Hn. unfold keys in *.
      apply (Permutation_in _ (Permutation_map fst Hperm) Hx).
  - unfold release_order in Hrun. apply bind_Ok in Hrun.
    destruct Hrun as [l [H Hrun]]. injection Hrun as <-.
    unfold system_sound. simpl. rewrite !discard_absent.
    split; [now apply (release_sound order_id (rm om))|].
    split; [now apply wf_remove | now apply Forall_remove].
  - unfold cancel_order, release_order in Hrun. apply bind_Ok in Hrun.
    destruct Hrun as [l [H Hrun]]. injection Hrun as <-.
    unfold system_sound. simpl. rewrite !discard_absent.
    split; [now apply (release_sound order_id (rm om))|].
    split; [now apply wf_remove | now apply Forall_remove].
  - injection Hrun as <-. unfold reschedule_order.
    destruct (contains order_id (order_priorities om)); split; auto.
Qed.

(** C1, as amended: for every resource [r], in every state reached from a
    freshly initialised ledger and coordinator by ledger mutations
    ([request_resources], [release_resources], [preempt_resources],
    [add_virtual_resources]) and coordinator mutations that return, where no
    request is made for an order id that holds an allocation (neither directly
    nor by [process_orders] for a pending id),
    [available[r]] plus the quantities of [r] allocated to all orders equals
    [total[r]]. *)
Theorem conserved_without_regrant (resources : dict Z)
    (db_orders : dict (status * Z)) (db_allocations : dict (dict Z))
    (om : OrderManager) :
  records_wf db_allocations ->
  reachable (fun op om => dict_arguments op /\ no_regrant op om)
            (OrderManager_init (ResourceManager_init (Some resources) [])
                               db_orders db_allocations) om ->
  conserved (rm om).
Proof.
  intros Hdb Hreach.
  assert (Hs : system_sound om).
  { induction Hreach as [|op om om' _ IH [Hd Hn] Hrun].
    - now apply sound_init.
    - now apply (sound_step op om om'). }
  apply Hs.
Qed.

Lemma conserved_without_regrant_witness : conserved (rm first_served).
Proof.
  apply (conserved_without_regrant [("Oven"%string, 1)] [] []).
  - constructor.
  - apply reachable_step with (op := ProcessOrders) (om := two_orders);
      [|split; [exact I | intros order_id _; reflexivity] | reflexivity].
    apply reachable_step
      with (op := CreateOrder "Order2"%string [("Oven"%string, 1)] 2)
           (om := create_order "Order1"%string [("Oven"%string, 1)] 1 one_oven);
      [|split; [apply nodup_keys_wf; reflexivity | exact I] | reflexivity].
    apply reachable_step
      with (op := CreateOrder "Order1"%string [("Oven"%string, 1)] 1) (om := one_oven);
      [|split; [apply nodup_keys_wf; reflexivity | exact I] | reflexivity].
    apply reachable_init.
Defined.

(** C1, as stated, fails: a second request granted to an order that already
    holds an allocation overwrites its record, and the quantity it held is in
    neither [available] nor any allocation. *)
Lemma conservation_fails_on_regrant :
  reachable (fun op _ => dict_arguments op) two_ovens granted_twice
  /\ ~ conserved (rm granted_twice).
Proof.
  split.
  - apply reachable_step
      with (op := RequestResources "A"%string [("Oven"%string, 1)])
           (om := with_rm two_ovens
                    {| total_resources := [("Oven"%string, 2)];
                       available_resources := [("Oven"%string, 1)];
                       allocated_resources := [("A"%string, [("Oven"%string, 1)])] |});
      [|apply nodup_keys_wf; reflexivity | reflexivity].
    apply reachable_step
      with (op := RequestResources "A"%string [("Oven"%string, 1)]) (om := two_ovens);
      [|apply nodup_keys_wf; reflexivity | reflexivity].
    apply reachable_init.
  - intros H. specialize (H "Oven"%string). vm_compute in H. discriminate.
Qed.

(** * Further properties *)

(** ** Capacity increases *)

Lemma add_virtual_resources_listed (additions : dict Z) (l : ResourceManager) (r : string) :
  get_or r (total_resources (add_virtual_resources additions l)) 0
  = get_or r (total_resources l) 0 + listed r additions
  /\ get_or r (available_resources (add_virtual_resources additions l)) 0
     = get_or r (available_resources l) 0 + listed r additions
  /\ allocated_resources (add_virtual_resources additions l) = allocated_resources l.
Proof.
  unfold add_virtual_resources. revert l.
  induction additions as [|[res qty] additions IH]; intros l.
  - simpl. repeat split; lia.
  - cbn [fold_left listed fold_right fst snd].
    destruct (IH (add_virtual l (res, qty))) as (Ht & Ha & Hal).
    rewrite Ht, Ha, Hal. simpl.
    destruct (String.eqb_spec r res) as [->|Hne].
    + rewrite !get_or_set_eq. unfold listed. repeat split; lia.
    + rewrite !get_or_set_neq by congruence. unfold listed. repeat split; lia.
Qed.

Lemma add_virtual_resources_keys (additions : dict Z) (l : ResourceManager) (r : string) :
  (In r (keys (total_resources (add_virtual_resources additions l)))
   <-> In r (keys (total_resources l)) \/ In r (keys additions))
  /\ (In r (keys (available_resources (add_virtual_resources additions l)))
      <-> In r (keys (available_resources l)) \/ In r (keys additions)).
Proof.
  unfold add_virtual_resources. revert l.
  induction additions as [|[res qty] additions IH]; intros l.
  - simpl. tauto.
  - cbn [fold_left]. destruct (IH (add_virtual l (res, qty))) as [Ht Ha].
    rewrite Ht, Ha. simpl. rewrite !In_keys_set. split; intuition (subst; auto).
Qed.

(** X1: [add_virtual_resources] raises the total and the available quantity of
    every listed resource by the listed quantity, creates the resources it
    does not know with that quantity, removes none, and leaves the
    allocations alone. *)
Theorem add_virtual_resources_effect (additions : dict Z) (l : ResourceManager)
    (r : string) :
  wf additions ->
  let l' := add_virtual_resources additions l in
  get_or r (total_resources l') 0 = get_or r (total_resources l) 0 + get_or r additions 0
  /\ get_or r (available_resources l') 0
     = get_or r (available_resources l) 0 + get_or r additions 0
  /\ (In r (keys (total_resources l'))
      <-> In r (keys (total_resources l)) \/ In r (keys additions))
  /\ (In r (keys (available_resources l'))
      <-> In r (keys (available_resources l)) \/ In r (keys additions))
  /\ allocated_resources l' = allocated_resources l.
Proof.
  intros Hwf l'. subst l'.
  destruct (add_virtual_resources_listed additions l r) as (Ht & Ha & Hal).
  destruct (add_virtual_resources_keys additions l r) as (Kt & Ka).
  rewrite (listed_wf r additions Hwf) in Ht, Ha. auto.
Qed.

Lemma add_virtual_resources_effect_witness :
  let l := ResourceManager_init (Some [("Oven"%string, 1)]) [] in
  let l' := add_virtual_resources [("Oven"%string, 2); ("Grill"%string, 1)] l in
  get_or "Grill"%string (total_resources l') 0 = 0 + 1
  /\ get_or "Grill"%string (available_resources l') 0 = 0 + 1.
Proof.
  intros l l'.
  destruct (add_virtual_resources_effect [("Oven"%string, 2); ("Grill"%string, 1)] l
              "Grill"%string ltac:(apply nodup_keys_wf; reflexivity))
    as (Ht & Ha & _).
  split; [exact Ht | exact Ha].
Defined.

(** ** Granting and releasing *)

Lemma remove_set_fresh {V : Type} (k : string) (v : V) (d : dict V) :
  contains k d = false -> remove k (set k v d) = d.
Proof.
  rewrite contains_false_iff. unfold remove.
  induction d as [|[k' v'] d IH]; simpl; intros Hn.
  - now rewrite String.eqb_refl.
  - destruct (String.eqb_spec k k') as [->|Hne]; [exfalso; apply Hn; now left|].
    simpl. destruct (String.eqb_spec k k'); [contradiction|]. simpl.
    f_equal. apply IH. tauto.
Qed.

Lemma for_each_take_known (request available available' : dict Z) :
  for_each take request available = Ok available' ->
  forall res, In res (keys request) -> In res (keys available).
Proof.
  revert available. induction request as [|[res qty] request IH]; simpl;
    intros available H r Hr; [contradiction|].
  apply bind_Ok in H. destruct H as [mid [Hm H]].
  pose proof (take_spec _ _ _ _ Hm) as [Hk _].
  destruct Hr as [<-|Hr].
  - unfold take in Hm. apply bind_Ok in Hm. destruct Hm as [cur [Hg _]].
    apply getitem_Ok in Hg. apply contains_true_iff. unfold contains. now rewrite Hg.
  - rewrite <- Hk. now apply (IH mid).
Qed.

Lemma request_resources_Ok (order_id : string) (request : dict Z)
    (l l' : ResourceManager) (ok : bool) :
  request_resources order_id request l = Ok (ok, l') ->
  (ok = false /\ l' = l /\ _can_allocate request l = false)
  \/ (ok = true /\ _can_allocate request l = true
      /\ _allocate order_id request l = Ok l').
Proof.
  unfold request_resources. destruct (_can_allocate request l).
  - intros H. apply bind_Ok in H. destruct H as [l1 [Ha H]].
    injection H as <- <-. right. auto.
  - intros H. injection H as <- <-. left. auto.
Qed.

Lemma release_returns_for (order_id : string) (held_by : dict Z) (l : ResourceManager) :
  get order_id (allocated_resources l) = Some held_by ->
  synced l ->
  (forall res, In res (keys held_by) -> In res (keys (available_resources l))) ->
  exists l', release_resources order_id l = Ok l'.
Proof.
  intros Hg Hs Hk. unfold release_resources, contains, getitem. rewrite Hg. cbn [bind].
  destruct (for_each_give_returns held_by (available_resources l) Hk) as [available Ha].
  rewrite Ha. cbn [bind]. rewrite sync_resources_returns; cbn [bind]; [eauto|].
  apply for_each_give_spec in Ha. destruct Ha as [Hkeys _].
  intros r Hr. simpl in *. rewrite Hkeys. now apply Hs.
Qed.

(** X2: Granting a request to an order without allocation and then releasing
    that order gives back the ledger: same totals, same allocation map, the
    same resources with the same available quantities. *)
Theorem grant_then_release (order_id : string) (request : dict Z)
    (l l1 : ResourceManager) :
  contains order_id (allocated_resources l) = false ->
  request_resources order_id request l = Ok (true, l1) ->
  exists l2,
    release_resources order_id l1 = Ok l2
    /\ total_resources l2 = total_resources l
    /\ allocated_resources l2 = allocated_resources l
    /\ keys (available_resources l2) = keys (available_resources l)
    /\ forall r, get_or r (available_resources l2) 0
                 = get_or r (available_resources l) 0.
Proof.
  intros Hfresh H. apply request_resources_Ok in H.
  destruct H as [(E & _)|(_ & _ & Ha)]; [discriminate|].
  assert (Hknown : forall res, In res (keys request) ->
                               In res (keys (available_resources l))).
  { unfold _allocate in Ha. apply bind_Ok in Ha. destruct Ha as [a [Ht _]].
    now apply (for_each_take_known _ _ _ Ht). }
  apply allocate_Ok in Ha. destruct Ha as (Ht & Hk & Hv & Hal & Hs).
  assert (Hg : get order_id (allocated_resources l1) = Some request)
    by (rewrite Hal; apply get_set_eq).
  destruct (release_returns_for order_id request l1 Hg Hs) as [l2 H2].
  { intros res Hres. rewrite Hk. now apply Hknown. }
  exists l2. split; [exact H2|].
  apply (release_Ok _ _ _ _ Hg) in H2. destruct H2 as (Ht2 & Hk2 & Hv2 & Hal2 & _).
  repeat split.
  - congruence.
  - rewrite Hal2, Hal. now apply remove_set_fresh.
  - congruence.
  - intros r. rewrite Hv2, Hv. lia.
Qed.

Lemma grant_then_release_witness :
  exists l2,
    release_resources "A"%string
      (mkRM [("Oven"%string, 2)] [("Oven"%string, 1)]
            [("A"%string, [("Oven"%string, 1)])]) = Ok l2
    /\ total_resources l2 = [("Oven"%string, 2)]
    /\ allocated_resources l2 = []
    /\ keys (available_resources l2) = ["Oven"%string]
    /\ forall r, get_or r (available_resources l2) 0
                 = get_or r [("Oven"%string, 2)] 0.
Proof.
  apply (grant_then_release "A"%string [("Oven"%string, 1)]
           (ResourceManager_init (Some [("Oven"%string, 2)]) [])); reflexivity.
Defined.

(** X3: A granted request leaves no available quantity below zero: the test of
    [_can_allocate] covers every entry that [_allocate] subtracts. *)
Theorem grant_keeps_available_nonnegative (order_id : string) (request : dict Z)
    (l l' : ResourceManager) :
  wf request ->
  (forall r, 0 <= get_or r (available_resources l) 0) ->
  request_resources order_id request l = Ok (true, l') ->
  forall r, 0 <= get_or r (available_resources l') 0.
Proof.
  intros Hwf Hpos H r. apply request_resources_Ok in H.
  destruct H as [(E & _)|(_ & Hcan & Ha)]; [discriminate|].
  apply can_allocate_iff in Hcan.
  apply allocate_Ok in Ha. destruct Ha as (_ & _ & Hv & _).
  rewrite Hv, listed_wf by assumption. unfold get_or at 2.
  destruct (get r request) as [q|] eqn:E.
  - apply get_In in E. specialize (Hcan _ _ E). lia.
  - specialize (Hpos r). lia.
Qed.

Lemma grant_keeps_available_nonnegative_witness :
  0 <= get_or "Oven"%string [("Oven"%string, 0); ("Chef"%string, 2)] 0.
Proof.
  apply (grant_keeps_available_nonnegative "A"%string [("Oven"%string, 1)]
           (ResourceManager_init (Some [("Oven"%string, 1); ("Chef"%string, 2)]) [])
           (mkRM [("Oven"%string, 1); ("Chef"%string, 2)]
                 [("Oven"%string, 0); ("Chef"%string, 2)]
                 [("A"%string, [("Oven"%string, 1)])])).
  - apply nodup_keys_wf. reflexivity.
  - intros r. simpl. unfold get_or. simpl.
    destruct (String.eqb r "Oven"); [lia|]. destruct (String.eqb r "Chef"); lia.
  - reflexivity.
Defined.

(** ** Resources persist *)

Lemma greedy_pass_preserves (P : ResourceManager -> Prop)
    (queue : list (string * dict Z)) :
  (forall order_id request l ok l',
     In (order_id, request) queue -> P l ->
     request_resources order_id request l = Ok (ok, l') -> P l') ->
  forall (l l' : ResourceManager) (granted_orders : list (string * dict Z)),
    greedy_pass queue l = Ok (granted_orders, l') -> P l -> P l'.
Proof.
  induction queue as [|[o r] queue IH]; cbn [greedy_pass]; intros Hstep l l' g H HP.
  - now injection H as _ <-.
  - apply bind_Ok in H. destruct H as [[ok l1] [H1 H]].
    apply bind_Ok in H. destruct H as [[g1 l2] [Hg H]]. injection H as _ <-.
    apply (IH (fun o' r' l0 ok0 l0' Hin => Hstep o' r' l0 ok0 l0' (or_intror Hin))
              l1 l2 g1 Hg).
    exact (Hstep o r l ok l1 (or_introl eq_refl) HP H1).
Qed.

Lemma request_resources_names (order_id : string) (request : dict Z)
    (l l' : ResourceManager) (ok : bool) :
  request_resources order_id request l = Ok (ok, l') ->
  total_resources l' = total_resources l
  /\ keys (available_resources l') = keys (available_resources l).
Proof.
  intros H. apply request_resources_Ok in H.
  destruct H as [(_ & -> & _)|(_ & _ & Ha)]; [auto|].
  apply allocate_Ok in Ha. tauto.
Qed.

Lemma release_resources_names (order_id : string) (l l' : ResourceManager) :
  release_resources order_id l = Ok l' ->
  total_resources l' = total_resources l
  /\ keys (available_resources l') = keys (available_resources l).
Proof.
  intros H. destruct (get order_id (allocated_resources l)) as [held_by|] eqn:E.
  - apply (release_Ok _ _ _ _ E) in H. tauto.
  - rewrite release_absent in H by (unfold contains; now rewrite E).
    injection H as <-. auto.
Qed.

(** X4: No operation removes a resource from the ledger, and only
    [add_virtual_resources] changes a total or adds a resource. *)
Theorem resources_persist (op : operation) (om om' : OrderManager) :
  run op om = Ok om' ->
  (forall r, In r (keys (total_resources (rm om))) ->
             In r (keys (total_resources (rm om'))))
  /\ (forall r, In r (keys (available_resources (rm om))) ->
                In r (keys (available_resources (rm om'))))
  /\ match op with
     | AddVirtualResources _ => True
     | _ => total_resources (rm om') = total_resources (rm om)
            /\ keys (available_resources (rm om'))
               = keys (available_resources (rm om))
     end.
Proof.
  intros H.
  assert (Hsame : forall l', total_resources l' = total_resources (rm om)
                             /\ keys (available_resources l')
                                = keys (available_resources (rm om)) ->
                  (forall r, In r (keys (total_resources (rm om))) ->
                             In r (keys (total_resources l')))
                  /\ (forall r, In r (keys (available_resources (rm om))) ->
                                In r (keys (available_resources l')))
                  /\ (total_resources l' = total_resources (rm om)
                      /\ keys (available_resources l')
                         = keys (available_resources (rm om)))).
  { intros l' [Ht Hk]. rewrite Ht, Hk. auto. }
  destruct op; simpl in H.
  - apply bind_Ok in H. destruct H as [[ok l] [H1 H]]. injection H as <-.
    apply Hsame. simpl. now apply (request_resources_names order_id request _ _ ok).
  - apply bind_Ok in H. destruct H as [l [H1 H]]. injection H as <-.
    apply Hsame. simpl. now apply (release_resources_names order_id).
  - apply bind_Ok in H. destruct H as [l [H1 H]]. injection H as <-.
    apply preempt_Ok in H1.
    apply Hsame. simpl. now apply (release_resources_names order_id).
  - injection H as <-. simpl. repeat split; auto.
    + intros r Hr. apply add_virtual_resources_keys. now left.
    + intros r Hr. apply add_virtual_resources_keys. now left.
  - injection H as <-. apply Hsame. simpl. auto.
  - apply process_orders_moves in H. destruct H as [g (Hg & _)].
    apply Hsame.
    apply (greedy_pass_preserves
             (fun l => total_resources l = total_resources (rm om)
                       /\ keys (available_resources l)
                          = keys (available_resources (rm om)))
             (sorted_requests om)) with (l := rm om) (granted_orders := g); auto.
    intros o r l ok l1 _ [Ht Hk] H1.
    apply request_resources_names in H1. destruct H1 as [Ht1 Hk1]. split; congruence.
  - unfold release_order in H. apply bind_Ok in H. destruct H as [l [H1 H]].
    injection H as <-. apply Hsame. simpl. now apply (release_resources_names order_id).
  - unfold cancel_order, release_order in H. apply bind_Ok in H.
    destruct H as [l [H1 H]]. injection H as <-.
    apply Hsame. simpl. now apply (release_resources_names order_id).
  - injection H as <-. apply Hsame. unfold reschedule_order.
    destruct (contains order_id (order_priorities om)); simpl; auto.
Qed.

Lemma resources_persist_witness :
  total_resources (rm first_served) = total_resources (rm two_orders)
  /\ keys (available_resources (rm first_served))
     = keys (available_resources (rm two_orders)).
Proof.
  apply (resources_persist ProcessOrders two_orders first_served). reflexivity.
Defined.

(** ** Available quantities stay within capacity *)

Lemma listed_nonnegative (r : string) (request : dict Z) :
  nonnegative request -> 0 <= listed r request.
Proof.
  unfold nonnegative. induction request as [|[res qty] request IH]; simpl; intros H; [lia|].
  assert (0 <= listed r request) by (apply IH; intros; eapply H; eauto).
  assert (0 <= qty) by (apply (H res); now left).
  unfold listed in *. destruct (String.eqb r res); lia.
Qed.

Lemma get_or_nonnegative (r : string) (request : dict Z) :
  nonnegative request -> 0 <= get_or r request 0.
Proof.
  intros H. unfold get_or. destruct (get r request) as [q|] eqn:E; [|lia].
  apply get_In in E. now apply (H r).
Qed.

Lemma held_nonnegative (r : string) (allocated : dict (dict Z)) :
  records_nonnegative allocated -> 0 <= held r allocated.
Proof.
  unfold records_nonnegative. induction allocated as [|[o a] allocated IH]; simpl;
    intros H; [lia|].
  inversion H as [|? ? Ha Hrest]; subst. simpl in Ha.
  pose proof (get_or_nonnegative r a Ha). specialize (IH Hrest). lia.
Qed.

Lemma get_or_records_nonnegative (order_id : string) (d : dict (dict Z)) :
  records_nonnegative d -> nonnegative (get_or order_id d []).
Proof.
  intros H. unfold get_or. destruct (get order_id d) as [a|] eqn:E;
    [|intros res qty []].
  apply get_In in E. unfold records_nonnegative in H. rewrite Forall_forall in H.
  exact (H _ E).
Qed.

Lemma Forall_move_out (P : string * dict Z -> Prop)
    (granted_orders : list (string * dict Z)) (d : dict (dict Z)) :
  Forall P d -> Forall P (move_out granted_orders d).
Proof.
  unfold move_out. revert d.
  induction granted_orders as [|e g IH]; simpl; intros d H; [exact H|].
  apply IH. now apply Forall_remove.
Qed.

Lemma request_capacity_step (order_id : string) (request : dict Z)
    (l l' : ResourceManager) (ok : bool) :
  wf request -> nonnegative request ->
  request_resources order_id request l = Ok (ok, l') ->
  (forall r, 0 <= get_or r (available_resources l) 0)
  /\ records_nonnegative (allocated_resources l) ->
  (forall r, 0 <= get_or r (available_resources l') 0)
  /\ records_nonnegative (allocated_resources l').
Proof.
  intros Hwf Hnn H [Hpos Hrec]. apply request_resources_Ok in H.
  destruct H as [(_ & -> & _)|(_ & Hcan & Ha)]; [auto|].
  apply can_allocate_iff in Hcan.
  apply allocate_Ok in Ha. destruct Ha as (_ & _ & Hv & Hal & _). split.
  - intros r. rewrite Hv, listed_wf by assumption. unfold get_or at 2.
    destruct (get r request) as [q|] eqn:E.
    + apply get_In in E. specialize (Hcan _ _ E). lia.
    + specialize (Hpos r). lia.
  - rewrite Hal. now apply Forall_set.
Qed.

Lemma release_capacity_step (order_id : string) (l l' : ResourceManager) :
  release_resources order_id l = Ok l' ->
  (forall r, 0 <= get_or r (available_resources l) 0)
  /\ records_nonnegative (allocated_resources l) ->
  (forall r, 0 <= get_or r (available_resources l') 0)
  /\ records_nonnegative (allocated_resources l').
Proof.
  intros H [Hpos Hrec].
  destruct (get order_id (allocated_resources l)) as [held_by|] eqn:E.
  - assert (Hnn : nonnegative held_by).
    { apply get_In in E. unfold records_nonnegative in Hrec.
      rewrite Forall_forall in Hrec. exact (Hrec _ E). }
    apply (release_Ok _ _ _ _ E) in H. destruct H as (_ & _ & Hv & Hal & _). split.
    + intros r. rewrite Hv. pose proof (listed_nonnegative r held_by Hnn).
      specialize (Hpos r). lia.
    + rewrite Hal. now apply Forall_remove.
  - rewrite release_absent in H by (unfold contains; now rewrite E).
    injection H as <-. auto.
Qed.

Lemma capacity_load (db_allocations : dict (dict Z)) (rows : dict (status * Z)) :
  records_nonnegative db_allocations ->
  forall om, records_nonnegative (pending_requests om) ->
    rm (fold_left (load_order db_allocations) rows om) = rm om
    /\ records_nonnegative
         (pending_requests (fold_left (load_order db_allocations) rows om)).
Proof.
  intros Hdb. induction rows as [|[o [st p]] rows IH]; cbn [fold_left]; intros om Hp;
    [auto|].
  destruct (IH (load_order db_allocations om (o, (st, p)))) as [Hrm Hpend].
  - destruct st; simpl; auto. apply Forall_set; [|assumption].
    simpl. now apply get_or_records_nonnegative.
  - rewrite Hrm. split; [|exact Hpend]. now destruct st.
Qed.

Lemma capacity_init (resources : dict Z) (db_orders : dict (status * Z))
    (db_allocations : dict (dict Z)) :
  nonnegative resources -> records_wf db_allocations ->
  records_nonnegative db_allocations ->
  capacity_sound
    (OrderManager_init (ResourceManager_init (Some resources) []) db_orders
                       db_allocations).
Proof.
  intros Hres Hwf Hnn. split; [now apply sound_init|].
  unfold OrderManager_init.
  destruct (capacity_load db_allocations db_orders Hnn
              {| rm := ResourceManager_init (Some resources) [];
                 orders := []; pending_requests := []; order_priorities := [];
                 holding_orders := [] |}) as [Hrm Hpend]; [constructor|].
  rewrite Hrm. simpl. repeat split; [|constructor|exact Hpend].
  intros r. now apply get_or_nonnegative.
Qed.

Lemma capacity_step (op : operation) (om om' : OrderManager) :
  dict_arguments op -> no_regrant op om -> nonnegative_arguments op ->
  run op om = Ok om' -> capacity_sound om -> capacity_sound om'.
Proof.
  intros Hd Hn Hq Hrun (Hs & Hpos & Hrec & Hpend).
  split; [now apply (sound_step op om om')|].
  destruct op; simpl in Hd, Hq, Hrun.
  - apply bind_Ok in Hrun. destruct Hrun as [[ok l] [H Hrun]]. injection Hrun as <-.
    simpl. destruct (request_capacity_step _ _ _ _ _ Hd Hq H (conj Hpos Hrec)). auto.
  - apply bind_Ok in Hrun. destruct Hrun as [l [H Hrun]]. injection Hrun as <-.
    simpl. destruct (release_capacity_step _ _ _ H (conj Hpos Hrec)). auto.
  - apply bind_Ok in Hrun. destruct Hrun as [l [H Hrun]]. injection Hrun as <-.
    apply preempt_Ok in H.
    simpl. destruct (release_capacity_step _ _ _ H (conj Hpos Hrec)). auto.
  - injection Hrun as <-. simpl.
    destruct (add_virtual_resources_listed additions (rm om) "") as (_ & _ & Hal).
    rewrite Hal. repeat split; auto. intros r.
    destruct (add_virtual_resources_listed additions (rm om) r) as (_ & Ha & _).
    rewrite Ha. pose proof (listed_nonnegative r additions Hq). specialize (Hpos r). lia.
  - injection Hrun as <-. simpl. repeat split; auto. now apply Forall_set.
  - apply process_orders_moves in Hrun. destruct Hrun as [g (Hg & _ & Hp)].
    pose proof (sorted_perm (fun x => get_or (fst x) (order_priorities om) 5)
                            (pending_requests om)) as Hperm.
    fold (sorted_requests om) in Hperm.
    destruct Hs as (_ & _ & Hrwf).
    assert (Hl : (forall r, 0 <= get_or r (available_resources (rm om')) 0)
                 /\ records_nonnegative (allocated_resources (rm om'))).
    { apply (greedy_pass_preserves
               (fun l => (forall r, 0 <= get_or r (available_resources l) 0)
                         /\ records_nonnegative (allocated_resources l))
               (sorted_requests om)) with (l := rm om) (granted_orders := g); auto.
      intros o r l ok l1 Hin HP H1.
      apply (Permutation_in _ Hperm) in Hin.
      unfold records_wf in Hrwf. unfold records_nonnegative in Hpend.
      rewrite Forall_forall in Hrwf, Hpend.
      apply (request_capacity_step o r l l1 ok); auto.
      - exact (Hrwf _ Hin).
      - exact (Hpend _ Hin). }
    destruct Hl as [Hpos' Hrec']. repeat split; auto.
    rewrite Hp. now apply Forall_move_out.
  - unfold release_order in Hrun. apply bind_Ok in Hrun.
    destruct Hrun as [l [H Hrun]]. injection Hrun as <-. simpl.
    rewrite discard_absent.
    destruct (release_capacity_step _ _ _ H (conj Hpos Hrec)).
    repeat split; auto. now apply Forall_remove.
  - unfold cancel_order, release_order in Hrun. apply bind_Ok in Hrun.
    destruct Hrun as [l [H Hrun]]. injection Hrun as <-. simpl.
    rewrite discard_absent.
    destruct (release_capacity_step _ _ _ H (conj Hpos Hrec)).
    repeat split; auto. now apply Forall_remove.
  - injection Hrun as <-. unfold reschedule_order.
    destruct (contains order_id (order_priorities om)); simpl; auto.
Qed.

(** X5: From a ledger built with non-negative capacities, as long as only
    non-negative quantities are requested or added and no request is made for
    an order that holds an allocation, every available quantity stays between
    0 and the total of its resource. *)
Theorem available_within_capacity (resources : dict Z)
    (db_orders : dict (status * Z)) (db_allocations : dict (dict Z))
    (om : OrderManager) :
  nonnegative resources ->
  records_wf db_allocations -> records_nonnegative db_allocations ->
  reachable (fun op om => dict_arguments op /\ no_regrant op om
                          /\ nonnegative_arguments op)
            (OrderManager_init (ResourceManager_init (Some resources) [])
                               db_orders db_allocations) om ->
  within_capacity (rm om).
Proof.
  intros Hres Hwf Hnn Hreach.
  assert (Hc : capacity_sound om).
  { induction Hreach as [|op om om' _ IH (Hd & Hn & Hq) Hrun].
    - now apply capacity_init.
    - now apply (capacity_step op om om'). }
  destruct Hc as (((Hcons & _) & _) & Hpos & Hrec & _).
  intros r. split; [apply Hpos|].
  pose proof (held_nonnegative r _ Hrec). specialize (Hcons r). lia.
Qed.

Lemma available_within_capacity_witness : within_capacity (rm first_served).
Proof.
  apply (available_within_capacity [("Oven"%string, 1)] [] []).
  - intros res qty [E|[]]. injection E as <- <-. lia.
  - constructor.
  - constructor.
  - assert (Hreq : nonnegative [("Oven"%string, 1)]).
    { intros res qty [E|[]]. injection E as <- <-. lia. }
    apply reachable_step with (op := ProcessOrders) (om := two_orders);
      [|split; [exact I | split; [intros order_id _; reflexivity | exact I]]
       | reflexivity].
    apply reachable_step
      with (op := CreateOrder "Order2"%string [("Oven"%string, 1)] 2)
           (om := create_order "Order1"%string [("Oven"%string, 1)] 1 one_oven);
      [|split; [apply nodup_keys_wf; reflexivity | split; [exact I | exact Hreq]]
       | reflexivity].
    apply reachable_step
      with (op := CreateOrder "Order1"%string [("Oven"%string, 1)] 1) (om := one_oven);
      [|split; [apply nodup_keys_wf; reflexivity | split; [exact I | exact Hreq]]
       | reflexivity].
    apply reachable_init.
Defined.

(** ** Orders of equal priority *)

Lemma insert_by_filter {A : Type} (key : A -> Z) (k : Z) (x : A) (xs : list A) :
  filter (fun y => key y =? k) (insert_by key x xs)
  = filter (fun y => key y =? k) (x :: xs).
Proof.
  induction xs as [|y ys IH]; [reflexivity|].
  cbn [insert_by]. destruct (Z.leb_spec (key x) (key y)) as [Hle|Hgt]; [reflexivity|].
  cbn [filter] in *. rewrite IH.
  destruct (Z.eqb_spec (key y) k) as [Hy|Hy]; destruct (Z.eqb_spec (key x) k) as [Hx|Hx];
    try reflexivity.
  lia.
Qed.

Lemma sorted_filter {A : Type} (key : A -> Z) (k : Z) (xs : list A) :
  filter (fun y => key y =? k) (sorted key xs) = filter (fun y => key y =? k) xs.
Proof.
  induction xs as [|x xs IH]; [reflexivity|].
  cbn [sorted]. rewrite insert_by_filter. cbn [filter]. now rewrite IH.
Qed.

(** X6: The pass attempts orders of equal priority in the order in which they
    were entered in [pending_requests]. *)
Theorem equal_priorities_keep_insertion_order (om : OrderManager) (priority : Z) :
  filter (fun entry => priority_of om entry =? priority) (sorted_requests om)
  = filter (fun entry => priority_of om entry =? priority) (pending_requests om).
Proof. apply (sorted_filter (priority_of om)). Qed.

(** ** Rescheduling *)

(** X7: [reschedule_order] touches nothing but the priority of the given order:
    ledger, allocated map, pending map and the set of ids with a priority stay
    as they are, the other priorities stay as they are, and for an id without
    priority the whole state is unchanged (no entry is created). *)
Theorem reschedule_order_effect (order_id : string) (new_priority : Z)
    (om : OrderManager) :
  let om' := reschedule_order order_id new_priority om in
  rm om' = rm om /\ orders om' = orders om
  /\ pending_requests om' = pending_requests om
  /\ keys (order_priorities om') = keys (order_priorities om)
  /\ (forall other, other <> order_id ->
        get other (order_priorities om') = get other (order_priorities om))
  /\ (contains order_id (order_priorities om) = true ->
        get order_id (order_priorities om') = Some new_priority)
  /\ (contains order_id (order_priorities om) = false -> om' = om).
Proof.
  unfold reschedule_order.
  destruct (contains order_id (order_priorities om)) eqn:E; simpl.
  - repeat split; auto.
    + apply keys_set_known. now apply contains_true_iff.
    + intros other Hne. apply get_set_neq. congruence.
    + intros _. apply get_set_eq.
    + discriminate.
  - repeat split; auto. discriminate.
Qed.

(** ** Creating and releasing an order *)

(** X8: [release_order] undoes [create_order] for an id that was unknown to the
    ledger and to the coordinator. *)
Theorem create_then_release (order_id : string) (resource_request : dict Z)
    (priority : Z) (om : OrderManager) :
  contains order_id (allocated_resources (rm om)) = false ->
  contains order_id (orders om) = false ->
  contains order_id (pending_requests om) = false ->
  contains order_id (order_priorities om) = false ->
  release_order order_id (create_order order_id resource_request priority om) = Ok om.
Proof.
  intros Ha Ho Hp Hq. unfold release_order, create_order. simpl.
  rewrite (release_absent _ _ Ha). cbn [bind].
  rewrite Ho, !contains_set, String.eqb_refl.
  rewrite (remove_set_fresh _ _ _ Hp), (remove_set_fresh _ _ _ Hq).
  now destruct om.
Qed.

Lemma create_then_release_witness :
  release_order "Order1"%string
    (create_order "Order1"%string [("Oven"%string, 1)] 1 one_oven) = Ok one_oven.
Proof. apply create_then_release; reflexivity. Defined.

(** X9: [release_order] leaves every other order as it is: its allocation in the
    ledger, its entry in the allocated map, its pending request and its
    priority. *)
Theorem release_order_spares_others (order_id other : string) (om om' : OrderManager) :
  release_order order_id om = Ok om' ->
  other <> order_id ->
  get other (allocated_resources (rm om')) = get other (allocated_resources (rm om))
  /\ get other (orders om') = get other (orders om)
  /\ get other (pending_requests om') = get other (pending_requests om)
  /\ get other (order_priorities om') = get other (order_priorities om).
Proof.
  intros H Hne. unfold release_order in H. apply bind_Ok in H.
  destruct H as [l [Hr H]]. injection H as <-. simpl. rewrite !discard_absent.
  rewrite !get_remove_neq by congruence. repeat split.
  destruct (get order_id (allocated_resources (rm om))) as [held_by|] eqn:E.
  - apply (release_Ok _ _ _ _ E) in Hr. destruct Hr as (_ & _ & _ & Hal & _).
    rewrite Hal. apply get_remove_neq. congruence.
  - rewrite release_absent in Hr by (unfold contains; now rewrite E).
    now injection Hr as <-.
Qed.

Lemma release_order_spares_others_witness :
  get "Order2"%string (pending_requests
        (mkOM (mkRM [("Oven"%string, 1)] [("Oven"%string, 1)] [])
              [] [("Order2"%string, [("Oven"%string, 1)])] [("Order2"%string, 2)] []))
  = get "Order2"%string (pending_requests first_served).
Proof.
  apply (release_order_spares_others "Order1"%string "Order2"%string first_served).
  - reflexivity.
  - discriminate.
Defined.

(** ** Preempting from the dashboard *)

(** X10: Preempting a selected order and then releasing it, as the dashboard
    does, is the same as releasing it: the second release finds nothing to
    give back. *)
Theorem preempt_selected_is_release (order_id : string) (om : OrderManager) :
  preempt_selected order_id om = release_order order_id om.
Proof.
  unfold preempt_selected, release_order.
  destruct (preempt_resources order_id (rm om)) as [l|e] eqn:Hp;
    apply (f_equal (fun x => x)) in Hp.
  - pose proof (preempt_Ok _ _ _ Hp) as Hr. rewrite Hr. cbn [bind with_rm rm].
    assert (Ha : contains order_id (allocated_resources l) = false).
    { destruct (get order_id (allocated_resources (rm om))) as [held_by|] eqn:E.
      - apply (release_Ok _ _ _ _ E) in Hr. destruct Hr as (_ & _ & _ & Hal & _).
        rewrite Hal. apply contains_remove_eq.
      - assert (Hc : contains order_id (allocated_resources (rm om)) = false)
          by (unfold contains; now rewrite E).
        rewrite (release_absent _ _ Hc) in Hr. now injection Hr as <-. }
    rewrite (release_absent _ _ Ha). reflexivity.
  - unfold preempt_resources in Hp. unfold release_resources.
    destruct (contains order_id (allocated_resources (rm om))); [|discriminate].
    rewrite Hp. reflexivity.
Qed.

(** ** A second pass *)

Lemma can_allocate_antitone (request : dict Z) (l l' : ResourceManager) :
  (forall r, get_or r (available_resources l') 0 <= get_or r (available_resources l) 0) ->
  _can_allocate request l = false -> _can_allocate request l' = false.
Proof.
  intros Hle Hno. destruct (_can_allocate request l') eqn:E; [|reflexivity].
  apply can_allocate_iff in E.
  assert (Hsat : satisfiable request l).
  { intros res qty HI. specialize (E _ _ HI). specialize (Hle res). lia. }
  apply can_allocate_iff in Hsat. congruence.
Qed.

Lemma greedy_pass_available_le (queue : list (string * dict Z)) (l l' : ResourceManager)
    (granted_orders : list (string * dict Z)) :
  records_nonnegative queue ->
  greedy_pass queue l = Ok (granted_orders, l') ->
  forall r, get_or r (available_resources l') 0 <= get_or r (available_resources l) 0.
Proof.
  intros Hnn Hg.
  apply (greedy_pass_preserves
           (fun l0 => forall r, get_or r (available_resources l0) 0
                                <= get_or r (available_resources l) 0)
           queue) with (l := l) (granted_orders := granted_orders); auto; [|intros; lia].
  intros o req l0 ok l1 Hin HP H1 r. apply request_resources_Ok in H1.
  destruct H1 as [(_ & -> & _)|(_ & _ & Ha)]; [apply HP|].
  apply allocate_Ok in Ha. destruct Ha as (_ & _ & Hv & _). rewrite Hv.
  unfold records_nonnegative in Hnn. rewrite Forall_forall in Hnn.
  pose proof (listed_nonnegative r req (Hnn _ Hin)). specialize (HP r). lia.
Qed.

(** After the pass, no order that was passed over can be granted. *)
Lemma greedy_pass_refused (queue : list (string * dict Z)) :
  forall (l l' : ResourceManager) (granted_orders : list (string * dict Z)),
    records_nonnegative queue ->
    greedy_pass queue l = Ok (granted_orders, l') ->
    forall entry, In entry queue -> ~ In (fst entry) (keys granted_orders) ->
                  _can_allocate (snd entry) l' = false.
Proof.
  induction queue as [|[o r] queue IH]; intros l l' g Hnn H entry Hin Hout;
    [contradiction|].
  inversion Hnn as [|? ? Hr Hnn']; subst.
  cbn [greedy_pass] in H.
  apply bind_Ok in H. destruct H as [[ok l1] [H1 H]].
  apply bind_Ok in H. destruct H as [[g1 l2] [Hg H]]. injection H as <- <-.
  destruct Hin as [<-|Hin].
  - simpl in *. apply request_resources_Ok in H1.
    destruct H1 as [(-> & -> & Hno)|(-> & _ & _)].
    + apply (can_allocate_antitone r l l2); [|exact Hno].
      now apply (greedy_pass_available_le queue l l2 g1).
    + exfalso. apply Hout. now left.
  - apply (IH l1 l2 g1 Hnn' Hg entry Hin). intros HI. apply Hout.
    destruct ok; [right|]; exact HI.
Qed.

Lemma try_orders_all_refused (queue : list (string * dict Z)) (om : OrderManager)
    (to_remove : list string) :
  (forall entry, In entry queue -> _can_allocate (snd entry) (rm om) = false) ->
  for_each try_order queue (om, to_remove) = Ok (om, to_remove).
Proof.
  induction queue as [|[o r] queue IH]; cbn [for_each]; intros H; [reflexivity|].
  unfold try_order at 1. pose proof (H (o, r) (or_introl eq_refl)) as Hno.
  simpl in Hno. rewrite Hno. cbn [bind].
  apply IH. intros e He. apply H. now right.
Qed.

Lemma In_move_out (granted_orders : list (string * dict Z)) (d : dict (dict Z))
    (entry : string * dict Z) :
  In entry (move_out granted_orders d) ->
  In entry d /\ ~ In (fst entry) (keys granted_orders).
Proof.
  unfold move_out. revert d.
  induction granted_orders as [|[o r] g IH]; simpl; intros d H; [tauto|].
  apply IH in H. destruct H as [H Hn]. unfold remove in H. apply filter_In in H.
  destruct H as [H Hne]. simpl in Hne. apply negb_true_iff, String.eqb_neq in Hne.
  split; [assumption|]. intros [E|HI]; [congruence | contradiction].
Qed.

(** X11: When no pending quantity is negative, a pass directly after a pass
    grants nothing and changes nothing: the orders left pending were refused
    with at least as much available as there is now. *)
Theorem process_orders_twice (om om' : OrderManager) :
  records_nonnegative (pending_requests om) ->
  process_orders om = Ok om' ->
  process_orders om' = Ok om'.
Proof.
  intros Hnn H. apply process_orders_moves in H.
  destruct H as [g (Hg & _ & Hp)].
  pose proof (sorted_perm (fun x => get_or (fst x) (order_priorities om) 5)
                          (pending_requests om)) as Hperm.
  fold (sorted_requests om) in Hperm.
  assert (Hq : records_nonnegative (sorted_requests om)).
  { unfold records_nonnegative in *. rewrite Forall_forall in *.
    intros e He. apply Hnn. apply (Permutation_in _ Hperm He). }
  unfold process_orders. rewrite try_orders_all_refused; [now destruct om'|].
  intros e He.
  apply (Permutation_in _ (sorted_perm _ _)) in He. rewrite Hp in He.
  apply In_move_out in He. destruct He as [He Hout].
  apply (greedy_pass_refused _ _ _ _ Hq Hg); [|exact Hout].
  apply (Permutation_in _ (Permutation_sym Hperm) He).
Qed.

Lemma process_orders_twice_witness : process_orders first_served = Ok first_served.
Proof.
  apply (process_orders_twice two_orders first_served).
  - repeat constructor; intros res qty [E|[]]; injection E as <- <-; lia.
  - reflexivity.
Defined.

(** ** Loading the stored orders *)

Lemma load_order_other (db_allocations : dict (dict Z)) (om : OrderManager)
    (row : string * (status * Z)) (order_id : string) :
  order_id <> fst row ->
  let om' := load_order db_allocations om row in
  rm om' = rm om
  /\ get order_id (orders om') = get order_id (orders om)
  /\ get order_id (pending_requests om') = get order_id (pending_requests om)
  /\ get order_id (order_priorities om') = get order_id (order_priorities om).
Proof.
  destruct row as [o [st p]]. simpl. intros Hne.
  destruct st; simpl; rewrite ?get_set_neq by congruence; auto.
Qed.

Lemma load_orders_other (db_allocations : dict (dict Z)) (rows : dict (status * Z))
    (order_id : string) :
  ~ In order_id (keys rows) ->
  forall om,
    let om' := fold_left (load_order db_allocations) rows om in
    rm om' = rm om
    /\ get order_id (orders om') = get order_id (orders om)
    /\ get order_id (pending_requests om') = get order_id (pending_requests om)
    /\ get order_id (order_priorities om') = get order_id (order_priorities om).
Proof.
  induction rows as [|row rows IH]; cbn [fold_left]; intros Hn om; [auto|].
  simpl in Hn.
  destruct (IH (fun H => Hn (or_intror H)) (load_order db_allocations om row))
    as (H1 & H2 & H3 & H4).
  destruct (load_order_other db_allocations om row order_id) as (G1 & G2 & G3 & G4).
  { intros E. apply Hn. now left. }
  cbv zeta in *. repeat split; congruence.
Qed.

(** X12: [OrderManager.__init__] keeps the ledger it is given and gives every
    stored order its stored priority; an order stored as allocated is in the
    allocated map only, one stored as pending in the pending map only, each
    with its stored resource map (empty if there is none), and an order with
    another status is in neither. *)
Theorem OrderManager_init_loads (l : ResourceManager) (db_orders : dict (status * Z))
    (db_allocations : dict (dict Z)) (order_id : string) (st : status) (priority : Z) :
  wf db_orders ->
  In (order_id, (st, priority)) db_orders ->
  let om := OrderManager_init l db_orders db_allocations in
  rm om = l
  /\ get order_id (order_priorities om) = Some priority
  /\ match st with
     | allocated =>
         get order_id (orders om) = Some (get_or order_id db_allocations [])
         /\ get order_id (pending_requests om) = None
     | pending =>
         get order_id (pending_requests om) = Some (get_or order_id db_allocations [])
         /\ get order_id (orders om) = None
     | other_status =>
         get order_id (orders om) = None /\ get order_id (pending_requests om) = None
     end.
Proof.
  unfold OrderManager_init, wf.
  set (om0 := {| rm := l; orders := []; pending_requests := [];
                 order_priorities := []; holding_orders := [] |}).
  intros Hnd Hin.
  assert (G : forall rows om,
             NoDup (keys rows) -> In (order_id, (st, priority)) rows ->
             get order_id (orders om) = None ->
             get order_id (pending_requests om) = None ->
             let om' := fold_left (load_order db_allocations) rows om in
             rm om' = rm om
             /\ get order_id (order_priorities om') = Some priority
             /\ match st with
                | allocated =>
                    get order_id (orders om') = Some (get_or order_id db_allocations [])
                    /\ get order_id (pending_requests om') = None
                | pending =>
                    get order_id (pending_requests om')
                    = Some (get_or order_id db_allocations [])
                    /\ get order_id (orders om') = None
                | other_status =>
                    get order_id (orders om') = None
                    /\ get order_id (pending_requests om') = None
                end).
  { induction rows as [|row rows IH]; cbn [fold_left]; intros om Hnd' Hin' Ho Hp;
      [contradiction|].
    simpl in Hnd'. inversion Hnd' as [|? ? Hnot Hrest]; subst.
    destruct Hin' as [->|Hin'].
    - simpl in Hnot.
      destruct (load_orders_other db_allocations rows order_id Hnot
                  (load_order db_allocations om (order_id, (st, priority))))
        as (H1 & H2 & H3 & H4).
      cbv zeta in *. rewrite H1, H2, H3, H4.
      destruct st; simpl; rewrite ?get_set_eq; auto.
    - assert (Hne : order_id <> fst row).
      { intros E. apply Hnot. rewrite <- E.
        now apply (in_map fst) in Hin'. }
      destruct (load_order_other db_allocations om row order_id Hne)
        as (G1 & G2 & G3 & G4).
      destruct (IH (load_order db_allocations om row) Hrest Hin') as (H1 & H2 & H3);
        [congruence | congruence |].
      cbv zeta in *. rewrite H1. auto. }
  destruct (G db_orders om0 Hnd Hin) as (H1 & H2 & H3); [reflexivity | reflexivity |].
  cbv zeta in *. rewrite H1. auto.
Qed.

Lemma OrderManager_init_loads_witness :
  let om := OrderManager_init (ResourceManager_init (Some [("Oven"%string, 1)]) [])
              [("Order1"%string, (allocated, 1)); ("Order2"%string, (pending, 2))]
              [("Order1"%string, [("Oven"%string, 1)])] in
  rm om = ResourceManager_init (Some [("Oven"%string, 1)]) []
  /\ get "Order2"%string (order_priorities om) = Some 2
  /\ get "Order2"%string (pending_requests om)
     = Some (get_or "Order2"%string [("Order1"%string, [("Oven"%string, 1)])] [])
     /\ get "Order2"%string (orders om) = None.
Proof.
  apply (OrderManager_init_loads
           (ResourceManager_init (Some [("Oven"%string, 1)]) [])
           [("Order1"%string, (allocated, 1)); ("Order2"%string, (pending, 2))]
           [("Order1"%string, [("Oven"%string, 1)])] "Order2"%string pending 2).
  - apply nodup_keys_wf. reflexivity.
  - right. left. reflexivity.
Defined.

(** ** Operations that return *)

Lemma process_orders_returns_witness : exists om', process_orders two_orders = Ok om'.
Proof.
  apply process_orders_returns.
  - intros r H. exact H.
  - intros order_id request H. simpl in H.
    destruct H as [E|[E|[]]]; injection E as <- <-; simpl; split; auto;
      intros res [<-|[]]; now left.
Defined.

Lemma release_order_returns_witness :
  exists om1, release_order "Order1"%string first_served = Ok om1.
Proof.
  apply release_order_returns.
  - intros r H. exact H.
  - intros held_by res H. vm_compute in H. injection H as <-.
    intros [<-|[]]. now left.
Defined.

(** ** Reported cycles are cycles *)

Lemma chain_suffix (wfg : graph) (pre l : list string) :
  chain wfg (pre ++ l) -> chain wfg l.
Proof.
  induction pre as [|a pre IH]; [auto|]. simpl.
  destruct (pre ++ l) eqn:E; [|intros [_ H]; now apply IH].
  apply app_eq_nil in E. destruct E as [_ ->]. intros _. exact I.
Qed.

Lemma chain_snoc (wfg : graph) (p : list string) (a b : string) :
  chain wfg (p ++ [a]) -> edge wfg a b -> chain wfg ((p ++ [a]) ++ [b]).
Proof.
  intros Hc He. induction p as [|c p IH]; simpl in *; [auto|].
  destruct (p ++ [a]) as [|d q] eqn:E; [now destruct p|].
  simpl. destruct Hc as [Hcd Hq]. split; [assumption|]. now apply IH.
Qed.

Lemma chain_next (wfg : graph) (l : list string) (z : string) :
  chain wfg (l ++ [z]) ->
  forall a, In a l -> exists b, In b (l ++ [z]) /\ edge wfg a b.
Proof.
  induction l as [|a0 l IH]; simpl; intros Hc a Ha; [contradiction|].
  destruct (l ++ [z]) as [|b0 q] eqn:E; [now destruct l|].
  destruct Hc as [Hab Hq]. destruct Ha as [<-|Ha].
  - exists b0. split; [right; now left | assumption].
  - destruct (IH Hq a Ha) as [b [Hb He]]. exists b. split; [now right | assumption].
Qed.

Lemma index_Ok (x : string) (l : list string) (i : nat) :
  index x l = Ok i -> exists pre suf, l = pre ++ x :: suf /\ skipn i l = x :: suf.
Proof.
  revert i. induction l as [|y l IH]; simpl; intros i H; [discriminate|].
  destruct (String.eqb_spec x y) as [->|Hne].
  - injection H as <-. exists [], l. auto.
  - apply bind_Ok in H. destruct H as [j [Hj H]]. injection H as <-.
    destruct (IH j Hj) as [pre [suf [-> Hs]]]. exists (y :: pre), suf. auto.
Qed.

(** The nodes from [x] to the end of a path that ends in [node], with an
    edge from [node] back to [x], form a knot. *)
Lemma cycle_is_knot (wfg : graph) (p pre suf : list string) (node x : string) :
  chain wfg (p ++ [node]) ->
  p ++ [node] = pre ++ x :: suf ->
  edge wfg node x ->
  knot wfg (set_of_list (x :: suf)).
Proof.
  intros Hc E Hback.
  destruct (exists_last (l := x :: suf)) as [l0 [z El]]; [discriminate|].
  assert (Ez : z = node).
  { rewrite El, app_assoc in E. apply app_inj_tail in E. now destruct E. }
  subst z. rewrite E, El in Hc. apply chain_suffix in Hc.
  split.
  - intros Hnil. assert (Hx : In x (set_of_list (x :: suf)))
      by (apply In_set_of_list; now left).
    rewrite Hnil in Hx. contradiction.
  - intros a Ha. apply (proj1 (In_set_of_list _ _)) in Ha. rewrite El in Ha.
    apply in_app_or in Ha. destruct Ha as [Ha|[<-|[]]].
    + destruct (chain_next wfg l0 node Hc a Ha) as [b [Hb He]].
      exists b. split; [|assumption]. apply In_set_of_list. now rewrite El.
    + exists x. split; [|assumption]. apply In_set_of_list. now left.
Qed.

Lemma successor_edge (wfg : graph) (node n : string) :
  In n (get_or node wfg []) -> edge wfg node n.
Proof.
  unfold get_or, edge. destruct (get node wfg) as [waiting|]; [eauto | intros []].
Qed.

(** [dfs] reports only knots, and gives the path back as it received it
    when it finds nothing. *)
Lemma dfs_sound (wfg : graph) (fuel : nat) :
  forall (node : string) (st : dfs_state) (found : bool) (st' : dfs_state),
    dfs fuel wfg node st = Ok (found, st') ->
    chain wfg (path st ++ [node]) ->
    Forall (knot wfg) (deadlocks st) ->
    Forall (knot wfg) (deadlocks st') /\ (found = false -> path st' = path st).
Proof.
  induction fuel as [|fuel IH]; intros node st found st' H Hchain Hk; [discriminate|].
  cbn [dfs] in H.
  set (entered := {| visited := set_add node (visited st);
                     stack := set_add node (stack st);
                     path := path st ++ [node];
                     deadlocks := deadlocks st |}) in H.
  assert (Hpath : path entered = path st ++ [node]) by reflexivity.
  assert (Hk' : Forall (knot wfg) (deadlocks entered)) by exact Hk.
  pose proof (successor_edge wfg node) as Hsucc.
  revert H Hpath Hk' Hsucc.
  generalize entered as cur. generalize (get_or node wfg []) as neighbors.
  induction neighbors as [|neighbor rest IHn]; intros cur H Hpath Hk' Hsucc.
  - injection H as <- <-. simpl. split; [assumption|]. intros _.
    rewrite Hpath. apply removelast_last.
  - destruct (set_mem neighbor (visited cur)) eqn:Hv; cbn [negb] in H.
    + destruct (set_mem neighbor (stack cur)).
      * apply bind_Ok in H. destruct H as [i [Hi H]]. injection H as <- <-.
        simpl. split; [|discriminate].
        apply Forall_app. split; [assumption|]. constructor; [|constructor].
        apply index_Ok in Hi. destruct Hi as [pre [suf [E ->]]].
        apply (cycle_is_knot wfg (path st) pre suf node neighbor).
        -- exact Hchain.
        -- now rewrite <- Hpath.
        -- apply Hsucc. now left.
      * apply (IHn cur H Hpath Hk'). intros n Hn. apply Hsucc. now right.
    + apply bind_Ok in H. destruct H as [[f st1] [H1 H]].
      destruct (IH neighbor cur f st1 H1) as [Hk1 Hp1].
      * rewrite Hpath. apply chain_snoc; [assumption|]. apply Hsucc. now left.
      * exact Hk'.
      * destruct f.
        -- injection H as <- <-. split; [assumption | discriminate].
        -- apply (IHn st1 H); [|assumption|].
           ++ rewrite Hp1 by reflexivity. exact Hpath.
           ++ intros n Hn. apply Hsucc. now right.
Qed.

Lemma detect_deadlocks_knots (wfg : graph) (cycles : list (list string)) :
  detect_deadlocks wfg = Ok cycles -> Forall (knot wfg) cycles.
Proof.
  unfold detect_deadlocks. intros H. apply bind_Ok in H.
  destruct H as [st [H E]]. injection E as <-.
  assert (G : forall (roots : list string) (st0 st1 : dfs_state),
             for_each (dfs_root wfg) roots st0 = Ok st1 ->
             Forall (knot wfg) (deadlocks st0) -> Forall (knot wfg) (deadlocks st1)).
  { induction roots as [|root roots IHr]; cbn [for_each]; intros st0 st1 H0 Hk.
    - now injection H0 as <-.
    - apply bind_Ok in H0. destruct H0 as [st2 [H2 H0]].
      apply (IHr st2 st1 H0). unfold dfs_root in H2.
      destruct (set_mem root (visited st0)); cbn [negb] in H2.
      + now injection H2 as <-.
      + apply bind_Ok in H2. destruct H2 as [[f st3] [H3 H2]]. injection H2 as <-.
        apply (dfs_sound _ _ _ _ _ _ H3); [exact I | exact Hk]. }
  exact (G _ _ _ H (Forall_nil _)).
Qed.

(** X15: Every group that [detect_deadlocks] reports is not empty, and each of
    its members has an edge to one of its members. *)
Theorem detect_deadlocks_sound (wfg : graph) (cycles : list (list string)) :
  detect_deadlocks wfg = Ok cycles ->
  forall cycle, In cycle cycles -> knot wfg cycle.
Proof.
  intros H cycle Hin. apply detect_deadlocks_knots in H.
  rewrite Forall_forall in H. now apply H.
Qed.

Lemma detect_deadlocks_sound_witness :
  knot [("A"%string, ["B"%string]); ("B"%string, ["A"%string])]
       ["A"%string; "B"%string].
Proof.
  apply (detect_deadlocks_sound
           [("A"%string, ["B"%string]); ("B"%string, ["A"%string])]
           [["A"%string; "B"%string]]).
  - reflexivity.
  - now left.
Defined.

(** ** What [detect] reports *)

Lemma wait_for_graph_built (l : ResourceManager) (requests : dict (dict Z)) :
  exists wfg,
    build_wait_for_graph l requests = Ok wfg /\
    forall a b, edge wfg a b <-> blocked_on (allocated_resources l) requests a b.
Proof.
  unfold build_wait_for_graph.
  set (allocations := allocated_resources l).
  set (all_orders := set_union (set_of_list (keys allocations))
                               (set_of_list (keys requests))).
  destruct (empty_graph_spec all_orders []) as [Hnodes Hnone].
  { intros a [b [waiting [Hg _]]]. discriminate. }
  set (g0 := fold_left (fun wfg order_id => set order_id [] wfg) all_orders []) in *.
  destruct (for_each_edges (add_request allocations)
              (fun entry a b =>
                 a = fst entry /\ a <> b /\
                 exists res qty alloc,
                   In (res, qty) (snd entry) /\ In (b, alloc) allocations
                   /\ 0 < get_or res alloc 0)
              (keys g0) requests) with (g := g0) as [g' [H [Hk He]]]; auto.
  - intros [order_id req] g1 HI Hk1.
    destruct (add_request_spec allocations order_id req g1) as [g2 [H2 [Hk2 He2]]].
    + rewrite Hk1. apply Hnodes. right. unfold all_orders.
      apply In_set_union. right. apply In_set_of_list.
      now apply (in_map fst) in HI.
    + exists g2. repeat split; try congruence; apply He2.
  - exists g'. split; [exact H|].
    intros a b. rewrite He. unfold blocked_on. split.
    + intros [Hab|[[order_id req] [HI (-> & Hne & res & qty & alloc & Hr & Ha & Hpos)]]].
      * now apply Hnone in Hab.
      * split; [assumption|]. exists req, res, qty, alloc. auto.
    + intros (Hne & req & res & qty & alloc & HI & Hr & Ha & Hpos).
      right. exists (a, req). repeat split; auto. exists res, qty, alloc. auto.
Qed.

(** X16: No false deadlock: every group that [detect] reports is not empty, and
    each of its orders has a pending request for a resource that another order
    of the group holds. *)
Theorem detect_sound (l : ResourceManager) (requests : dict (dict Z))
    (cycles : list (list string)) :
  detect l requests = Ok cycles ->
  forall cycle, In cycle cycles ->
    cycle <> [] /\
    forall a, In a cycle ->
      exists b, In b cycle /\ blocked_on (allocated_resources l) requests a b.
Proof.
  unfold detect. intros H cycle Hin.
  destruct (wait_for_graph_built l requests) as [wfg [Hb He]].
  rewrite Hb in H. cbn [bind] in H.
  assert (Hk : knot wfg cycle).
  { apply detect_deadlocks_knots in H. rewrite Forall_forall in H. now apply H. }
  destruct Hk as [Hne Hall]. split; [exact Hne|].
  intros a Ha. destruct (Hall a Ha) as [b [Hb' Hab]].
  exists b. split; [assumption | now apply He].
Qed.

Lemma detect_sound_witness :
  ["A"%string; "B"%string] <> [] /\
  forall a, In a ["A"%string; "B"%string] ->
    exists b, In b ["A"%string; "B"%string] /\
      blocked_on [("A"%string, [("Oven"%string, 1)]); ("B"%string, [("Chef"%string, 1)])]
                 [("A"%string, [("Chef"%string, 1)]); ("B"%string, [("Oven"%string, 1)])]
                 a b.
Proof.
  apply (detect_sound
           (mkRM [] [] [("A"%string, [("Oven"%string, 1)]);
                        ("B"%string, [("Chef"%string, 1)])])
           [("A"%string, [("Chef"%string, 1)]); ("B"%string, [("Oven"%string, 1)])]
           [["A"%string; "B"%string]]).
  - reflexivity.
  - now left.
Defined.

Lemma dfs_without_successors (wfg : graph) (fuel : nat) (node : string)
    (st : dfs_state) :
  get_or node wfg [] = [] ->
  exists st', dfs (S fuel) wfg node st = Ok (false, st')
              /\ deadlocks st' = deadlocks st.
Proof.
  intros H. cbn [dfs]. rewrite H. eexists. split; reflexivity.
Qed.

Lemma detect_deadlocks_without_edges (wfg : graph) :
  (forall a b, ~ edge wfg a b) -> detect_deadlocks wfg = Ok [].
Proof.
  intros Hnone.
  assert (Hadj : forall node, get_or node wfg [] = []).
  { intros node. unfold get_or. destruct (get node wfg) as [[|b waiting]|] eqn:E;
      try reflexivity.
    exfalso. apply (Hnone node b). exists (b :: waiting). split; [assumption | now left]. }
  unfold detect_deadlocks.
  assert (G : forall (roots : list string) (st : dfs_state),
             exists st', for_each (dfs_root wfg) roots st = Ok st'
                         /\ deadlocks st' = deadlocks st).
  { induction roots as [|root roots IHr]; cbn [for_each]; intros st; [eauto|].
    unfold dfs_root at 1. destruct (set_mem root (visited st)); cbn [negb bind].
    - apply IHr.
    - unfold dfs_fuel.
      destruct (dfs_without_successors wfg
                  (List.length wfg
                   + fold_right (fun adj n => (List.length adj + n)%nat) 0%nat (values wfg))
                  root
                  {| visited := visited st; stack := stack st; path := [];
                     deadlocks := deadlocks st |} (Hadj root)) as [st1 [H1 Hd]].
      rewrite H1. cbn [bind]. destruct (IHr st1) as [st2 [H2 Hd2]].
      exists st2. split; [exact H2|]. simpl in Hd. congruence. }
  destruct (G (keys wfg) {| visited := []; stack := []; path := []; deadlocks := [] |})
    as [st' [H Hd]].
  rewrite H. cbn [bind]. now rewrite Hd.
Qed.

(** X17: When no order is blocked on another (in particular when nothing is
    pending, or nothing is allocated), [detect] returns the empty list. *)
Theorem detect_without_blocking (l : ResourceManager) (requests : dict (dict Z)) :
  (forall a b, ~ blocked_on (allocated_resources l) requests a b) ->
  detect l requests = Ok [].
Proof.
  intros Hnone. unfold detect.
  destruct (wait_for_graph_built l requests) as [wfg [Hb He]].
  rewrite Hb. cbn [bind]. apply detect_deadlocks_without_edges.
  intros a b Hab. apply (Hnone a b). now apply He.
Qed.

Lemma detect_without_blocking_witness :
  detect (mkRM [("Oven"%string, 1)] [("Oven"%string, 0)]
               [("A"%string, [("Oven"%string, 1)])]) [] = Ok [].
Proof.
  apply detect_without_blocking.
  intros a b (_ & req & res & qty & alloc & [] & _).
Defined.

(** ** A safe state has a completion sequence *)

(** X18: When [bankers_algorithm] answers [True], the orders can be arranged in
    a sequence in which each one can finish with [available] plus the
    allocations of those before it. *)
Theorem bankers_true_has_sequence (max_demand allocation : dict (dict Z))
    (available : dict Z) :
  wf max_demand ->
  bankers_algorithm max_demand allocation available = Ok true ->
  exists sequence,
    Permutation sequence max_demand /\ completes allocation available sequence.
Proof.
  intros Hwf H. unfold bankers_algorithm in H. apply bind_Ok in H.
  destruct H as [[work' finish'] [Hr H]]. injection H as Hall.
  destruct (unfinished_initial max_demand) as [Hk0 _].
  destruct (bankers_rounds_in_order max_demand allocation available
              (S (List.length max_demand)) available
              (map (fun '(order, _) => (order, false)) max_demand) [] work' finish')
    as [done (Hc & _ & Hf & Hsub & Hnd & Hk)]; [|exact Hr|].
  { repeat split; auto; try constructor; try contradiction.
    intros Hg. apply get_In in Hg. apply in_map_iff in Hg.
    destruct Hg as [[o n] [E _]]. discriminate. }
  exists done. split; [|exact Hc].
  assert (Hflag : forall order, In order (keys max_demand) -> In order (keys done)).
  { intros order Ho. apply Hf. rewrite <- Hk in Ho.
    destruct (getitem_known order finish' Ho) as [b [Hg _]].
    rewrite Hg. f_equal. rewrite forallb_forall in Hall. apply Hall.
    apply get_In in Hg. unfold values. apply in_map_iff. exists (order, b). auto. }
  apply NoDup_Permutation.
  - apply (NoDup_map_inv fst). exact Hnd.
  - apply (NoDup_map_inv fst). exact Hwf.
  - intros [o n]. split; [apply Hsub|]. intros Hin.
    assert (Ho : In o (keys done)) by (apply Hflag; now apply (in_map fst) in Hin).
    unfold keys in Ho. apply in_map_iff in Ho. destruct Ho as [[o' n'] [E Hd]].
    simpl in E. subst o'. pose proof (Hsub _ Hd) as Hd'.
    apply (In_get_wf _ _ _ Hwf) in Hd'. apply (In_get_wf _ _ _ Hwf) in Hin.
    rewrite Hin in Hd'. injection Hd' as <-. exact Hd.
Qed.

Lemma bankers_true_has_sequence_witness :
  exists sequence,
    Permutation sequence
      [("X"%string, [("R"%string, 2)]); ("Y"%string, [("R"%string, 1)])]
    /\ completes [("X"%string, [("R"%string, 1)]); ("Y"%string, [("R"%string, 1)])]
                 [("R"%string, 0)] sequence.
Proof.
  apply bankers_true_has_sequence.
  - apply nodup_keys_wf. reflexivity.
  - reflexivity.
Defined.

(** ** Names stay consistent, and what cannot raise *)

Lemma In_keys_remove {V : Type} (k x : string) (d : dict V) :
  In x (keys (remove k d)) <-> x <> k /\ In x (keys d).
Proof.
  rewrite <- !contains_true_iff. destruct (string_dec k x) as [->|Hne].
  - rewrite contains_remove_eq. split; [discriminate | intros [H _]; congruence].
  - rewrite contains_remove_neq by assumption. split; [intros H; split; congruence | tauto].
Qed.

Lemma In_remove_inv {V : Type} (k : string) (d : dict V) (entry : string * V) :
  In entry (remove k d) -> In entry d.
Proof. unfold remove. intros H. now apply filter_In in H. Qed.

Lemma allocate_known (order_id : string) (request : dict Z) (l l' : ResourceManager) :
  _allocate order_id request l = Ok l' ->
  forall res, In res (keys request) -> In res (keys (available_resources l)).
Proof.
  unfold _allocate. intros H. apply bind_Ok in H. destruct H as [a [Ht _]].
  now apply (for_each_take_known _ _ _ Ht).
Qed.

Lemma add_virtual_keys_agree (additions : dict Z) (l : ResourceManager) :
  keys (total_resources l) = keys (available_resources l) ->
  keys (total_resources (add_virtual_resources additions l))
  = keys (available_resources (add_virtual_resources additions l)).
Proof.
  unfold add_virtual_resources. revert l.
  induction additions as [|[res qty] additions IH]; cbn [fold_left]; intros l H; [exact H|].
  apply IH. simpl.
  destruct (in_dec string_dec res (keys (total_resources l))) as [HI|HN].
  - rewrite !keys_set_known; congruence.
  - rewrite !keys_set_new; congruence.
Qed.

Lemma ledger_names_request (order_id : string) (request : dict Z)
    (l l' : ResourceManager) (ok : bool) :
  request_resources order_id request l = Ok (ok, l') ->
  keys (total_resources l) = keys (available_resources l)
  /\ (forall o record res, In (o, record) (allocated_resources l) ->
        In res (keys record) -> In res (keys (available_resources l))) ->
  keys (total_resources l') = keys (available_resources l')
  /\ (forall o record res, In (o, record) (allocated_resources l') ->
        In res (keys record) -> In res (keys (available_resources l'))).
Proof.
  intros H [Hk Hrec]. apply request_resources_Ok in H.
  destruct H as [(_ & -> & _)|(_ & _ & Ha)]; [auto|].
  pose proof (allocate_known _ _ _ _ Ha) as Hknown.
  apply allocate_Ok in Ha. destruct Ha as (Ht & Hka & _ & Hal & _).
  rewrite Ht, Hka, Hal. split; [assumption|].
  intros o record res Hin Hres. apply In_set_inv in Hin.
  destruct Hin as [E|Hin]; [injection E as -> ->; now apply Hknown | eauto].
Qed.

Lemma ledger_names_release (order_id : string) (l l' : ResourceManager) :
  release_resources order_id l = Ok l' ->
  keys (total_resources l) = keys (available_resources l)
  /\ (forall o record res, In (o, record) (allocated_resources l) ->
        In res (keys record) -> In res (keys (available_resources l))) ->
  keys (total_resources l') = keys (available_resources l')
  /\ (forall o record res, In (o, record) (allocated_resources l') ->
        In res (keys record) -> In res (keys (available_resources l'))).
Proof.
  intros H [Hk Hrec].
  destruct (get order_id (allocated_resources l)) as [held_by|] eqn:E.
  - apply (release_Ok _ _ _ _ E) in H. destruct H as (Ht & Hka & _ & Hal & _).
    rewrite Ht, Hka, Hal. split; [assumption|].
    intros o record res Hin. apply In_remove_inv in Hin. eauto.
  - rewrite release_absent in H by (unfold contains; now rewrite E).
    injection H as <-. auto.
Qed.

Lemma load_orders_names (db_allocations : dict (dict Z)) (rows : dict (status * Z)) :
  forall om,
    (forall o, In o (keys (pending_requests om)) -> In o (keys (order_priorities om))) ->
    let om' := fold_left (load_order db_allocations) rows om in
    rm om' = rm om
    /\ (forall o, In o (keys (pending_requests om')) ->
                  In o (keys (order_priorities om'))).
Proof.
  induction rows as [|[o [st p]] rows IH]; cbn [fold_left]; intros om H; [auto|].
  destruct (IH (load_order db_allocations om (o, (st, p)))) as [Hrm Hp].
  - destruct st; simpl; intros x Hx; rewrite In_keys_set.
    + right. auto.
    + rewrite In_keys_set in Hx. destruct Hx as [->|Hx]; [now left | right; auto].
    + right. auto.
  - cbv zeta in *. rewrite Hrm. split; [now destruct st | exact Hp].
Qed.

Lemma names_init (resources : option (dict Z)) (db_resources : dict (Z * Z))
    (db_orders : dict (status * Z)) (db_allocations : dict (dict Z)) :
  names_sound (OrderManager_init (ResourceManager_init resources db_resources)
                                 db_orders db_allocations).
Proof.
  unfold OrderManager_init.
  destruct (load_orders_names db_allocations db_orders
              {| rm := ResourceManager_init resources db_resources;
                 orders := []; pending_requests := []; order_priorities := [];
                 holding_orders := [] |}) as [Hrm Hp]; [intros o []|].
  cbv zeta in *. unfold names_sound. rewrite Hrm. simpl. split; [|split].
  - destruct resources as [r|]; simpl; [reflexivity|].
    unfold keys. rewrite !map_map. apply map_ext. now intros [res row].
  - destruct resources; intros o record res [].
  - exact Hp.
Qed.

Lemma names_step (op : operation) (om om' : OrderManager) :
  run op om = Ok om' -> names_sound om -> names_sound om'.
Proof.
  intros Hrun (Hk & Hrec & Hp).
  destruct op; simpl in Hrun.
  - apply bind_Ok in Hrun. destruct Hrun as [[ok l] [H Hrun]]. injection Hrun as <-.
    destruct (ledger_names_request _ _ _ _ _ H (conj Hk Hrec)).
    unfold names_sound. simpl. auto.
  - apply bind_Ok in Hrun. destruct Hrun as [l [H Hrun]]. injection Hrun as <-.
    destruct (ledger_names_release _ _ _ H (conj Hk Hrec)).
    unfold names_sound. simpl. auto.
  - apply bind_Ok in Hrun. destruct Hrun as [l [H Hrun]]. injection Hrun as <-.
    apply preempt_Ok in H.
    destruct (ledger_names_release _ _ _ H (conj Hk Hrec)).
    unfold names_sound. simpl. auto.
  - injection Hrun as <-. unfold names_sound. simpl.
    split; [now apply add_virtual_keys_agree|]. split; [|assumption].
    destruct (add_virtual_resources_listed additions (rm om) "") as (_ & _ & Hal).
    rewrite Hal. intros o record res Hin Hres.
    apply add_virtual_resources_keys. left. eauto.
  - injection Hrun as <-. unfold names_sound. simpl. repeat split; auto.
    intros o Ho. apply (proj1 (In_keys_set _ _ _ _)) in Ho. apply In_keys_set.
    destruct Ho as [->|Ho]; auto.
  - apply process_orders_moves in Hrun as Hm. destruct Hm as [g (Hg & _ & Hpm)].
    assert (Hq : order_priorities om' = order_priorities om).
    { unfold process_orders in Hrun. apply bind_Ok in Hrun.
      destruct Hrun as [[om1 tr] [Hloop Hrun]]. injection Hrun as <-.
      apply try_orders_greedy in Hloop. destruct Hloop as [g' (_ & _ & _ & _ & Hq & _)].
      destruct (drop_pending_all tr om1) as (_ & _ & _ & D4 & _). congruence. }
    assert (Hl : keys (total_resources (rm om')) = keys (available_resources (rm om'))
                 /\ (forall o record res,
                       In (o, record) (allocated_resources (rm om')) ->
                       In res (keys record) ->
                       In res (keys (available_resources (rm om'))))).
    { apply (greedy_pass_preserves
               (fun l => keys (total_resources l) = keys (available_resources l)
                         /\ (forall o record res,
                               In (o, record) (allocated_resources l) ->
                               In res (keys record) ->
                               In res (keys (available_resources l))))
               (sorted_requests om)) with (l := rm om) (granted_orders := g); auto.
      intros o r l ok l1 _ HP H1. exact (ledger_names_request _ _ _ _ _ H1 HP). }
    destruct Hl as [Hk' Hrec']. unfold names_sound. repeat split; auto.
    rewrite Hpm, Hq. intros o Ho. apply Hp.
    unfold keys in Ho. apply in_map_iff in Ho. destruct Ho as [e [<- He]].
    apply In_move_out in He. destruct He as [He _]. now apply (in_map fst) in He.
  - unfold release_order in Hrun. apply bind_Ok in Hrun.
    destruct Hrun as [l [H Hrun]]. injection Hrun as <-.
    destruct (ledger_names_release _ _ _ H (conj Hk Hrec)).
    unfold names_sound. simpl. rewrite !discard_absent. repeat split; auto.
    intros o Ho. apply (proj1 (In_keys_remove _ _ _)) in Ho. apply In_keys_remove.
    destruct Ho as [Hne Ho]. auto.
  - unfold cancel_order, release_order in Hrun. apply bind_Ok in Hrun.
    destruct Hrun as [l [H Hrun]]. injection Hrun as <-.
    destruct (ledger_names_release _ _ _ H (conj Hk Hrec)).
    unfold names_sound. simpl. rewrite !discard_absent. repeat split; auto.
    intros o Ho. apply (proj1 (In_keys_remove _ _ _)) in Ho. apply In_keys_remove.
    destruct Ho as [Hne Ho]. auto.
  - injection Hrun as <-. unfold reschedule_order.
    destruct (contains order_id (order_priorities om)) eqn:E; unfold names_sound; simpl;
      repeat split; auto.
    intros o Ho. rewrite keys_set_known; [auto|]. now apply contains_true_iff.
Qed.

Lemma names_reachable (resources : option (dict Z)) (db_resources : dict (Z * Z))
    (db_orders : dict (status * Z)) (db_allocations : dict (dict Z))
    (allowed : operation -> OrderManager -> Prop) (om : OrderManager) :
  reachable allowed
            (OrderManager_init (ResourceManager_init resources db_resources)
                               db_orders db_allocations) om ->
  names_sound om.
Proof.
  intros Hreach. induction Hreach as [|op om om' _ IH _ Hrun].
  - apply names_init.
  - now apply (names_step op om om').
Qed.

(** X19: Whatever is done to a ledger built by the constructor, [total] and
    [available] list the same resources in the same order, and every
    allocation record names resources that [available] lists. *)
Theorem ledger_names_agree (resources : option (dict Z)) (db_resources : dict (Z * Z))
    (db_orders : dict (status * Z)) (db_allocations : dict (dict Z))
    (om : OrderManager) :
  reachable (fun _ _ => True)
            (OrderManager_init (ResourceManager_init resources db_resources)
                               db_orders db_allocations) om ->
  keys (total_resources (rm om)) = keys (available_resources (rm om))
  /\ forall order_id record res,
       get order_id (allocated_resources (rm om)) = Some record ->
       In res (keys record) -> In res (keys (available_resources (rm om))).
Proof.
  intros Hreach. apply names_reachable in Hreach. destruct Hreach as (Hk & Hrec & _).
  split; [assumption|]. intros o record res Hg. apply get_In in Hg. eauto.
Qed.

(** X20: In every state reached from the constructors, [release_order] (and so
    [cancel_order]) returns for every order id: releasing never raises. *)
Theorem release_order_never_raises (resources : option (dict Z))
    (db_resources : dict (Z * Z)) (db_orders : dict (status * Z))
    (db_allocations : dict (dict Z)) (om : OrderManager) (order_id : string) :
  reachable (fun _ _ => True)
            (OrderManager_init (ResourceManager_init resources db_resources)
                               db_orders db_allocations) om ->
  exists om', release_order order_id om = Ok om'
              /\ cancel_order order_id om = Ok om'.
Proof.
  intros Hreach. apply names_reachable in Hreach. destruct Hreach as (Hk & Hrec & _).
  unfold cancel_order, release_order, release_resources, contains, getitem.
  destruct (get order_id (allocated_resources (rm om))) as [held_by|] eqn:E;
    cbn [bind]; [|eauto].
  destruct (for_each_give_returns held_by (available_resources (rm om)))
    as [available Ha].
  { intros res Hres. apply get_In in E. eauto. }
  rewrite Ha. cbn [bind]. rewrite sync_resources_returns; cbn [bind]; [eauto|].
  apply for_each_give_spec in Ha. destruct Ha as [Hkeys _].
  intros r Hr. simpl in *. rewrite Hkeys, <- Hk. exact Hr.
Qed.

Lemma ledger_names_agree_witness :
  keys (total_resources (rm first_served)) = keys (available_resources (rm first_served))
  /\ forall order_id record res,
       get order_id (allocated_resources (rm first_served)) = Some record ->
       In res (keys record) -> In res (keys (available_resources (rm first_served))).
Proof.
  apply (ledger_names_agree (Some [("Oven"%string, 1)]) [] [] []).
  apply reachable_step with (op := ProcessOrders) (om := two_orders);
    [|exact I | reflexivity].
  apply reachable_step
    with (op := CreateOrder "Order2"%string [("Oven"%string, 1)] 2)
         (om := create_order "Order1"%string [("Oven"%string, 1)] 1 one_oven);
    [|exact I | reflexivity].
  apply reachable_step
    with (op := CreateOrder "Order1"%string [("Oven"%string, 1)] 1) (om := one_oven);
    [|exact I | reflexivity].
  apply reachable_init.
Defined.

Lemma release_order_never_raises_witness :
  exists om', release_order "Order1"%string first_served = Ok om'
              /\ cancel_order "Order1"%string first_served = Ok om'.
Proof.
  apply (release_order_never_raises (Some [("Oven"%string, 1)]) [] [] []).
  apply reachable_step with (op := ProcessOrders) (om := two_orders);
    [|exact I | reflexivity].
  apply reachable_step
    with (op := CreateOrder "Order2"%string [("Oven"%string, 1)] 2)
         (om := create_order "Order1"%string [("Oven"%string, 1)] 1 one_oven);
    [|exact I | reflexivity].
  apply reachable_step
    with (op := CreateOrder "Order1"%string [("Oven"%string, 1)] 1) (om := one_oven);
    [|exact I | reflexivity].
  apply reachable_init.
Defined.

Lemma get_or_records_positive (order_id : string) (d : dict (dict Z)) :
  records_positive d -> positive (get_or order_id d []).
Proof.
  intros H. unfold get_or. destruct (get order_id d) as [a|] eqn:E;
    [|intros res qty []].
  apply get_In in E. unfold records_positive in H. rewrite Forall_forall in H.
  exact (H _ E).
Qed.

Lemma load_orders_positive (db_allocations : dict (dict Z)) (rows : dict (status * Z)) :
  records_positive db_allocations ->
  forall om, records_positive (pending_requests om) ->
    records_positive (pending_requests (fold_left (load_order db_allocations) rows om)).
Proof.
  intros Hdb. induction rows as [|[o [st p]] rows IH]; cbn [fold_left]; intros om Hp;
    [exact Hp|].
  apply IH. destruct st; simpl; auto. apply Forall_set; [|assumption].
  simpl. now apply get_or_records_positive.
Qed.

Lemma pending_positive_step (op : operation) (om om' : OrderManager) :
  positive_orders op -> run op om = Ok om' ->
  records_positive (pending_requests om) -> records_positive (pending_requests om').
Proof.
  intros Hpos Hrun Hp. destruct op; simpl in Hpos, Hrun.
  - apply bind_Ok in Hrun. destruct Hrun as [[ok l] [_ Hrun]]. now injection Hrun as <-.
  - apply bind_Ok in Hrun. destruct Hrun as [l [_ Hrun]]. now injection Hrun as <-.
  - apply bind_Ok in Hrun. destruct Hrun as [l [_ Hrun]]. now injection Hrun as <-.
  - now injection Hrun as <-.
  - injection Hrun as <-. simpl. now apply Forall_set.
  - apply process_orders_moves in Hrun. destruct Hrun as [g (_ & _ & Hpm)].
    rewrite Hpm. now apply Forall_move_out.
  - unfold release_order in Hrun. apply bind_Ok in Hrun.
    destruct Hrun as [l [_ Hrun]]. injection Hrun as <-. simpl.
    rewrite discard_absent. now apply Forall_remove.
  - unfold cancel_order, release_order in Hrun. apply bind_Ok in Hrun.
    destruct Hrun as [l [_ Hrun]]. injection Hrun as <-. simpl.
    rewrite discard_absent. now apply Forall_remove.
  - injection Hrun as <-. unfold reschedule_order.
    now destruct (contains order_id (order_priorities om)).
Qed.

Lemma try_orders_return_positive (queue : list (string * dict Z)) :
  forall (om : OrderManager) (to_remove : list string),
    synced (rm om) ->
    (forall order_id request, In (order_id, request) queue ->
       In order_id (keys (order_priorities om)) /\ positive request) ->
    exists st, for_each try_order queue (om, to_remove) = Ok st.
Proof.
  induction queue as [|[order_id request] queue IH]; cbn [for_each];
    intros om to_remove Hs Hq; [eauto|].
  destruct (Hq order_id request (or_introl eq_refl)) as [Hprio Hpos].
  unfold try_order at 1. destruct (_can_allocate request (rm om)) eqn:Hcan.
  - apply can_allocate_iff in Hcan.
    assert (Hres : forall res, In res (keys request) ->
                               In res (keys (available_resources (rm om)))).
    { intros res Hres. unfold keys in Hres. apply in_map_iff in Hres.
      destruct Hres as [[res' qty] [E HI]]. simpl in E. subst res'.
      specialize (Hcan _ _ HI). specialize (Hpos _ _ HI). unfold get_or in Hcan.
      destruct (get res (available_resources (rm om))) as [a|] eqn:E; [|lia].
      apply contains_true_iff. unfold contains. now rewrite E. }
    destruct (allocate_returns order_id request (rm om) Hs Hres) as [l' Hl'].
    rewrite Hl'. cbn [bind].
    destruct (getitem_known order_id (order_priorities om) Hprio) as [p [_ Hp]].
    rewrite Hp. cbn [bind].
    apply allocate_Ok in Hl'. destruct Hl' as (_ & _ & _ & _ & Hs').
    apply IH; simpl; [assumption|]. intros o r HI. apply Hq. now right.
  - cbn [bind]. apply IH; [assumption|]. intros o r HI. apply Hq. now right.
Qed.

(** X21: In every state reached from the constructors with orders created with
    positive quantities only (as the dashboard creates them),
    [process_orders] returns: the allocation pass never raises. *)
Theorem process_orders_never_raises (resources : option (dict Z))
    (db_resources : dict (Z * Z)) (db_orders : dict (status * Z))
    (db_allocations : dict (dict Z)) (om : OrderManager) :
  records_positive db_allocations ->
  reachable (fun op _ => positive_orders op)
            (OrderManager_init (ResourceManager_init resources db_resources)
                               db_orders db_allocations) om ->
  exists om', process_orders om = Ok om'.
Proof.
  intros Hdb Hreach.
  assert (Hpos : records_positive (pending_requests om)).
  { induction Hreach as [|op om om' _ IH Hop Hrun].
    - unfold OrderManager_init. apply load_orders_positive; [assumption | constructor].
    - now apply (pending_positive_step op om om'). }
  apply names_reachable in Hreach. destruct Hreach as (Hk & _ & Hp).
  unfold process_orders.
  destruct (try_orders_return_positive (sorted_requests om) om []) as [[om1 tr] H].
  - intros r Hr. now rewrite <- Hk.
  - intros o r HI. apply (Permutation_in _ (sorted_perm _ _)) in HI. split.
    + apply Hp. now apply (in_map fst) in HI.
    + unfold records_positive in Hpos. rewrite Forall_forall in Hpos. exact (Hpos _ HI).
  - rewrite H. simpl. eauto.
Qed.

Lemma process_orders_never_raises_witness :
  exists om', process_orders two_orders = Ok om'.
Proof.
  apply (process_orders_never_raises (Some [("Oven"%string, 1)]) [] [] []).
  - constructor.
  - assert (Hreq : positive [("Oven"%string, 1)]).
    { intros res qty [E|[]]. injection E as <- <-. lia. }
    apply reachable_step
      with (op := CreateOrder "Order2"%string [("Oven"%string, 1)] 2)
           (om := create_order "Order1"%string [("Oven"%string, 1)] 1 one_oven);
      [|exact Hreq | reflexivity].
    apply reachable_step
      with (op := CreateOrder "Order1"%string [("Oven"%string, 1)] 1) (om := one_oven);
      [|exact Hreq | reflexivity].
    apply reachable_init.
Defined.

(** ** A completion sequence makes the state safe *)

Lemma released_app (r : string) (allocation : dict (dict Z)) (xs ys : list string) :
  released r allocation (xs ++ ys) = released r allocation xs + released r allocation ys.
Proof.
  unfold released. induction xs as [|x xs IH]; simpl; [reflexivity|]. rewrite IH. lia.
Qed.

Lemma released_nonnegative (r : string) (allocation : dict (dict Z)) (xs : list string) :
  records_nonnegative allocation -> 0 <= released r allocation xs.
Proof.
  intros Hnn. unfold released. induction xs as [|x xs IH]; simpl; [lia|].
  pose proof (get_or_nonnegative r _ (get_or_records_nonnegative x allocation Hnn)). lia.
Qed.

Lemma released_incl (r : string) (allocation : dict (dict Z)) (xs : list string) :
  records_nonnegative allocation ->
  forall ys, NoDup xs -> incl xs ys ->
             released r allocation xs <= released r allocation ys.
Proof.
  intros Hnn. induction xs as [|x xs IH]; intros ys Hnd Hincl.
  - simpl. now apply released_nonnegative.
  - inversion Hnd as [|? ? Hnot Hnd']; subst.
    destruct (in_split x ys (Hincl x (or_introl eq_refl))) as [l1 [l2 ->]].
    assert (Hrest : incl xs (l1 ++ l2)).
    { intros y Hy. pose proof (Hincl y (or_intror Hy)) as H.
      apply in_app_or in H. apply in_or_app.
      destruct H as [H|[<-|H]]; [now left | contradiction | now right]. }
    specialize (IH (l1 ++ l2) Hnd' Hrest).
    rewrite released_app in *. simpl. lia.
Qed.

Lemma work_after_released (allocation : dict (dict Z)) (r : string)
    (sequence : list (string * dict Z)) :
  records_wf allocation ->
  forall work0,
    get_or r (work_after allocation work0 sequence) 0
    = get_or r work0 0 + released r allocation (keys sequence).
Proof.
  intros Hwf. unfold work_after.
  induction sequence as [|[o n] sequence IH]; simpl; intros work0; [lia|].
  rewrite IH, release_into_spec by (now apply get_or_wf). lia.
Qed.

Lemma can_finish_monotone (need held_by work0 work1 : dict Z) :
  (forall r, get_or r work0 0 <= get_or r work1 0) ->
  can_finish need held_by work0 = true -> can_finish need held_by work1 = true.
Proof.
  intros Hle H. apply can_finish_iff. intros res Hres.
  apply (proj1 (can_finish_iff _ _ _) H) in Hres. specialize (Hle res). lia.
Qed.

(** Once the rounds are stuck, every order of a feasible sequence has been
    finished: the first one that is not could finish with the work at hand. *)
Lemma stuck_covers_sequence (max_demand allocation : dict (dict Z))
    (available work' : dict Z) (finish' : dict bool) (done : list (string * dict Z)) :
  records_wf allocation -> records_nonnegative allocation ->
  stuck max_demand allocation work' finish' ->
  finished_in_order max_demand allocation available work' finish' done ->
  forall (rest before : list (string * dict Z)),
    NoDup (keys (before ++ rest)) ->
    (forall entry, In entry rest -> In entry max_demand) ->
    (forall order, In order (keys before) -> In order (keys done)) ->
    completes allocation (work_after allocation available before) rest ->
    forall entry, In entry rest -> In (fst entry) (keys done).
Proof.
  intros Hwf Hnn Hstuck (_ & Hw & Hf & _ & _ & _).
  induction rest as [|[o n] rest IH]; intros before Hnd Hsub Hbefore Hc entry Hin;
    [contradiction|].
  simpl in Hc. destruct Hc as [Hcan Hc].
  assert (Ho : In o (keys done)).
  { apply Hf. destruct (Hstuck o n (Hsub _ (or_introl eq_refl))) as [fin [Hg Hno]].
    rewrite Hg. f_equal. destruct fin; [reflexivity|].
    rewrite <- (Hno eq_refl).
    apply (can_finish_monotone n _ (work_after allocation available before)); [|exact Hcan].
    intros r. rewrite Hw, !work_after_released by assumption.
    assert (released r allocation (keys before) <= released r allocation (keys done)).
    { apply released_incl; auto.
      unfold keys in *. rewrite map_app in Hnd. now apply NoDup_app_remove_r in Hnd. }
    lia. }
  destruct Hin as [<-|Hin]; [exact Ho|].
  apply (IH (before ++ [(o, n)])); auto.
  - now rewrite <- app_assoc.
  - intros e He. apply Hsub. now right.
  - intros x Hx. unfold keys in Hx. rewrite map_app in Hx. apply in_app_or in Hx.
    destruct Hx as [Hx|[<-|[]]]; auto.
  - rewrite work_after_snoc. exact Hc.
Qed.

Lemma bankers_sequence_safe (max_demand allocation : dict (dict Z))
    (available : dict Z) (sequence : list (string * dict Z)) :
  wf max_demand -> records_wf allocation -> records_nonnegative allocation ->
  Permutation sequence max_demand ->
  completes allocation available sequence ->
  bankers_algorithm max_demand allocation available = Ok true.
Proof.
  intros Hwfm Hwfa Hnn Hperm Hc.
  destruct (unfinished_initial max_demand) as [Hk0 Hu0].
  destruct (bankers_rounds_returns max_demand allocation (S (List.length max_demand))
              available (map (fun '(order, _) => (order, false)) max_demand))
    as [work' [finish' [Hr Hstuck]]]; [assumption | lia |].
  destruct (bankers_rounds_in_order max_demand allocation available
              (S (List.length max_demand)) available
              (map (fun '(order, _) => (order, false)) max_demand) [] work' finish')
    as [done Hinv]; [|exact Hr|].
  { repeat split; auto; try constructor; try contradiction.
    intros Hg. apply get_In in Hg. apply in_map_iff in Hg.
    destruct Hg as [[o n] [E _]]. discriminate. }
  assert (Hall : forall entry, In entry sequence -> In (fst entry) (keys done)).
  { apply (stuck_covers_sequence max_demand allocation available work' finish' done
             Hwfa Hnn Hstuck Hinv sequence []); auto.
    - simpl. unfold wf, keys in *.
      apply Permutation_NoDup with (l := map fst max_demand); [|exact Hwfm].
      apply Permutation_map, Permutation_sym, Hperm.
    - intros e He. apply (Permutation_in _ Hperm He).
    - intros o []. }
  destruct Hinv as (_ & _ & Hf & _ & _ & Hk).
  unfold bankers_algorithm. rewrite Hr. cbn [bind]. f_equal.
  apply forallb_forall. intros b Hb. unfold values in Hb. apply in_map_iff in Hb.
  destruct Hb as [[o fin] [E Hin]]. simpl in E. subst fin.
  assert (Hwff : wf finish') by (unfold wf; now rewrite Hk).
  pose proof (In_get_wf _ _ _ Hwff Hin) as Hg.
  assert (Ho : In o (keys max_demand)).
  { rewrite <- Hk. now apply (in_map fst) in Hin. }
  unfold keys in Ho. apply in_map_iff in Ho. destruct Ho as [e [E He]].
  apply (Permutation_in _ (Permutation_sym Hperm)) in He.
  apply Hall in He. rewrite E in He. apply Hf in He. congruence.
Qed.

(** X22: When the orders can be arranged in a sequence in which each one can
    finish with [available] plus the allocations of those before it, and no
    allocated quantity is negative, [bankers_algorithm] answers [True]. *)
Theorem bankers_sequence_gives_true (max_demand allocation : dict (dict Z))
    (available : dict Z) (sequence : list (string * dict Z)) :
  wf max_demand -> records_wf allocation -> records_nonnegative allocation ->
  Permutation sequence max_demand ->
  completes allocation available sequence ->
  bankers_algorithm max_demand allocation available = Ok true.
Proof. apply bankers_sequence_safe. Qed.

Lemma bankers_sequence_gives_true_witness :
  bankers_algorithm
    [("X"%string, [("R"%string, 2)]); ("Y"%string, [("R"%string, 1)])]
    [("X"%string, [("R"%string, 1)]); ("Y"%string, [("R"%string, 1)])]
    [("R"%string, 0)]
  = Ok true.
Proof.
  apply (bankers_sequence_gives_true _ _ _
           [("Y"%string, [("R"%string, 1)]); ("X"%string, [("R"%string, 2)])]).
  - apply nodup_keys_wf. reflexivity.
  - constructor; [apply nodup_keys_wf; reflexivity|].
    constructor; [apply nodup_keys_wf; reflexivity | constructor].
  - constructor; [intros res qty [E|[]]; injection E as <- <-; lia|].
    constructor; [intros res qty [E|[]]; injection E as <- <-; lia | constructor].
  - apply perm_swap.
  - simpl. split; [reflexivity|]. split; [reflexivity | exact I].
Defined.

(** ** An empty report means no cycle *)

Lemma set_discard_add (x : string) (s : list string) :
  ~ In x s -> set_discard x (set_add x s) = s.
Proof.
  intros Hn. unfold set_add.
  destruct (set_mem x s) eqn:E; [apply set_mem_iff in E; contradiction|].
  unfold set_discard. rewrite filter_app. simpl. rewrite String.eqb_refl. simpl.
  rewrite app_nil_r. clear E. induction s as [|y s IH]; simpl; [reflexivity|].
  destruct (String.eqb_spec x y) as [->|Hne]; [exfalso; apply Hn; now left|].
  simpl. f_equal. apply IH. intros H. apply Hn. now right.
Qed.

Lemma finished_no_knot (wfg : graph) (fin group : list string) :
  finished_order wfg fin ->
  (forall a, In a group -> exists b, In b group /\ edge wfg a b) ->
  forall a, In a fin -> ~ In a group.
Proof.
  intros Hfin Hclosed. induction fin as [|n earlier IH]; intros a Ha; [contradiction|].
  destruct Hfin as [Hsucc Hearlier]. destruct Ha as [<-|Ha]; [|now apply IH].
  intros Hn. destruct (Hclosed n Hn) as [b [Hb He]].
  apply (IH Hearlier b (Hsucc b He) Hb).
Qed.

(** A search that finds something has reported it, and no report is ever
    dropped. *)
Lemma dfs_reports (wfg : graph) (fuel : nat) :
  forall (node : string) (st : dfs_state) (found : bool) (st' : dfs_state),
    dfs fuel wfg node st = Ok (found, st') ->
    (List.length (deadlocks st) <= List.length (deadlocks st'))%nat
    /\ (found = true -> deadlocks st' <> []).
Proof.
  induction fuel as [|fuel IH]; intros node st found st' H; [discriminate|].
  cbn [dfs] in H.
  set (entered := {| visited := set_add node (visited st);
                     stack := set_add node (stack st);
                     path := path st ++ [node];
                     deadlocks := deadlocks st |}) in H.
  assert (Hlen : (List.length (deadlocks st) <= List.length (deadlocks entered))%nat)
    by (simpl; lia).
  revert H Hlen. generalize entered as cur. generalize (get_or node wfg []) as neighbors.
  induction neighbors as [|neighbor rest IHn]; intros cur H Hlen.
  - injection H as <- <-. simpl. split; [assumption | discriminate].
  - destruct (set_mem neighbor (visited cur)); cbn [negb] in H.
    + destruct (set_mem neighbor (stack cur)).
      * apply bind_Ok in H. destruct H as [i [_ H]]. injection H as <- <-. simpl.
        rewrite length_app. simpl. split; [lia|]. intros _ E.
        apply app_eq_nil in E. destruct E as [_ E]. discriminate.
      * now apply (IHn cur).
    + apply bind_Ok in H. destruct H as [[f st1] [H1 H]].
      destruct (IH _ _ _ _ H1) as [Hl1 Hf1]. destruct f.
      * injection H as <- <-. split; [lia | auto].
      * apply (IHn st1 H). lia.
Qed.

(** A search that finds nothing leaves its node finished: the stack is as
    before, the node and all it reached are visited, and the finishing order
    extends. *)
Lemma dfs_complete (wfg : graph) (fuel : nat) :
  forall (node : string) (st st' : dfs_state),
    dfs fuel wfg node st = Ok (false, st') ->
    ~ In node (visited st) ->
    search_sound wfg st ->
    search_sound wfg st' /\ stack st' = stack st
    /\ incl (visited st) (visited st') /\ In node (visited st').
Proof.
  induction fuel as [|fuel IH]; intros node st st' H Hnew Hsound; [discriminate|].
  cbn [dfs] in H.
  set (entered := {| visited := set_add node (visited st);
                     stack := set_add node (stack st);
                     path := path st ++ [node];
                     deadlocks := deadlocks st |}) in H.
  assert (Hnostack : ~ In node (stack st)).
  { intros HI. apply Hnew. now apply (proj1 Hsound). }
  assert (L1 : stack entered = set_add node (stack st)) by reflexivity.
  assert (L2 : incl (visited st) (visited entered) /\ In node (visited entered)).
  { simpl. split; [intros x Hx|]; apply In_set_add; auto. }
  assert (L4 : search_sound wfg entered).
  { destruct Hsound as [Hincl [fin [Hfin Hchar]]]. split.
    - simpl. intros x Hx. apply In_set_add in Hx. apply In_set_add.
      destruct Hx as [->|Hx]; auto.
    - exists fin. split; [assumption|]. intros n. rewrite Hchar. simpl.
      rewrite !In_set_add. split.
      + intros [Hv Hs]. split; [auto|]. intros [->|Hn]; contradiction.
      + intros [[->|Hv] Hs]; [exfalso; apply Hs; now left|].
        split; [assumption|]. intros Hn. apply Hs. now right. }
  assert (L5 : forall m, edge wfg node m ->
                 In m (get_or node wfg [])
                 \/ (In m (visited entered) /\ ~ In m (stack entered))).
  { intros m [waiting [Hg Hm]]. left. unfold get_or. now rewrite Hg. }
  revert H L1 L2 L4 L5.
  generalize entered as cur. generalize (get_or node wfg []) as neighbors.
  induction neighbors as [|neighbor rest IHn]; intros cur H L1 L2 L4 L5.
  - injection H as <-. simpl. rewrite L1, (set_discard_add _ _ Hnostack).
    destruct L2 as [L2 L2']. destruct Hsound as [Hincl _].
    destruct L4 as [_ [fin [Hfin Hchar]]].
    repeat split; auto.
    + intros x Hx. apply L2, Hincl, Hx.
    + exists (node :: fin). split.
      * split; [|assumption]. intros m Hm. apply Hchar.
        destruct (L5 m Hm) as [[]|Hdone]. exact Hdone.
      * intros n. simpl. rewrite Hchar, L1, In_set_add. split.
        -- intros [<-|[Hv Hs]]; [auto|]. split; [assumption|]. intros Hn. apply Hs.
           now right.
        -- intros [Hv Hs]. destruct (string_dec node n) as [E|Hne]; [now left|].
           right. split; [assumption|]. intros [E|Hn]; [congruence | contradiction].
  - destruct (set_mem neighbor (visited cur)) eqn:Hv; cbn [negb] in H.
    + destruct (set_mem neighbor (stack cur)) eqn:Hs.
      * apply bind_Ok in H. destruct H as [i [_ H]]. discriminate.
      * apply (IHn cur H L1 L2 L4). intros m Hm.
        destruct (L5 m Hm) as [[<-|Hin]|Hdone]; auto.
        right. split; [now apply set_mem_iff|].
        intros HI. apply set_mem_iff in HI. congruence.
    + apply bind_Ok in H. destruct H as [[f st1] [H1 H]].
      destruct f; [discriminate|].
      assert (Hnv : ~ In neighbor (visited cur)).
      { intros HI. apply set_mem_iff in HI. congruence. }
      destruct (IH neighbor cur st1 H1 Hnv L4) as (S1 & S2 & S3 & S4).
      apply (IHn st1 H); auto.
      * congruence.
      * destruct L2 as [L2 L2']. split; [|auto]. intros x Hx. apply S3, L2, Hx.
      * intros m Hm. rewrite S2.
        destruct (L5 m Hm) as [[<-|Hin]|[Hdv Hds]]; auto.
        right. split; [assumption|]. intros HI. apply Hnv. now apply (proj1 L4).
Qed.

Lemma roots_report (wfg : graph) (roots : list string) :
  forall (st st' : dfs_state),
    for_each (dfs_root wfg) roots st = Ok st' ->
    (List.length (deadlocks st) <= List.length (deadlocks st'))%nat.
Proof.
  induction roots as [|root roots IH]; cbn [for_each]; intros st st' H.
  - injection H as <-. lia.
  - apply bind_Ok in H. destruct H as [st1 [H1 H]]. apply IH in H.
    unfold dfs_root in H1. destruct (set_mem root (visited st)); cbn [negb] in H1.
    + injection H1 as <-. exact H.
    + apply bind_Ok in H1. destruct H1 as [[f st2] [H2 H1]]. injection H1 as <-.
      apply dfs_reports in H2. simpl in H2. lia.
Qed.

Lemma roots_complete (wfg : graph) (roots : list string) :
  forall (st st' : dfs_state),
    for_each (dfs_root wfg) roots st = Ok st' ->
    deadlocks st' = [] ->
    search_sound wfg st -> stack st = [] ->
    search_sound wfg st' /\ stack st' = []
    /\ forall n, In n (visited st) \/ In n roots -> In n (visited st').
Proof.
  induction roots as [|root roots IH]; cbn [for_each]; intros st st' H Hnone Hsound Hstack.
  - injection H as <-. split; [assumption|]. split; [assumption|].
    intros n [Hn|[]]. exact Hn.
  - apply bind_Ok in H. destruct H as [st1 [H1 H]].
    pose proof (roots_report _ _ _ _ H) as Hlen. rewrite Hnone in Hlen. simpl in Hlen.
    unfold dfs_root in H1. destruct (set_mem root (visited st)) eqn:Hv; cbn [negb] in H1.
    + injection H1 as <-. destruct (IH _ _ H Hnone Hsound Hstack) as (S1 & S2 & S3).
      split; [assumption|]. split; [assumption|].
      intros n [Hn|[<-|Hn]]; apply S3; auto.
      left. now apply set_mem_iff.
    + apply bind_Ok in H1. destruct H1 as [[f st2] [H2 H1]]. injection H1 as <-.
      assert (Hf : f = false).
      { destruct f; [|reflexivity]. apply dfs_reports in H2. destruct H2 as [_ H2].
        specialize (H2 eq_refl).
        destruct (deadlocks st2); [contradiction | simpl in Hlen; lia]. }
      subst f.
      destruct (dfs_complete wfg _ root _ st2 H2) as (S1 & S2 & S3 & S4).
      * simpl. intros HI. apply set_mem_iff in HI. congruence.
      * exact Hsound.
      * simpl in S2, S3. destruct (IH _ _ H Hnone S1) as (T1 & T2 & T3); [congruence|].
        split; [assumption|]. split; [assumption|].
        intros n [Hn|[<-|Hn]]; apply T3; auto.
Qed.

Lemma detect_deadlocks_no_knot (wfg : graph) :
  detect_deadlocks wfg = Ok [] ->
  forall group, ~ knot wfg group.
Proof.
  unfold detect_deadlocks. intros H group [Hne Hclosed].
  apply bind_Ok in H. destruct H as [st [H E]]. injection E as Hnone.
  destruct (roots_complete wfg (keys wfg) _ st H Hnone) as (S1 & S2 & S3).
  - split; [intros x []|]. exists []. split; [exact I|].
    intros n. simpl. tauto.
  - reflexivity.
  - destruct group as [|a group]; [now apply Hne|].
    destruct (Hclosed a (or_introl eq_refl)) as [b [Hb [waiting [Hg _]]]].
    destruct S1 as [_ [fin [Hfin Hchar]]].
    apply (finished_no_knot wfg fin (a :: group) Hfin Hclosed a); [|now left].
    apply Hchar. rewrite S2. split; [|intros []].
    apply S3. right. apply contains_true_iff. unfold contains. now rewrite Hg.
Qed.

(** X23: Completeness of the search: when [detect_deadlocks] returns the empty
    list, the graph has no cycle: there is no non-empty group of nodes in
    which every node has an edge to a node of the group. *)
Theorem detect_deadlocks_complete (wfg : graph) (group : list string) :
  detect_deadlocks wfg = Ok [] -> ~ knot wfg group.
Proof. intros H. now apply detect_deadlocks_no_knot. Qed.

Lemma detect_deadlocks_complete_witness :
  ~ knot [("A"%string, ["B"%string]); ("B"%string, [])] ["A"%string; "B"%string].
Proof.
  apply detect_deadlocks_complete. reflexivity.
Defined.

(** X24: When [detect] returns the empty list, no deadlock exists: there is no
    non-empty group of orders in which every order has a pending request for a
    resource held by another order of the group. *)
Theorem detect_complete (l : ResourceManager) (requests : dict (dict Z))
    (group : list string) :
  detect l requests = Ok [] ->
  group <> [] ->
  ~ (forall a, In a group ->
       exists b, In b group /\ blocked_on (allocated_resources l) requests a b).
Proof.
  unfold detect. intros H Hne Hclosed.
  destruct (wait_for_graph_built l requests) as [wfg [Hb He]].
  rewrite Hb in H. cbn [bind] in H.
  apply (detect_deadlocks_no_knot wfg H group). split; [assumption|].
  intros a Ha. destruct (Hclosed a Ha) as [b [Hb' Hab]].
  exists b. split; [assumption | now apply He].
Qed.

Lemma detect_complete_witness :
  ~ (forall a, In a ["B"%string] ->
       exists b, In b ["B"%string] /\
         blocked_on [("A"%string, [("Oven"%string, 1)])]
                    [("B"%string, [("Oven"%string, 1)])] a b).
Proof.
  apply (detect_complete (mkRM [] [] [("A"%string, [("Oven"%string, 1)])])
           [("B"%string, [("Oven"%string, 1)])] ["B"%string]).
  - reflexivity.
  - discriminate.
Defined.

(** ** The two records of the allocations *)

Lemma greedy_pass_allocated (queue : list (string * dict Z)) :
  forall (l l' : ResourceManager) (granted_orders : list (string * dict Z)),
    greedy_pass queue l = Ok (granted_orders, l') ->
    allocated_resources l' = move_in granted_orders (allocated_resources l).
Proof.
  induction queue as [|[o r] queue IH]; cbn [greedy_pass]; intros l l' g H.
  - now injection H as <- <-.
  - apply bind_Ok in H. destruct H as [[ok l1] [H1 H]].
    apply bind_Ok in H. destruct H as [[g1 l2] [Hg H]]. injection H as <- <-.
    apply IH in Hg. rewrite Hg. apply request_resources_Ok in H1.
    destruct H1 as [(-> & -> & _)|(-> & _ & Ha)]; [reflexivity|].
    apply allocate_Ok in Ha. destruct Ha as (_ & _ & _ & Hal & _).
    now rewrite Hal.
Qed.

Lemma release_resources_allocated (order_id : string) (l l' : ResourceManager) :
  release_resources order_id l = Ok l' ->
  allocated_resources l' = remove order_id (allocated_resources l).
Proof.
  intros H. destruct (get order_id (allocated_resources l)) as [held_by|] eqn:E.
  - apply (release_Ok _ _ _ _ E) in H. tauto.
  - assert (Hc : contains order_id (allocated_resources l) = false)
      by (unfold contains; now rewrite E).
    rewrite (release_absent _ _ Hc) in H. injection H as <-.
    now rewrite remove_absent.
Qed.

Lemma records_agree_step (op : operation) (om om' : OrderManager) :
  coordinator_operation op -> run op om = Ok om' ->
  orders om = allocated_resources (rm om) ->
  orders om' = allocated_resources (rm om').
Proof.
  intros Hc Hrun Heq. destruct op; simpl in Hc, Hrun; try contradiction.
  - now injection Hrun as <-.
  - apply process_orders_moves in Hrun. destruct Hrun as [g (Hg & Ho & _)].
    apply greedy_pass_allocated in Hg. congruence.
  - unfold release_order in Hrun. apply bind_Ok in Hrun.
    destruct Hrun as [l [H Hrun]]. injection Hrun as <-. simpl.
    rewrite discard_absent, (release_resources_allocated _ _ _ H). congruence.
  - unfold cancel_order, release_order in Hrun. apply bind_Ok in Hrun.
    destruct Hrun as [l [H Hrun]]. injection Hrun as <-. simpl.
    rewrite discard_absent, (release_resources_allocated _ _ _ H). congruence.
  - injection Hrun as <-. unfold reschedule_order.
    now destruct (contains order_id (order_priorities om)).
Qed.

(** X25: As long as only the coordinator is used, from a start without stored
    orders, its allocated map and the ledger's allocation map are the same
    map: same orders, same records, same order of entries. *)
Theorem allocation_records_agree (resources : option (dict Z))
    (db_resources : dict (Z * Z)) (db_allocations : dict (dict Z))
    (om : OrderManager) :
  reachable (fun op _ => coordinator_operation op)
            (OrderManager_init (ResourceManager_init resources db_resources)
                               [] db_allocations) om ->
  orders om = allocated_resources (rm om).
Proof.
  intros Hreach. induction Hreach as [|op om om' _ IH Hc Hrun].
  - now destruct resources.
  - now apply (records_agree_step op om om').
Qed.

Lemma allocation_records_agree_witness :
  orders first_served = allocated_resources (rm first_served).
Proof.
  apply (allocation_records_agree (Some [("Oven"%string, 1)]) [] []).
  apply reachable_step with (op := ProcessOrders) (om := two_orders);
    [|exact I | reflexivity].
  apply reachable_step
    with (op := CreateOrder "Order2"%string [("Oven"%string, 1)] 2)
         (om := create_order "Order1"%string [("Oven"%string, 1)] 1 one_oven);
    [|exact I | reflexivity].
  apply reachable_step
    with (op := CreateOrder "Order1"%string [("Oven"%string, 1)] 1) (om := one_oven);
    [|exact I | reflexivity].
  apply reachable_init.
Defined.

(** ** The safe-state check of the dashboard *)

Lemma filled_dict {V : Type} (f : string -> V) (ks : list string) :
  forall d,
    wf d ->
    let d' := fold_left (fun d k => set k (f k) d) ks d in
    wf d' /\ forall k v, In (k, v) d' -> In (k, v) d \/ v = f k.
Proof.
  induction ks as [|k0 ks IH]; cbn [fold_left]; intros d Hwf; [auto|].
  destruct (IH (set k0 (f k0) d) (wf_set _ _ _ Hwf)) as [Hwf' Hin].
  split; [exact Hwf'|]. intros k v Hkv.
  destruct (Hin k v Hkv) as [H|H]; [|now right].
  apply In_set_inv in H. destruct H as [E|H]; [injection E as -> ->; now right | now left].
Qed.

Lemma release_into_nonnegative (held_by work0 : dict Z) :
  nonnegative held_by ->
  (forall r, 0 <= get_or r work0 0) ->
  forall r, 0 <= get_or r (release_into held_by work0) 0.
Proof.
  intros Hnn. unfold release_into. revert work0. generalize (keys held_by) as ks.
  induction ks as [|k ks IH]; cbn [fold_left]; intros work0 Hw; [exact Hw|].
  apply IH. intros r. destruct (string_dec k r) as [->|Hne].
  - rewrite get_or_set_eq. pose proof (get_or_nonnegative r held_by Hnn).
    specialize (Hw r). lia.
  - rewrite get_or_set_neq by assumption. apply Hw.
Qed.

(** Orders that request nothing can finish in any order. *)
Lemma holders_complete (allocation : dict (dict Z)) (sequence : list (string * dict Z)) :
  records_nonnegative allocation ->
  (forall order demand, In (order, demand) sequence ->
     demand = demand_of (get_or order allocation []) []) ->
  forall work0, (forall r, 0 <= get_or r work0 0) ->
                completes allocation work0 sequence.
Proof.
  intros Hnn. induction sequence as [|[o d] sequence IH]; intros Hd work0 Hw; [exact I|].
  cbn [completes].
  pose proof (get_or_records_nonnegative o allocation Hnn) as Ho.
  split.
  - apply can_finish_iff. intros res Hres.
    rewrite (Hd o d (or_introl eq_refl)).
    pose proof (get_or_nonnegative res _ Ho) as Hres0. specialize (Hw res).
    unfold get_or at 1.
    destruct (get res (demand_of (get_or o allocation []) [])) as [v|] eqn:E; [|lia].
    apply get_In in E. unfold demand_of in E.
    destruct (filled_dict
                (fun res => Z.max (get_or res (get_or o allocation []) 0) (get_or res [] 0))
                (set_of_list (keys (get_or o allocation []) ++ @keys Z [])) [])
      as [_ Hin];
      [constructor|].
    destruct (Hin res v E) as [[] | ->]. rewrite get_or_nil. lia.
  - apply IH; [intros o' d' H; apply Hd; now right|].
    now apply release_into_nonnegative.
Qed.

(** X26: With nothing pending, no negative allocation and no negative available
    quantity, the dashboard's safe-state check answers [True]. *)
Theorem check_safe_state_without_requests (om : OrderManager) :
  pending_requests om = [] ->
  records_wf (allocated_resources (rm om)) ->
  records_nonnegative (allocated_resources (rm om)) ->
  (forall r, 0 <= get_or r (available_resources (rm om)) 0) ->
  check_safe_state om = Ok true.
Proof.
  intros Hp Hwf Hnn Hw. unfold check_safe_state, get_current_requests. rewrite Hp.
  set (allocation := allocated_resources (rm om)) in *.
  destruct (filled_dict
              (fun order_id => demand_of (get_or order_id allocation [])
                                         (get_or order_id (@nil (string * dict Z)) []))
              (set_of_list (keys allocation ++ @keys (dict Z) [])) []) as [Hwfm Hin];
    [constructor|].
  apply (bankers_sequence_safe _ _ _ (max_demand_of allocation [])); auto.
  apply holders_complete; auto.
  intros order demand H. unfold max_demand_of in H.
  destruct (Hin order demand H) as [[] | ->]. reflexivity.
Qed.

Lemma check_safe_state_without_requests_witness :
  check_safe_state
    (mkOM (mkRM [("Oven"%string, 1)] [("Oven"%string, 0)]
                [("Order1"%string, [("Oven"%string, 1)])])
          [("Order1"%string, [("Oven"%string, 1)])] [] [("Order1"%string, 1)] [])
  = Ok true.
Proof.
  apply check_safe_state_without_requests.
  - reflexivity.
  - constructor; [apply nodup_keys_wf; reflexivity | constructor].
  - constructor; [intros res qty [E|[]]; injection E as <- <-; lia | constructor].
  - intros r. simpl. unfold get_or. simpl. destruct (String.eqb r "Oven"); lia.
Defined.
